(** * govdata.js: a shallow embedding of the FPDS fetch engine

    The development follows the layout of the TypeScript sources:

    - [JS]               the fragment of JavaScript values and string
                         primitives the program relies on;
    - [Sha256]           the digest behind [createHash('sha256')];
    - [Validators]       src/utils/validators.ts;
    - [Semaphore]        src/utils/semaphore.ts;
    - [XMLProcessor]     src/utils/xml-processor.ts;
    - [FieldMapper]      src/core/fpds/field-mapper.ts;
    - [ContractProcessor] src/core/fpds/contract-processor.ts;
    - [Request]          src/core/fpds/request.ts.

    Strings are sequences of bytes, read as the UTF-8 encoding of the
    JavaScript string, in which a surrogate without its partner is
    written like any code point of three bytes; objects are association
    lists in property order. *)

From Stdlib Require Import ZArith List String Ascii Bool Lia.
From Stdlib Require Import DecimalString.
From stdpp Require Import base list.
Import ListNotations.

Local Open Scope string_scope.
Local Open Scope list_scope.
Local Open Scope Z_scope.

(* ===================================================================== *)
(** * JavaScript values and primitives *)
(* ===================================================================== *)

Module JS.

(** ** Strings *)

Notation "s +++ t" := (String.append s t)
  (at level 60, right associativity) : string_scope.

Definition chr (c : ascii) : string := String c EmptyString.

(** [s.includes(sub)] *)
Fixpoint includes (s sub : string) : bool :=
  String.prefix sub s ||
  match s with
  | EmptyString => false
  | String _ rest => includes rest sub
  end.

(** [s.includes(c)] for a one-character needle, by a direct scan. *)
Fixpoint has_char (c : ascii) (s : string) : bool :=
  match s with
  | EmptyString => false
  | String d rest => Ascii.eqb c d || has_char c rest
  end.

(** [s.replace(/c/g, rep)] for a one-character pattern. *)
Fixpoint replaceAll (c : ascii) (rep : string) (s : string) : string :=
  match s with
  | EmptyString => EmptyString
  | String d rest =>
      (if Ascii.eqb c d then rep else chr d) +++ replaceAll c rep rest
  end.

(** [xs.join(sep)] on an array of strings. *)
Definition join (sep : string) (xs : list string) : string :=
  String.concat sep xs.

Fixpoint drop (n : nat) (s : string) : string :=
  match n, s with
  | O, _ => s
  | S _, EmptyString => EmptyString
  | S m, String _ rest => drop m rest
  end.

Fixpoint rev_onto (s acc : string) : string :=
  match s with
  | EmptyString => acc
  | String c rest => rev_onto rest (String c acc)
  end.

Definition reverse (s : string) : string := rev_onto s EmptyString.

Definition code (c : ascii) : N := N_of_ascii c.

Definition bytes3 (s : string) : N * N * N :=
  match s with
  | String a (String b (String c _)) => (code a, code b, code c)
  | String a (String b EmptyString) => (code a, code b, 0)
  | String a EmptyString => (code a, 0, 0)
  | EmptyString => (0, 0, 0)
  end%N.

(** ECMAScript WhiteSpace and LineTerminator code points: their number
    of bytes in UTF-8 when the bytes [x y z] begin with one, otherwise
    0. *)
Definition ws_bytes (x y z : N) : nat :=
  if ((9 <=? x) && (x <=? 13) || (x =? 32))%N then 1%nat
  else if ((x =? 194) && (y =? 160))%N then 2%nat
  else if ((x =? 225) && (y =? 154) && (z =? 128))%N then 3%nat
  else if ((x =? 226) && (y =? 128)
           && ((128 <=? z) && (z <=? 138) || (z =? 168) || (z =? 169)
               || (z =? 175)))%N then 3%nat
  else if ((x =? 226) && (y =? 129) && (z =? 159))%N then 3%nat
  else if ((x =? 227) && (y =? 128) && (z =? 128))%N then 3%nat
  else if ((x =? 239) && (y =? 187) && (z =? 191))%N then 3%nat
  else 0%nat.

(** Number of bytes of the white-space character at the head of [s],
    0 when [s] does not start with one. *)
Definition ws_len (s : string) : nat :=
  let '(x, y, z) := bytes3 s in ws_bytes x y z.

(** The same test at the end of a string, on its reversal: [z] is the
    last byte, [y] and [x] the two before it. *)
Definition ws_len_rev (r : string) : nat :=
  let '(z, y, x) := bytes3 r in
  if (ws_bytes z 0 0 =? 1)%nat then 1%nat
  else if (ws_bytes y z 0 =? 2)%nat then 2%nat
  else if (ws_bytes x y z =? 3)%nat then 3%nat
  else 0%nat.

Fixpoint strip (len : string -> nat) (fuel : nat) (s : string) : string :=
  match fuel with
  | O => s
  | S fuel' =>
      match len s with
      | O => s
      | n => strip len fuel' (drop n s)
      end
  end.

Definition trimStart (s : string) : string :=
  strip ws_len (String.length s) s.

Definition trimEnd (s : string) : string :=
  reverse (strip ws_len_rev (String.length s) (reverse s)).

(** [s.trim()] *)
Definition trim (s : string) : string := trimEnd (trimStart s).

(** ** Well-formed strings

    A JavaScript string is a sequence of 16-bit code units. Its bytes
    here are the UTF-8 encoding of its code points; a surrogate that has
    no partner is written as the three bytes [ED A0..BF 80..BF] its
    code point would take, and a pair of surrogates always as the four
    bytes of the code point they stand for. *)
Definition lone_surrogate (a b c : ascii) : bool :=
  ((code a =? 237) && (160 <=? code b) && (code b <=? 191)
   && (128 <=? code c) && (code c <=? 191))%N.

(** U+FFFD, the replacement character. *)
Definition replacement : string :=
  String (ascii_of_N 239) (String (ascii_of_N 191) (String (ascii_of_N 189) "")).

(** [s.toWellFormed()]: each lone surrogate becomes U+FFFD. It is what
    the conversion to a [USVString] does and what encoding [s] as UTF-8
    does. *)
Fixpoint toWellFormed (s : string) : string :=
  match s with
  | EmptyString => EmptyString
  | String a t =>
      match t with
      | String b (String c rest) =>
          if lone_surrogate a b c then replacement +++ toWellFormed rest
          else String a (toWellFormed t)
      | _ => String a (toWellFormed t)
      end
  end.

(** [s.isWellFormed()] *)
Fixpoint isWellFormed (s : string) : bool :=
  match s with
  | EmptyString => true
  | String a t =>
      match t with
      | String b (String c _) => negb (lone_surrogate a b c) && isWellFormed t
      | _ => isWellFormed t
      end
  end.

(** The code unit [u] of [D800..DFFF] as a string of its own. *)
Definition surrogate_unit (u : N) : string :=
  String (ascii_of_N 237)
    (String (ascii_of_N (128 + (u / 64) mod 64))
       (String (ascii_of_N (128 + u mod 64)) ""))%N.

(** The code units of [s] in order, each as the string [s[i]]: a code
    point of up to three bytes is one unit, a code point of four bytes
    is a high and a low surrogate. *)
Fixpoint code_units (s : string) : list string :=
  match s with
  | EmptyString => []
  | String a t =>
      let single := chr a :: code_units t in
      if (code a <? 192)%N then single
      else
        match t with
        | String b t2 =>
            if (code a <? 224)%N then String a (chr b) :: code_units t2
            else
              match t2 with
              | String c t3 =>
                  if (code a <? 240)%N
                  then String a (String b (chr c)) :: code_units t3
                  else
                    match t3 with
                    | String d t4 =>
                        let point :=
                          ((code a mod 8) * 262144 + (code b mod 64) * 4096
                           + (code c mod 64) * 64 + code d mod 64)%N in
                        let v := (point - 65536)%N in
                        surrogate_unit (55296 + v / 1024)
                          :: surrogate_unit (56320 + v mod 1024)
                          :: code_units t4
                    | EmptyString => single
                    end
              | EmptyString => single
              end
        | EmptyString => single
        end
  end.

(** Decimal rendering of an integer, as [String(n)] gives it. *)
Definition Z_toString (z : Z) : string :=
  NilZero.string_of_int (Z.to_int z).

(** ** Numbers

    The program never computes with numbers: it parses them from text,
    tests them for truthiness and prints them. Those primitives of the
    platform are an interface; the rest of the development is generic in
    it. *)

Class JsNumber : Type := {
  number : Type;
  (** the literal [0] *)
  num_zero : number;
  (** [Boolean(n)]: false exactly for [0], [-0] and [NaN] *)
  num_truthy : number -> bool;
  (** [isNaN(n)] *)
  num_isNaN : number -> bool;
  (** [String(n)] *)
  num_toString : number -> string;
  (** [parseFloat(s)] on a string *)
  str_parseFloat : string -> number;
  (** [parseInt(s, 10)] on a string *)
  str_parseInt : string -> number;
  num_zero_falsy : num_truthy num_zero = false;
  num_zero_toString : num_toString num_zero = "0"
}.

(** ** Values *)

#[warnings="-register-all"]
Inductive Value (number : Type) : Type :=
| VUndefined
| VNull
| VBool (b : bool)
| VNum (n : number)
| VStr (s : string)
| VArr (items : list (Value number))
| VObj (props : list (string * Value number)).

Arguments VUndefined {number}.
Arguments VNull {number}.
Arguments VBool {number} b.
Arguments VNum {number} n.
Arguments VStr {number} s.
Arguments VArr {number} items.
Arguments VObj {number} props.

(** The values over the numbers of the interface in scope. *)
Abbreviation JsVal := (Value number).

Section Values.
Context {Num : JsNumber}.

(** A plain object: its own enumerable properties in the order the
    platform keeps and enumerates them, array indices first and
    ascending, then the names in the order they were created. Its
    prototype is [Object.prototype]. *)
Definition JsObj : Type := list (string * JsVal).

(** [Boolean(v)], the test behind [if (v)], [v || d] and [v && w]. *)
Definition truthy (v : JsVal) : bool :=
  match v with
  | VUndefined | VNull => false
  | VBool b => b
  | VNum n => num_truthy n
  | VStr s => negb (String.eqb s "")
  | VArr _ | VObj _ => true
  end.

(** [v || d] *)
Definition or_else (v d : JsVal) : JsVal := if truthy v then v else d.

(** [typeof v === 'string'] *)
Definition is_string (v : JsVal) : bool :=
  match v with VStr _ => true | _ => false end.

(** [v && typeof v === 'object' && !Array.isArray(v)] *)
Definition is_plain_object (v : JsVal) : bool :=
  match v with VObj _ => true | _ => false end.

(** [v === s] against a string literal. *)
Definition eq_str (v : JsVal) (s : string) : bool :=
  match v with VStr t => String.eqb t s | _ => false end.

(** [String(v)], also what a template literal does to [v]. An array
    joins its elements with a comma, [null] and [undefined] elements
    giving the empty string. *)
Fixpoint toString (v : JsVal) : string :=
  match v with
  | VUndefined => "undefined"
  | VNull => "null"
  | VBool true => "true"
  | VBool false => "false"
  | VNum n => num_toString n
  | VStr s => s
  | VArr items =>
      join ","
        ((fix each (l : list JsVal) : list string :=
            match l with
            | [] => []
            | x :: rest =>
                match x with
                | VUndefined | VNull => ""
                | _ => toString x
                end :: each rest
            end) items)
  | VObj _ => "[object Object]"
  end.

(** The string an element contributes to [Array.prototype.join]. *)
Definition join_item (v : JsVal) : string :=
  match v with
  | VUndefined | VNull => ""
  | _ => toString v
  end.

(** [obj[key]] *)
Fixpoint get (obj : JsObj) (key : string) : JsVal :=
  match obj with
  | [] => VUndefined
  | (k, v) :: rest => if String.eqb k key then v else get rest key
  end.

(** [obj[key] = value] and [{ ..., key: value }] for a [key] that is a
    name written in the program: an existing property keeps its place,
    a new one goes last. *)
Fixpoint set (obj : JsObj) (key : string) (value : JsVal) : JsObj :=
  match obj with
  | [] => [(key, value)]
  | (k, v) :: rest =>
      if String.eqb k key then (k, value) :: rest
      else (k, v) :: set rest key value
  end.

(** [Object.keys(obj)] *)
Definition keys (obj : JsObj) : list string := map fst obj.

(** [Object.hasOwn(obj, key)] *)
Definition has_own (obj : JsObj) (key : string) : bool :=
  existsb (fun k => String.eqb k key) (keys obj).

(** An array index: the decimal text of an integer from 0 to 2^32 - 2,
    written the way [String] writes it. The properties so named come
    first in the order of an object's properties, by ascending value;
    the others follow in the order they were created. *)
Fixpoint digits_value (s : string) (acc : N) : option N :=
  match s with
  | EmptyString => Some acc
  | String c rest =>
      if ((48 <=? code c) && (code c <=? 57))%N
      then digits_value rest (10 * acc + (code c - 48))%N
      else None
  end.

Definition array_index (key : string) : option N :=
  match digits_value key 0 with
  | Some n =>
      if (n <? 4294967295)%N && String.eqb (Z_toString (Z.of_N n)) key
      then Some n else None
  | None => None
  end.

(** [key] comes before [key'] in the order of properties, whenever
    each was created. *)
Definition key_before (key key' : string) : bool :=
  match array_index key, array_index key' with
  | Some n, Some m => (n <? m)%N
  | Some _, None => true
  | None, Some _ => false
  | None, None => true
  end.

(** A new property of [obj] named by the array index [n]. *)
Fixpoint add_index (n : N) (key : string) (value : JsVal) (obj : JsObj) : JsObj :=
  match obj with
  | [] => [(key, value)]
  | (k, v) :: rest =>
      match array_index k with
      | Some m =>
          if (m <? n)%N then (k, v) :: add_index n key value rest
          else (key, value) :: obj
      | None => (key, value) :: obj
      end
  end.

(** A property [key] that [obj] does not have yet is created. *)
Definition add_property (obj : JsObj) (key : string) (value : JsVal) : JsObj :=
  match array_index key with
  | Some n => add_index n key value obj
  | None => obj ++ [(key, value)]
  end.

(** What a plain object inherits from [Object.prototype], each with the
    text [String] gives of it on Node: the constructor [Object], the
    built-in methods, and the accessor [__proto__], which reads as
    [Object.prototype] itself. *)
Definition object_prototype_methods : list string :=
  ["__defineGetter__"; "__defineSetter__"; "hasOwnProperty";
   "__lookupGetter__"; "__lookupSetter__"; "isPrototypeOf";
   "propertyIsEnumerable"; "toString"; "valueOf"; "toLocaleString"].

Definition inherited_text (key : string) : option string :=
  if String.eqb key "constructor"
  then Some "function Object() { [native code] }"
  else if String.eqb key "__proto__" then Some "[object Object]"
  else if existsb (String.eqb key) object_prototype_methods
  then Some ("function " +++ key +++ "() { [native code] }")
  else None.

(** [{ ...a, ...b }] *)
Definition spread (a b : JsObj) : JsObj :=
  fold_left (fun acc kv => set acc (fst kv) (snd kv)) b a.

End Values.

(** ** Integer-valued numbers

    An instance of the number interface with the integers and [NaN] as
    its carrier. It agrees with the platform on text that holds an
    integer, which is all the worked examples below need; text with a
    fraction or an exponent is outside of it. *)

Inductive IntNum : Type := INaN | IInt (z : Z).

Definition digit_of (c : ascii) : option Z :=
  let n := Z.of_nat (nat_of_ascii c) in
  if (48 <=? n) && (n <=? 57) then Some (n - 48) else None.

(** Value of the longest prefix of decimal digits, [None] without one. *)
Fixpoint leading_digits (s : string) (acc : option Z) : option Z :=
  match s with
  | EmptyString => acc
  | String c rest =>
      match digit_of c with
      | Some d =>
          leading_digits rest
            (Some (10 * match acc with Some a => a | None => 0 end + d))
      | None => acc
      end
  end.

Definition parse_integer (s : string) : IntNum :=
  let body := trimStart s in
  let signed (neg : bool) (digits : string) :=
    match leading_digits digits None with
    | Some z => IInt (if neg then - z else z)
    | None => INaN
    end in
  match body with
  | String "-" rest => signed true rest
  | String "+" rest => signed false rest
  | _ => signed false body
  end.

#[export] Instance IntegerNumbers : JsNumber := {|
  number := IntNum;
  num_zero := IInt 0;
  num_truthy := fun n =>
    match n with INaN => false | IInt z => negb (z =? 0) end;
  num_isNaN := fun n => match n with INaN => true | IInt _ => false end;
  num_toString := fun n =>
    match n with INaN => "NaN" | IInt z => Z_toString z end;
  str_parseFloat := parse_integer;
  str_parseInt := parse_integer;
  num_zero_falsy := eq_refl;
  num_zero_toString := eq_refl
|}.

End JS.

(* ===================================================================== *)
(** * SHA-256 (FIPS 180-4), the digest of [createHash('sha256')] *)
(* ===================================================================== *)

Module Sha256.

(** 32-bit words are integers in [0, 2^32) with the wrap-around
    written out. *)
Definition wrap (x : Z) : Z := x mod 2 ^ 32.
Definition add32 (x y : Z) : Z := wrap (x + y).
Definition not32 (x : Z) : Z := Z.lxor x (2 ^ 32 - 1).
Definition rotr (n x : Z) : Z :=
  Z.lor (Z.shiftr x n) (wrap (Z.shiftl x (32 - n))).

Definition Ch (x y z : Z) : Z := Z.lxor (Z.land x y) (Z.land (not32 x) z).
Definition Maj (x y z : Z) : Z :=
  Z.lxor (Z.lxor (Z.land x y) (Z.land x z)) (Z.land y z).
Definition bsig0 (x : Z) : Z := Z.lxor (Z.lxor (rotr 2 x) (rotr 13 x)) (rotr 22 x).
Definition bsig1 (x : Z) : Z := Z.lxor (Z.lxor (rotr 6 x) (rotr 11 x)) (rotr 25 x).
Definition ssig0 (x : Z) : Z := Z.lxor (Z.lxor (rotr 7 x) (rotr 18 x)) (Z.shiftr x 3).
Definition ssig1 (x : Z) : Z := Z.lxor (Z.lxor (rotr 17 x) (rotr 19 x)) (Z.shiftr x 10).

(** The round constants and the initial hash value are the leading 32
    fraction bits of the cube roots, respectively square roots, of the
    first primes; they are computed from that definition. *)
Definition is_prime (n : Z) : bool :=
  forallb (fun d => negb (n mod d =? 0) || (n <=? d))
          (map Z.of_nat (seq 2 (Z.to_nat (Z.sqrt n)))).

Definition primes_below (bound : nat) : list Z :=
  filter is_prime (map Z.of_nat (seq 2 bound)).

Fixpoint cube_root_bits (bits : nat) (n r : Z) : Z :=
  match bits with
  | O => r
  | S b =>
      let c := r + 2 ^ Z.of_nat b in
      cube_root_bits b n (if c * c * c <=? n then c else r)
  end.

Definition cube_root (n : Z) : Z := cube_root_bits 40 n 0.

Definition K : list Z :=
  Eval vm_compute in
    map (fun p => wrap (cube_root (p * 2 ^ 96))) (firstn 64 (primes_below 320)).

Definition H0 : list Z :=
  Eval vm_compute in
    map (fun p => wrap (Z.sqrt (p * 2 ^ 64))) (firstn 8 (primes_below 20)).

(** Padding: a 1 bit, zeros up to 56 modulo 64 bytes, then the length
    in bits as a big-endian 64-bit integer. *)
Definition be_bytes (count : nat) (x : Z) : list Z :=
  map (fun i => Z.shiftr x (8 * Z.of_nat i) mod 256) (rev (seq 0 count)).

Definition pad (msg : list Z) : list Z :=
  let len := Z.of_nat (length msg) in
  let zeros := Z.to_nat ((55 - len) mod 64) in
  msg ++ [128] ++ repeat 0 zeros ++ be_bytes 8 (8 * len).

Definition be_word (bs : list Z) : Z :=
  fold_left (fun acc b => acc * 256 + b) bs 0.

Fixpoint chunks {A} (size count : nat) (l : list A) : list (list A) :=
  match count with
  | O => []
  | S c => firstn size l :: chunks size c (skipn size l)
  end.

(** The message schedule, latest word first while it is built. *)
Fixpoint schedule (steps : nat) (recent : list Z) : list Z :=
  match steps with
  | O => rev recent
  | S n =>
      let at_ i := nth i recent 0 in
      let next :=
        add32 (add32 (ssig1 (at_ 1%nat)) (at_ 6%nat))
              (add32 (ssig0 (at_ 14%nat)) (at_ 15%nat)) in
      schedule n (next :: recent)
  end.

Record regs : Type := Regs { ra : Z; rb : Z; rc : Z; rd : Z;
                             re : Z; rf : Z; rg : Z; rh : Z }.

Definition round (s : regs) (kw : Z * Z) : regs :=
  let t1 := add32 (add32 (add32 (rh s) (bsig1 (re s)))
                         (add32 (Ch (re s) (rf s) (rg s)) (fst kw)))
                  (snd kw) in
  let t2 := add32 (bsig0 (ra s)) (Maj (ra s) (rb s) (rc s)) in
  Regs (add32 t1 t2) (ra s) (rb s) (rc s) (add32 (rd s) t1)
       (re s) (rf s) (rg s).

Definition regs_of (h : list Z) : regs :=
  let at_ i := nth i h 0 in
  Regs (at_ 0%nat) (at_ 1%nat) (at_ 2%nat) (at_ 3%nat)
       (at_ 4%nat) (at_ 5%nat) (at_ 6%nat) (at_ 7%nat).

Definition words_of (s : regs) : list Z :=
  [ra s; rb s; rc s; rd s; re s; rf s; rg s; rh s].

Definition compress (h : list Z) (block : list Z) : list Z :=
  let w := schedule 48 (rev (map be_word (chunks 4 16 block))) in
  let s := fold_left round (combine K w) (regs_of h) in
  map (fun p => add32 (fst p) (snd p)) (combine h (words_of s)).

Definition digest (msg : list Z) : list Z :=
  let padded := pad msg in
  fold_left compress (chunks 64 (length padded / 64) padded) H0.

Definition hex_digit (n : Z) : ascii :=
  ascii_of_nat (Z.to_nat (if n <? 10 then 48 + n else 87 + n)).

Definition hex_word (x : Z) : string :=
  string_of_list_ascii
    (map (fun i => hex_digit (Z.shiftr x (4 * Z.of_nat i) mod 16))
         (rev (seq 0 8))).

(** The digest of a sequence of bytes, in hexadecimal. *)
Definition sha256_bytes (message : string) : string :=
  String.concat ""
    (map hex_word
       (digest (map (fun c => Z.of_nat (nat_of_ascii c))
                    (list_ascii_of_string message)))).

(** [createHash('sha256').update(s).digest('hex')]: [update] takes the
    string as UTF-8, in which a lone surrogate is U+FFFD. *)
Definition sha256_hex (s : string) : string :=
  sha256_bytes (JS.toWellFormed s).

End Sha256.

(* ===================================================================== *)
(** * application/x-www-form-urlencoded, as [URLSearchParams] does it *)
(* ===================================================================== *)

Module URLSearchParams.
Import JS.

(** Bytes left as they are: ASCII letters and digits and [* - . _]. *)
Definition unreserved (c : ascii) : bool :=
  let n := nat_of_ascii c in
  ((48 <=? n) && (n <=? 57) || (65 <=? n) && (n <=? 90)
   || (97 <=? n) && (n <=? 122)
   || (n =? 42) || (n =? 45) || (n =? 46) || (n =? 95))%nat.

Definition upper_hex (n : nat) : ascii :=
  ascii_of_nat (if (n <? 10)%nat then 48 + n else 55 + n).

Definition percent (c : ascii) : string :=
  let n := nat_of_ascii c in
  String "%" (String (upper_hex (n / 16)) (String (upper_hex (n mod 16)) "")).

Fixpoint encode (s : string) : string :=
  match s with
  | EmptyString => EmptyString
  | String c rest =>
      (if unreserved c then chr c
       else if Ascii.eqb c " " then "+"
       else percent c) +++ encode rest
  end.

(** [params.append(name, value)]: both arguments are converted to
    [USVString], which replaces every lone surrogate. *)
Definition append (pairs : list (string * string)) (name value : string)
  : list (string * string) :=
  pairs ++ [(toWellFormed name, toWellFormed value)].

(** [params.toString()] for the pairs appended so far, which [append]
    has made well formed. *)
Definition serialize (pairs : list (string * string)) : string :=
  join "&" (map (fun kv => encode (fst kv) +++ "=" +++ encode (snd kv)) pairs).

Definition hex_value (c : ascii) : option nat :=
  let n := nat_of_ascii c in
  if ((48 <=? n) && (n <=? 57))%nat then Some (n - 48)%nat
  else if ((65 <=? n) && (n <=? 70))%nat then Some (n - 55)%nat
  else if ((97 <=? n) && (n <=? 102))%nat then Some (n - 87)%nat
  else None.

(** Percent-decoding: [%] followed by two hexadecimal digits is one
    byte, anything else stands for itself. *)
Fixpoint percent_decode (s : string) : string :=
  match s with
  | EmptyString => EmptyString
  | String c rest =>
      let literal := String c (percent_decode rest) in
      if Ascii.eqb c "%" then
        match rest with
        | String h (String l rest') =>
            match hex_value h, hex_value l with
            | Some a, Some b =>
                String (ascii_of_nat (16 * a + b)) (percent_decode rest')
            | _, _ => literal
            end
        | _ => literal
        end
      else literal
  end.

(** Split at every occurrence of [sep]. *)
Fixpoint split (sep : ascii) (s : string) : list string :=
  match s with
  | EmptyString => [EmptyString]
  | String c rest =>
      if Ascii.eqb c sep then EmptyString :: split sep rest
      else match split sep rest with
           | [] => [chr c]
           | first :: more => String c first :: more
           end
  end.

(** Split at the first occurrence of [sep], when there is one. *)
Fixpoint cut (sep : ascii) (s : string) : option (string * string) :=
  match s with
  | EmptyString => None
  | String c rest =>
      if Ascii.eqb c sep then Some (EmptyString, rest)
      else match cut sep rest with
           | Some (name, value) => Some (String c name, value)
           | None => None
           end
  end.

Definition decode_component (s : string) : string :=
  percent_decode (replaceAll "+" " " s).

(** [new URLSearchParams(query)], as the list of its pairs: empty
    sequences between [&] are skipped, a sequence without [=] is a name
    with an empty value. The decoded bytes are kept as they are: what
    [serialize] writes decodes to UTF-8 text. *)
Definition parse (query : string) : list (string * string) :=
  flat_map
    (fun piece =>
       if String.eqb piece "" then []
       else match cut "=" piece with
            | Some (name, value) =>
                [(decode_component name, decode_component value)]
            | None => [(decode_component piece, EmptyString)]
            end)
    (split "&" query).

(** The query of a URL: what follows its first [?], the fragment that
    starts at the first [#] left aside. *)
Definition before (sep : ascii) (s : string) : string :=
  match cut sep s with
  | Some (head, _) => head
  | None => s
  end.

Definition query_of (url : string) : string :=
  match cut "?" (before "#" url) with
  | Some (_, query) => query
  | None => EmptyString
  end.

End URLSearchParams.

(* ===================================================================== *)
(** * src/utils/errors.ts *)
(* ===================================================================== *)

Module Errors.
Import JS.

(** The [GovDataError] hierarchy as one tagged type; each constructor
    carries the fields of its class. *)
Inductive GovDataError : Type :=
| FPDSRequestError (message : string) (statusCode : Z)
| ValidationError (parameter value : string) (suggestions : list string)
| NetworkError (message : string) (originalError : option string)
| ParseError (message : string).

Definition code (e : GovDataError) : string :=
  match e with
  | FPDSRequestError _ _ => "FPDS_REQUEST_ERROR"
  | ValidationError _ _ _ => "VALIDATION_ERROR"
  | NetworkError _ _ => "NETWORK_ERROR"
  | ParseError _ => "PARSE_ERROR"
  end.

Definition message (e : GovDataError) : string :=
  match e with
  | FPDSRequestError m _ | NetworkError m _ | ParseError m => m
  | ValidationError parameter value _ =>
      "Invalid value for " +++ parameter +++ ": " +++ value
  end.

(** What a call hands back: a value, or the error it throws (for an
    async function: the value its promise fulfils with, or the reason it
    rejects with). *)
Inductive Outcome (E A : Type) : Type :=
| Ok (value : A)
| Throw (error : E).
Arguments Ok {E A} value.
Arguments Throw {E A} error.

Definition bind {E A B} (m : Outcome E A) (k : A -> Outcome E B) : Outcome E B :=
  match m with
  | Ok a => k a
  | Throw e => Throw e
  end.

(** [try { m } catch (e) { handler(e) }] *)
Definition try_catch {E F A} (m : Outcome E A) (handler : E -> Outcome F A)
  : Outcome F A :=
  match m with
  | Ok a => Ok a
  | Throw e => handler e
  end.

Definition is_ok {E A} (m : Outcome E A) : bool :=
  match m with Ok _ => true | Throw _ => false end.

(** What the functions that walk parsed data can throw: an error of the
    library, or the [TypeError] of the platform for calling what is no
    function. The message of the latter is the engine's and is left
    out. *)
Inductive Failure : Type :=
| Library (error : GovDataError)
| TypeError.

Definition library {A} (m : Outcome GovDataError A) : Outcome Failure A :=
  try_catch m (fun error => Throw (Library error)).

(** [xs.map(f)] for an [f] that can throw: the first failure ends it. *)
Fixpoint each {E A B} (f : A -> Outcome E B) (xs : list A) : Outcome E (list B) :=
  match xs with
  | [] => Ok []
  | x :: rest =>
      match f x with
      | Ok y =>
          match each f rest with
          | Ok ys => Ok (y :: ys)
          | Throw e => Throw e
          end
      | Throw e => Throw e
      end
  end.

End Errors.

Notation "'let*' x ':=' m 'in' k" := (Errors.bind m (fun x => k))
  (at level 10, x name, m at level 100, k at level 200).
Notation "'do*' m 'in' k" := (Errors.bind m (fun _ => k))
  (at level 10, m at level 100, k at level 200).

(* ===================================================================== *)
(** * src/utils/validators.ts *)
(* ===================================================================== *)

Module Validators.
Import JS Errors.

(** ** Regular expressions

    The patterns of this file are anchored and never need to backtrack,
    so each is a matcher that consumes a prefix and hands back the
    rest. *)
Definition Matcher : Type := string -> option string.

Definition char_class (p : ascii -> bool) : Matcher :=
  fun s =>
    match s with
    | String c rest => if p c then Some rest else None
    | EmptyString => None
    end.

Definition is_digit (c : ascii) : bool :=
  let n := nat_of_ascii c in ((48 <=? n) && (n <=? 57))%nat.
Definition is_upper (c : ascii) : bool :=
  let n := nat_of_ascii c in ((65 <=? n) && (n <=? 90))%nat.

(** [\d], [[A-Z]], a literal character, [\s*] *)
Definition digit : Matcher := char_class is_digit.
Definition upper : Matcher := char_class is_upper.
Definition lit (c : ascii) : Matcher := char_class (Ascii.eqb c).
Definition spaces : Matcher := fun s => Some (trimStart s).

Definition seq_ (m1 m2 : Matcher) : Matcher :=
  fun s => match m1 s with Some rest => m2 rest | None => None end.

(** [m{n}] *)
Fixpoint times (n : nat) (m : Matcher) : Matcher :=
  match n with
  | O => Some
  | S k => seq_ m (times k m)
  end.

(** [(m)?] before the end of the input. *)
Definition opt (m : Matcher) : Matcher :=
  fun s => match m s with Some rest => Some rest | None => Some s end.

(** [/^m$/.test(s)] *)
Definition test (m : Matcher) (s : string) : bool :=
  match m s with
  | Some EmptyString => true
  | _ => false
  end.

Definition date : Matcher :=
  seq_ (times 4 digit) (seq_ (lit "/") (seq_ (times 2 digit)
    (seq_ (lit "/") (times 2 digit)))).

Definition dateRangePattern : Matcher :=
  seq_ (lit "[") (seq_ date (seq_ spaces (seq_ (lit ",")
    (seq_ spaces (seq_ date (lit "]")))))).

Definition validateDateRange (dateRange : string) : bool :=
  test dateRangePattern dateRange.

Definition validatePIID (piid : string) : bool :=
  negb (String.eqb piid "") && (0 <? String.length (trim piid))%nat.

Definition validateNAICSCode (naics : string) : bool :=
  test (times 6 digit) naics.

Definition validatePSCCode (psc : string) : bool :=
  test (seq_ upper (times 3 digit)) psc.

Definition validateAgencyCode (agencyCode : string) : bool :=
  test (times 4 digit) agencyCode.

Definition validateStateCode (stateCode : string) : bool :=
  test (times 2 upper) stateCode.

Definition validateZipCode (zipCode : string) : bool :=
  test (seq_ (times 5 digit) (opt (seq_ (lit "-") (times 4 digit)))) zipCode.

Definition sanitizeSearchTerm (term : string) : string :=
  replaceAll ">" "" (replaceAll "<" "" (trim term)).

Section WithNumbers.
Context {Num : JsNumber}.

Definition parseFloatSafe (value : JsVal) : number :=
  if negb (truthy value) then num_zero
  else
    let parsed := str_parseFloat (toString value) in
    if num_isNaN parsed then num_zero else parsed.

Definition parseIntSafe (value : JsVal) : number :=
  if negb (truthy value) then num_zero
  else
    let parsed := str_parseInt (toString value) in
    if num_isNaN parsed then num_zero else parsed.

Definition convertBooleanToString (value : JsVal) : string :=
  match value with
  | VBool b => if b then "Yes" else "No"
  | _ => if eq_str value "true" then "Yes" else "No"
  end.

(** One [case] group of the [switch]: a string value that fails its
    validator throws, any other value passes. *)
Definition check (validate : string -> bool) (key : string) (value : JsVal)
    (suggestions : list string) : Outcome GovDataError unit :=
  match value with
  | VStr s =>
      if negb (validate s) then Throw (ValidationError key s suggestions)
      else Ok tt
  | _ => Ok tt
  end.

Definition one_of (key : string) (labels : list string) : bool :=
  existsb (String.eqb key) labels.

Definition validateParam (key : string) (value : JsVal)
  : Outcome GovDataError unit :=
  match value with
  | VUndefined | VNull => Ok tt
  | _ =>
      if one_of key ["LAST_MOD_DATE"] then
        check validateDateRange key value
          ["Use format: [YYYY/MM/DD, YYYY/MM/DD]";
           "Example: [2022/01/01, 2024/12/31]"]
      else if one_of key ["PIID"; "REF_IDV_PIID"] then
        check validatePIID key value
          ["Contract ID cannot be empty";
           "Remove any leading/trailing whitespace"]
      else if one_of key ["PRINCIPAL_NAICS_CODE"; "NAICS_CODE"] then
        check validateNAICSCode key value
          ["NAICS code must be exactly 6 digits"; "Example: 541511"]
      else if one_of key ["PRODUCT_OR_SERVICE_CODE"; "PSC_CODE"] then
        check validatePSCCode key value
          ["PSC code must be 1 letter followed by 3 digits"; "Example: R425"]
      else if one_of key ["AGENCY_CODE"; "CONTRACTING_AGENCY_ID";
                          "FUNDING_AGENCY_ID"] then
        check validateAgencyCode key value
          ["Agency code must be exactly 4 digits"; "Example: 9700"]
      else Ok tt
  end.

(** The loop over [Object.entries(params)]; the first offending entry
    throws. *)
Fixpoint validateSearchParams (params : JsObj) : Outcome GovDataError unit :=
  match params with
  | [] => Ok tt
  | (key, value) :: rest =>
      do* validateParam key value in
      validateSearchParams rest
  end.

(** [value !== undefined && value !== null && value !== ''] *)
Definition present (value : JsVal) : bool :=
  match value with
  | VUndefined | VNull => false
  | _ => negb (eq_str value "")
  end.

(** [queryParams.append(key, String(value))] for each present entry,
    then [queryParams.toString()]. *)
Definition buildQueryString (params : JsObj) : string :=
  URLSearchParams.serialize
    (fold_left
       (fun queryParams kv =>
          if present (snd kv)
          then URLSearchParams.append queryParams (fst kv) (toString (snd kv))
          else queryParams)
       params []).

End WithNumbers.

End Validators.

(* ===================================================================== *)
(** * src/utils/semaphore.ts *)
(* ===================================================================== *)

Module Semaphore.

(** A queued [resolve] callback is identified with the task that waits
    on it. *)
Definition Task : Type := nat.

Record Semaphore : Type := mkSemaphore {
  permits : Z;
  queue : list Task
}.

(** [new Semaphore(permits)] *)
Definition create (n : Z) : Semaphore := mkSemaphore n [].

(** [acquire()] called by task [t]: the new state, and [t] when its
    promise is resolved at once. The executor of the promise runs
    synchronously, so the whole body is one step. *)
Definition acquire (t : Task) (s : Semaphore) : Semaphore * option Task :=
  if 0 <? permits s
  then (mkSemaphore (permits s - 1) (queue s), Some t)
  else (mkSemaphore (permits s) (queue s ++ [t]), None).

(** [release()]: the new state, and the waiter it resolved, if any. *)
Definition release (s : Semaphore) : Semaphore * option Task :=
  let permits' := permits s + 1 in
  match queue s with
  | resolve :: rest => (mkSemaphore (permits' - 1) rest, Some resolve)
  | [] => (mkSemaphore permits' [], None)
  end.

Definition available (s : Semaphore) : Z := permits s.
Definition waiting (s : Semaphore) : nat := length (queue s).

(** ** Tasks around a semaphore

    [holders] lists the tasks whose [acquire()] has been resolved and
    that have not released yet, one entry per permit held. *)
Record System : Type := mkSystem {
  sem : Semaphore;
  holders : list Task
}.

Inductive Event : Type :=
| Acquire (t : Task)
| Release (t : Task).

Fixpoint remove_one (t : Task) (l : list Task) : list Task :=
  match l with
  | [] => []
  | x :: rest => if Nat.eqb x t then rest else x :: remove_one t rest
  end.

Definition admitted (woken : option Task) : list Task :=
  match woken with Some t => [t] | None => [] end.

Definition do_acquire (t : Task) (sys : System) : System :=
  let (s', woken) := acquire t (sem sys) in
  mkSystem s' (holders sys ++ admitted woken).

Definition do_release (t : Task) (sys : System) : System :=
  let (s', woken) := release (sem sys) in
  mkSystem s' (remove_one t (holders sys) ++ admitted woken).

(** Any task may call [acquire()] at any time; [release()] is called by
    a task that holds a permit (releases balance acquires). *)
Inductive step : System -> Event -> System -> Prop :=
| step_acquire t sys : step sys (Acquire t) (do_acquire t sys)
| step_release t sys :
    In t (holders sys) -> step sys (Release t) (do_release t sys).

Inductive reachable (n : Z) : System -> Prop :=
| reach_init : reachable n (mkSystem (create n) [])
| reach_step sys ev sys' :
    reachable n sys -> step sys ev sys' -> reachable n sys'.

(** Running a list of events, [None] when a release is unbalanced. *)
Fixpoint run (evs : list Event) (sys : System) : option System :=
  match evs with
  | [] => Some sys
  | Acquire t :: rest => run rest (do_acquire t sys)
  | Release t :: rest =>
      if existsb (Nat.eqb t) (holders sys)
      then run rest (do_release t sys)
      else None
  end.

End Semaphore.

(* ===================================================================== *)
(** * src/utils/xml-processor.ts *)
(* ===================================================================== *)

Module XMLProcessor.
Import JS Errors.

Section WithParser.
Context {Num : JsNumber}.

(** [this.parser.parse], the parser of fast-xml-parser: the tree it
    builds, or the text of what it throws. *)
Variable xml_parse : string -> Outcome string JsVal.

Definition parseXML (xmlData : string) : Outcome GovDataError JsVal :=
  if negb (truthy (VStr xmlData)) || (String.length (trim xmlData) =? 0)%nat
  then Throw (ParseError "XML data is empty or null")
  else
    try_catch (xml_parse xmlData)
      (fun error => Throw (ParseError ("Failed to parse XML: " +++ error))).

(** [v.key] and [v?.key] where [v] came out of the parser: only a plain
    object has the properties read here. *)
Definition prop (v : JsVal) (key : string) : JsVal :=
  match v with
  | VObj props => get props key
  | _ => VUndefined
  end.

Definition extractEntries (parsedData : JsVal) : list JsVal :=
  let feed := prop parsedData "feed" in
  if negb (truthy feed) then []
  else
    let entries := prop feed "entry" in
    if negb (truthy entries) then []
    else match entries with
         | VArr items => items
         | _ => [entries]
         end.

(** [prefix ? `${prefix}__${key}` : key] *)
Definition path_key (prefix key : string) : string :=
  if truthy (VStr prefix) then prefix +++ "__" +++ key else key.

(** The object [flattenXMLPaths] fills: its own properties and its
    prototype. It is created by [{}], so the prototype starts as
    [Object.prototype]; only an assignment to [__proto__] changes it. *)
Inductive Prototype : Type :=
| ObjectPrototype
| ArrayInstance (items : list JsVal)
| ObjectInstance (props : JsObj)
| NoPrototype.

Record Target : Type := mkTarget {
  own : JsObj;
  prototype : Prototype
}.

(** [{}] *)
Definition empty_object : Target := mkTarget [] ObjectPrototype.

(** Whether an assignment to [__proto__] finds the accessor of
    [Object.prototype] along the prototype chain. *)
Definition setter_reachable (p : Prototype) : bool :=
  match p with
  | ObjectPrototype | ArrayInstance _ => true
  | ObjectInstance props => negb (has_own props "__proto__")
  | NoPrototype => false
  end.

(** [result[newKey] = value]. A property the object has is overwritten
    where it is. Otherwise [__proto__] is the accessor the object
    inherits: its setter makes an object or [null] the new prototype
    and ignores any other value, and no property is created. Any other
    key is created, an array index among the indices. *)
Definition assign (result : Target) (newKey : string) (value : JsVal) : Target :=
  if has_own (own result) newKey
  then mkTarget (set (own result) newKey value) (prototype result)
  else if String.eqb newKey "__proto__" && setter_reachable (prototype result)
  then match value with
       | VNull => mkTarget (own result) NoPrototype
       | VArr items => mkTarget (own result) (ArrayInstance items)
       | VObj props => mkTarget (own result) (ObjectInstance props)
       | _ => result
       end
  else mkTarget (add_property (own result) newKey value) (prototype result).

(** The body of the loop of [flattenXMLPaths] for the property
    [newKey : value]: a plain object is walked with [newKey] as its
    prefix, anything else is stored under [newKey]. The walk of a plain
    object calls its [hasOwnProperty], which is no function when the
    object has a property of that name. *)
Fixpoint flatten_into (value : JsVal) (newKey : string) (result : Target)
  : Outcome Failure Target :=
  match value with
  | VObj props =>
      if has_own props "hasOwnProperty" then Throw TypeError
      else
        fold_left
          (fun walked kv =>
             let* result := walked in
             flatten_into (snd kv) (path_key newKey (fst kv)) result)
          props (Ok result)
  | _ => Ok (assign result newKey value)
  end.

(** The properties [for (const key in obj)] visits and [hasOwnProperty]
    lets through: those of a plain object, the indices of an array, the
    positions of a string; or the [TypeError] of the first call of
    [obj.hasOwnProperty] when [obj] has a property of that name, whose
    value is data, not a function. *)
Definition indexed (items : list JsVal) : JsObj :=
  combine (map (fun i => Z_toString (Z.of_nat i)) (seq 0 (length items))) items.

Definition own_properties (obj : JsVal) : Outcome Failure JsObj :=
  match obj with
  | VObj props =>
      if has_own props "hasOwnProperty" then Throw TypeError else Ok props
  | VArr items => Ok (indexed items)
  | VStr s => Ok (indexed (map VStr (code_units s)))
  | _ => Ok []
  end.

Definition flattenXMLPaths (obj : JsVal) (prefix : string) (result : Target)
  : Outcome Failure Target :=
  let* props := own_properties obj in
  fold_left
    (fun walked kv =>
       let* result := walked in
       flatten_into (snd kv) (path_key prefix (fst kv)) result)
    props (Ok result).

(** The flattened entries, each by its own properties: [mapRecord],
    which reads them, asks for names that no prototype has. *)
Definition processXMLResponse (xmlData : string)
  : Outcome Failure (list JsObj) :=
  let* parsedData := library (parseXML xmlData) in
  each (fun entry =>
          let* flattened := flattenXMLPaths entry "" empty_object in
          Ok (own flattened))
       (extractEntries parsedData).

End WithParser.

End XMLProcessor.

(* ===================================================================== *)
(** * src/core/fpds/field-mapper.ts *)
(* ===================================================================== *)

Module FieldMapper.
Import JS Validators.

Section WithNumbers.
Context {Num : JsNumber}.

Definition generateContractHash (contractNumber awardDate : string) : string :=
  let hashString := contractNumber +++ ":" +++ awardDate in
  Sha256.sha256_hex hashString.

(** [rawRecord[path] || ''] *)
Definition text (rawRecord : JsObj) (path : string) : JsVal :=
  or_else (get rawRecord path) (VStr "").

(** The record literal of [mapRecord], property by property. The two
    arguments of the hash go through the template literal of
    [generateContractHash], which takes their string form. *)
Definition mapRecord (rawRecord : JsObj) (sourceMetadata : JsVal) : JsObj :=
  [ ("contract_hash",
       VStr (generateContractHash
               (toString (text rawRecord "content__award__awardID__awardContractID__PIID"))
               (toString (text rawRecord "content__award__relevantContractDates__signedDate"))));
    ("contract_number",
       text rawRecord "content__award__awardID__awardContractID__PIID");
    ("title",
       text rawRecord "title");
    ("link",
       text rawRecord "link__href");
    ("award_date",
       text rawRecord "content__award__relevantContractDates__signedDate");
    ("award_amount",
       VNum (parseFloatSafe (get rawRecord "content__award__dollarValues__obligatedAmount")));
    ("total_potential_value",
       VNum (parseFloatSafe (get rawRecord "content__award__dollarValues__baseAndAllOptionsValue")));
    ("contract_type",
       text rawRecord "content__award__contractData__contractActionType__description");
    ("project_description",
       text rawRecord "content__award__contractData__descriptionOfContractRequirement");
    ("naics_code",
       text rawRecord "content__award__productOrServiceInformation__principalNAICSCode");
    ("naics_description",
       text rawRecord "content__award__productOrServiceInformation__principalNAICSCode__description");
    ("psc_code",
       text rawRecord "content__award__productOrServiceInformation__productOrServiceCode");
    ("psc_description",
       text rawRecord "content__award__productOrServiceInformation__productOrServiceCode__description");
    ("contracting_agency",
       text rawRecord "content__award__purchaserInformation__contractingOfficeAgencyID__name");
    ("contracting_office_code",
       text rawRecord "content__award__purchaserInformation__contractingOfficeID");
    ("contracting_office_name",
       text rawRecord "content__award__purchaserInformation__contractingOfficeID__name");
    ("vendor_name",
       text rawRecord "content__award__vendor__vendorHeader__vendorName");
    ("vendor_uei",
       text rawRecord "content__award__vendor__vendorSiteDetails__entityIdentifiers__vendorUEIInformation__UEI");
    ("business_size",
       text rawRecord "content__award__vendor__contractingOfficerBusinessSizeDetermination__description");
    ("vendor_city",
       text rawRecord "content__award__vendor__vendorSiteDetails__vendorLocation__city");
    ("vendor_state",
       text rawRecord "content__award__vendor__vendorSiteDetails__vendorLocation__state");
    ("sdvosb_status",
       VStr (convertBooleanToString (get rawRecord "content__award__vendor__vendorSiteDetails__vendorSocioEconomicIndicators__isServiceRelatedDisabledVeteranOwnedBusiness")));
    ("small_business_status",
       VStr (convertBooleanToString (get rawRecord "content__award__vendor__vendorSiteDetails__vendorSocioEconomicIndicators__isSmallBusiness")));
    ("women_owned_status",
       VStr (convertBooleanToString (get rawRecord "content__award__vendor__vendorSiteDetails__vendorSocioEconomicIndicators__isWomenOwned")));
    ("competition_extent",
       text rawRecord "content__award__competition__extentCompeted__description");
    ("set_aside_type",
       text rawRecord "content__award__competition__idvTypeOfSetAside__description");
    ("number_of_offers",
       VNum (parseIntSafe (get rawRecord "content__award__competition__numberOfOffersReceived")));
    ("solicitation_procedure",
       text rawRecord "content__award__competition__solicitationProcedures__description");
    ("start_date",
       text rawRecord "content__award__relevantContractDates__effectiveDate");
    ("end_date",
       text rawRecord "content__award__relevantContractDates__currentCompletionDate");
    ("performance_state",
       text rawRecord "content__award__placeOfPerformance__principalPlaceOfPerformance__stateCode");
    ("performance_city",
       text rawRecord "content__award__placeOfPerformance__placeOfPerformanceZIPCode__city");
    ("parent_contract_id",
       text rawRecord "content__award__awardID__referencedIDVID__PIID");
    ("parent_contract_type",
       text rawRecord "content__award__contractData__referencedIDVType__description");
    ("source_metadata", or_else sourceMetadata VUndefined) ].

Definition mapRecords (rawRecords : list JsObj) (sourceMetadata : JsVal)
  : list JsObj :=
  map (fun record => mapRecord record sourceMetadata) rawRecords.

End WithNumbers.

End FieldMapper.

(* ===================================================================== *)
(** * src/core/fpds/contract-processor.ts *)
(* ===================================================================== *)

Module ContractProcessor.
Import JS.

Definition newline : string := chr (ascii_of_nat 10).
Definition dquote : ascii := ascii_of_nat 34.

Section WithNumbers.
Context {Num : JsNumber}.

(** [x === 'true' ? 'Yes' : 'No'] *)
Definition yes_no (value : JsVal) : JsVal :=
  VStr (if eq_str value "true" then "Yes" else "No").

Definition processRecord (record : JsObj) : JsObj :=
  let processedRecord := spread [] record in
  let processedRecord :=
    set processedRecord "award_amount"
      (if truthy (get processedRecord "award_amount")
       then VNum (str_parseFloat (toString (get processedRecord "award_amount")))
       else VNum num_zero) in
  let processedRecord :=
    set processedRecord "total_potential_value"
      (if truthy (get processedRecord "total_potential_value")
       then VNum (str_parseFloat
                    (toString (get processedRecord "total_potential_value")))
       else VNum num_zero) in
  let processedRecord :=
    set processedRecord "number_of_offers"
      (if truthy (get processedRecord "number_of_offers")
       then VNum (str_parseInt (toString (get processedRecord "number_of_offers")))
       else VNum num_zero) in
  let processedRecord :=
    set processedRecord "sdvosb_status"
      (yes_no (get processedRecord "sdvosb_status")) in
  let processedRecord :=
    set processedRecord "small_business_status"
      (yes_no (get processedRecord "small_business_status")) in
  let processedRecord :=
    set processedRecord "women_owned_status"
      (yes_no (get processedRecord "women_owned_status")) in
  processedRecord.

Definition processRecordsForCSV (records : list JsObj) : list JsObj :=
  map processRecord records.

(** What one cell holds before [join] turns it into text. *)
Definition csv_cell (value : JsVal) : JsVal :=
  match value with
  | VStr v =>
      if includes v "," || includes v (chr dquote)
      then VStr (chr dquote +++ replaceAll dquote (chr dquote +++ chr dquote) v
                 +++ chr dquote)
      else value
  | _ => value
  end.

(** The text of one cell: [record[header]] is the record's own
    property or, when it has none of that name, what it inherits from
    [Object.prototype], which is no string and is printed by [join]. *)
Definition csv_field (record : JsObj) (header : string) : string :=
  if has_own record header then join_item (csv_cell (get record header))
  else match inherited_text header with
       | Some text => text
       | None => join_item (csv_cell VUndefined)
       end.

Definition csv_row (headers : list string) (record : JsObj) : string :=
  join "," (map (csv_field record) headers).

Definition convertToCSV (records : list JsObj) : string :=
  if (length records =? 0)%nat then ""
  else
    let processedRecords := processRecordsForCSV records in
    let headers := keys (nth 0 processedRecords []) in
    let csvHeaders := join "," headers in
    let csvRows := map (csv_row headers) processedRecords in
    join newline (csvHeaders :: csvRows).

End WithNumbers.

End ContractProcessor.

(* ===================================================================== *)
(** * src/core/fpds/request.ts: the transport *)
(* ===================================================================== *)

Module Transport.
Import JS Errors.

Record Config : Type := mkConfig {
  threadCount : Z;
  timeout : Z;
  retryAttempts : Z;
  retryDelay : Z;
  baseUrl : string;
  userAgent : string
}.

Definition DEFAULT_CONFIG : Config :=
  {| threadCount := 10;
     timeout := 30000;
     retryAttempts := 3;
     retryDelay := 1000;
     baseUrl := "https://api.sam.gov/prod/federalcontractopportunities/v1/search";
     userAgent := "govdata.js/1.0.0" |}.

(** What [fetch] and [response.text()] can reject with. *)
Inductive Rejection : Type :=
| AbortError
| OtherError (message : string)
| NotAnError (text : string).

(** One call of [fetch(url, ...)] followed by [response.text()]. *)
Inductive FetchOutcome : Type :=
| Responded (ok : bool) (status : Z) (statusText : string)
            (body : Outcome Rejection string)
| Rejected (reason : Rejection).

(** The [catch] block of [makeRequest] for anything that is not an
    [FPDSRequestError]. *)
Definition network_error (cfg : Config) (reason : Rejection) : GovDataError :=
  match reason with
  | AbortError =>
      NetworkError ("Request timeout after " +++ Z_toString (timeout cfg) +++ "ms")
                   None
  | OtherError errorMessage =>
      NetworkError ("Network request failed: " +++ errorMessage)
                   (Some errorMessage)
  | NotAnError errorMessage =>
      NetworkError ("Network request failed: " +++ errorMessage) None
  end.

Definition makeRequest (cfg : Config) (response : FetchOutcome)
  : Outcome GovDataError string :=
  match response with
  | Responded ok status statusText body =>
      if negb ok then
        Throw (FPDSRequestError
                 ("HTTP " +++ Z_toString status +++ ": " +++ statusText) status)
      else try_catch body (fun error => Throw (network_error cfg error))
  | Rejected error => Throw (network_error cfg error)
  end.

(** What [makeRequestWithRetry] does besides returning: the tries it
    makes and the timers it waits on, in order. *)
Inductive Effect : Type :=
| Try (attempt : Z)
| Sleep (ms : Z).

(** What leaves [makeRequestWithRetry] by [throw lastError!]:
    [lastError] as the last [catch] assigned it, or [undefined] when
    the loop body never ran. Every error [makeRequest] throws is an
    [Error] instance, so the assignment keeps it as it is. The code
    that runs after it can also throw the [TypeError] of the
    platform. *)
Inductive Thrown : Type :=
| Raised (error : GovDataError)
| Undefined
| RaisedTypeError.

Definition throw_last {A} (lastError : option GovDataError) : Outcome Thrown A :=
  match lastError with
  | Some error => Throw (Raised error)
  | None => Throw Undefined
  end.

Section Retry.
Variable cfg : Config.
(** The outcome of the call of [fetch] made by each attempt. *)
Variable responses : Z -> FetchOutcome.

(** The [for] loop, [fuel] bounding the number of iterations. *)
Fixpoint retry_loop (fuel : nat) (attempt : Z) (lastError : option GovDataError)
  : Outcome Thrown string * list Effect :=
  match fuel with
  | O => (throw_last lastError, [])
  | S fuel' =>
      if attempt <=? retryAttempts cfg then
        match makeRequest cfg (responses attempt) with
        | Ok text => (Ok text, [Try attempt])
        | Throw error =>
            if attempt =? retryAttempts cfg
            then (throw_last (Some error), [Try attempt])
            else
              let delay := retryDelay cfg * 2 ^ (attempt - 1) in
              let (result, effects) :=
                retry_loop fuel' (attempt + 1) (Some error) in
              (result, Try attempt :: Sleep delay :: effects)
        end
      else (throw_last lastError, [])
  end.

(** [retryAttempts] iterations are all the loop can make. *)
Definition makeRequestWithRetry : Outcome Thrown string * list Effect :=
  retry_loop (Z.to_nat (retryAttempts cfg)) 1 None.

End Retry.

Definition tries (effects : list Effect) : list Z :=
  flat_map (fun e => match e with Try a => [a] | Sleep _ => [] end) effects.

Definition sleeps (effects : list Effect) : list Z :=
  flat_map (fun e => match e with Sleep ms => [ms] | Try _ => [] end) effects.

End Transport.

(* ===================================================================== *)
(** * Promises: [Promise.all] and tasks that share a semaphore *)
(* ===================================================================== *)

Module Async.
Import Errors.

Section PromiseAll.
Context {E A : Type}.

(** A promise that settles with [Some outcome], or never ([None]). *)
Definition Promise : Type := option (Outcome E A).

(** The array [Promise.all] fills: one slot per promise, written when
    the promise fulfils. *)
Fixpoint filled (values : list (option A)) : option (list A) :=
  match values with
  | [] => Some []
  | Some v :: rest =>
      match filled rest with
      | Some vs => Some (v :: vs)
      | None => None
      end
  | None :: _ => None
  end.

(** [order] lists the promises in the order their reactions run. The
    result fulfils once every slot is written and rejects with the
    first rejection seen before that; a promise that never settles, or
    an index that names no promise, leaves the state as it is. *)
Fixpoint settle (promises : list Promise) (order : list nat)
    (values : list (option A)) : option (Outcome E (list A)) :=
  match filled values with
  | Some vs => Some (Ok vs)
  | None =>
      match order with
      | [] => None
      | i :: rest =>
          match promises !! i with
          | Some (Some (Ok v)) => settle promises rest (<[i := Some v]> values)
          | Some (Some (Throw e)) => Some (Throw e)
          | _ => settle promises rest values
          end
      end
  end.

(** [await Promise.all(promises)] *)
Definition promise_all (promises : list Promise) (order : list nat)
  : option (Outcome E (list A)) :=
  settle promises order (replicate (length promises) None).

End PromiseAll.

(** ** Tasks behind a semaphore

    Each task is [acquire(); try { work } finally { release() }]. All
    tasks are started in a row, each running up to its [acquire()];
    from then on the only events are running tasks finishing their
    work, in whatever order the network decides. *)
Record Pool : Type := mkPool {
  sys : Semaphore.System;
  finished : list Semaphore.Task
}.

Definition launch (s : Semaphore.Semaphore) (tasks : list Semaphore.Task) : Pool :=
  mkPool (fold_left (fun sy t => Semaphore.do_acquire t sy) tasks
                    (Semaphore.mkSystem s []))
         [].

(** Task [t] completes its work: it releases its permit and its
    promise settles. Nothing happens when [t] is not running. *)
Definition finish (p : Pool) (t : Semaphore.Task) : Pool :=
  if existsb (Nat.eqb t) (Semaphore.holders (sys p))
  then mkPool (Semaphore.do_release t (sys p)) (finished p ++ [t])
  else p.

Definition run (schedule : list Semaphore.Task) (p : Pool) : Pool :=
  fold_left finish schedule p.

(** The order in which [count] tasks started together settle under
    [schedule]. *)
Definition completion_order (s : Semaphore.Semaphore) (count : nat)
    (schedule : list Semaphore.Task) : list nat :=
  finished (run schedule (launch s (seq 0 count))).

End Async.

(* ===================================================================== *)
(** * src/core/fpds/request.ts: the orchestrator *)
(* ===================================================================== *)

Module Request.
Import JS Errors Validators Transport Async.

(** The optional [config] argument: the fields the caller supplied. *)
Record ConfigOptions : Type := mkOptions {
  opt_threadCount : option Z;
  opt_timeout : option Z;
  opt_retryAttempts : option Z;
  opt_retryDelay : option Z;
  opt_baseUrl : option string;
  opt_userAgent : option string
}.

Definition no_options : ConfigOptions :=
  mkOptions None None None None None None.

(** [{ ...DEFAULT_CONFIG, ...config }] *)
Definition with_defaults (config : ConfigOptions) : Config :=
  {| threadCount := default (threadCount DEFAULT_CONFIG) (opt_threadCount config);
     timeout := default (timeout DEFAULT_CONFIG) (opt_timeout config);
     retryAttempts := default (retryAttempts DEFAULT_CONFIG) (opt_retryAttempts config);
     retryDelay := default (retryDelay DEFAULT_CONFIG) (opt_retryDelay config);
     baseUrl := default (baseUrl DEFAULT_CONFIG) (opt_baseUrl config);
     userAgent := default (userAgent DEFAULT_CONFIG) (opt_userAgent config) |}.

Record PaginationInfo : Type := mkPagination {
  currentPage : Z;
  totalPages : Z;
  totalRecords : Z;
  recordsPerPage : Z
}.

Section WithWorld.
Context {Num : JsNumber}.

(** The world outside: the XML parser, and what the network answers to
    the [attempt]-th request for [url]. *)
Variable xml_parse : string -> Outcome string JsVal.
Variable fetch : string -> Z -> FetchOutcome.

Record ContractSearchRequest : Type := mkSearch {
  contracts : list string;
  dateRange : option string;
  metadata : option JsObj
}.

(** The fields of an [FPDSRequest] that control flow reads; its
    semaphore starts as [new Semaphore(config.threadCount)]. *)
Record FPDSRequest : Type := mkRequest {
  params : JsObj;
  config : Config
}.

(** The constructor: validation throws before anything is fetched. *)
Definition construct (searchParams : JsObj) (options : ConfigOptions)
  : Outcome GovDataError FPDSRequest :=
  do* validateSearchParams searchParams in
  Ok (mkRequest searchParams (with_defaults options)).

Definition buildSearchUrl (this : FPDSRequest) : string :=
  let queryString := buildQueryString (params this) in
  baseUrl (config this) +++ "?" +++ queryString.

Definition lift_failure {A} (m : Outcome Failure A) : Outcome Thrown A :=
  try_catch m (fun e => match e with
                        | Library error => Throw (Raised error)
                        | TypeError => Throw RaisedTypeError
                        end).

(** The [try] block of [fetchPage]. *)
Definition page_work (this : FPDSRequest) (pageNumber : Z)
  : Outcome Thrown (list JsObj) :=
  let pageParams :=
    set (spread [] (params this)) "page" (VStr (Z_toString pageNumber)) in
  let queryString := buildQueryString pageParams in
  let url := baseUrl (config this) +++ "?" +++ queryString in
  let* xmlData := fst (makeRequestWithRetry (config this) (fetch url)) in
  let* records :=
    lift_failure (XMLProcessor.processXMLResponse xml_parse xmlData) in
  Ok (FieldMapper.mapRecords records VUndefined).

(** [fetchPage] awaited on its own: with a permit free the work runs
    and [finally] gives the permit back; without one the caller is
    queued and, nobody else holding a permit, never resumes. *)
Definition fetchPage (this : FPDSRequest) (pageNumber : Z)
    (s : Semaphore.Semaphore)
  : option (Outcome Thrown (list JsObj) * Semaphore.Semaphore) :=
  match Semaphore.acquire 0%nat s with
  | (s', Some _) => Some (page_work this pageNumber, fst (Semaphore.release s'))
  | (_, None) => None
  end.

Definition FirstPage : Type :=
  Semaphore.Semaphore ->
  option (Outcome Thrown (list JsObj * PaginationInfo) * Semaphore.Semaphore).

Definition getFirstPage (this : FPDSRequest) : FirstPage :=
  fun s =>
    match fetchPage this 1 s with
    | None => None
    | Some (result, s') =>
        Some (let* records := result in
              let pagination :=
                {| currentPage := 1;
                   totalPages := 1;
                   totalRecords := Z.of_nat (length records);
                   recordsPerPage := Z.of_nat (length records) |} in
              Ok (records, pagination),
              s')
    end.

(** The pages of the loop [for (page = 2; page <= totalPages; page++)]. *)
Definition remaining_pages (total : Z) : list Z :=
  map (fun i => 2 + Z.of_nat i) (seq 0 (Z.to_nat (total - 1))).

(** [getData] over a given way of fetching the first page. [schedule]
    is the order in which the network lets the page tasks finish; the
    result is [None] when the returned promise never settles. The
    [catch] block rethrows the error it caught; the time stamps it and
    the other branches write to [this.metadata] are left out, nothing
    reads them back. *)
Definition getDataFrom (firstPage : FirstPage) (this : FPDSRequest)
    (schedule : list Semaphore.Task) : option (Outcome Thrown (list JsObj)) :=
  match firstPage (Semaphore.create (threadCount (config this))) with
  | None => None
  | Some (Throw error, _) => Some (Throw error)
  | Some (Ok (firstPageRecords, pagination), s) =>
      if totalPages pagination <=? 1 then Some (Ok firstPageRecords)
      else
        let pages := remaining_pages (totalPages pagination) in
        let pagePromises := map (fun page => Some (page_work this page)) pages in
        match promise_all pagePromises
                (completion_order s (length pages) schedule) with
        | None => None
        | Some (Throw error) => Some (Throw error)
        | Some (Ok remainingPages) =>
            Some (Ok (concat (firstPageRecords :: remainingPages)))
        end
  end.

Definition getData (this : FPDSRequest) (schedule : list Semaphore.Task)
  : option (Outcome Thrown (list JsObj)) :=
  getDataFrom (getFirstPage this) this schedule.

(** [{ ...record, source_metadata: { ...metadata, source_contract_number } }] *)
Definition stamp (meta : JsObj) (contractNumber : string) (record : JsObj)
  : JsObj :=
  set (spread [] record) "source_metadata"
      (VObj (set (spread [] meta) "source_contract_number" (VStr contractNumber))).

(** One element of [tasks]: the async arrow function applied to a
    contract number. The constructor runs outside the [try]; inside it,
    a failure of [getData] is reported with [console.error] (left out)
    and becomes the empty list. *)
Definition search_task (request : ContractSearchRequest)
    (options : ConfigOptions) (schedule : list Semaphore.Task)
    (contractNumber : string) : option (Outcome Thrown (list JsObj)) :=
  let searchParams :=
    [("PIID", VStr contractNumber);
     ("LAST_MOD_DATE",
      match dateRange request with Some d => VStr d | None => VUndefined end)] in
  match construct searchParams options with
  | Throw error => Some (Throw (Raised error))
  | Ok fpdsRequest =>
      match getData fpdsRequest schedule with
      | None => None
      | Some (Ok records) =>
          Some (Ok match metadata request with
                   | Some meta => map (stamp meta contractNumber) records
                   | None => records
                   end)
      | Some (Throw error) => Some (Ok [])
      end
  end.

(** [searchContracts]: [order] is the order in which the queries
    settle, [schedules] the page schedule inside each query. *)
Definition searchContracts (request : ContractSearchRequest)
    (options : ConfigOptions) (schedules : string -> list Semaphore.Task)
    (order : list nat) : option (Outcome Thrown (list JsObj)) :=
  let tasks :=
    map (fun contractNumber =>
           search_task request options (schedules contractNumber) contractNumber)
        (contracts request) in
  match promise_all tasks order with
  | None => None
  | Some (Throw error) => Some (Throw error)
  | Some (Ok results) => Some (Ok (concat results))
  end.

End WithWorld.

End Request.

(* ===================================================================== *)
(** * A small world to run the orchestrator in *)
(* ===================================================================== *)

Module Sample.
Import JS Errors Transport Request.

(** A parser that makes of any text a feed with one entry, the text
    being its title. *)
Definition xml_parse (xml : string) : Outcome string JsVal :=
  Ok (VObj [("feed", VObj [("entry", VObj [("title", VStr xml)])])]).

(** A network that refuses every request about contract [A] and
    answers any other request with the URL that was asked for. *)
Definition fetch (url : string) (attempt : Z) : FetchOutcome :=
  if includes url "PIID=A&" then Rejected (OtherError "ECONNRESET")
  else Responded true 200 "OK" (Ok url).

(** The records of a page answered with [body]. *)
Definition records_of (body : string) : list JsObj :=
  FieldMapper.mapRecords [[("title", VStr body)]] VUndefined.

Definition search_url : string :=
  "https://api.sam.gov/prod/federalcontractopportunities/v1/search".

(** A first page that announces three pages. *)
Definition three_pages (this : FPDSRequest) : FirstPage :=
  fun s =>
    match fetchPage xml_parse fetch this 1 s with
    | Some (result, s') =>
        Some (let* records := result in
              Ok (records, mkPagination 1 3 (Z.of_nat (length records))
                             (Z.of_nat (length records))),
              s')
    | None => None
    end.

End Sample.

(* ===================================================================== *)
(** * The vocabulary of the properties *)
(* ===================================================================== *)

Module Spec.
Import JS Errors.

Section Gate.
Import Semaphore.

(** The permits left and the permits held add up to the capacity, and
    tasks wait only while no permit is left. *)
Definition gate_inv (n : Z) (sy : System) : Prop :=
  0 <= permits (sem sy)
  /\ permits (sem sy) + Z.of_nat (length (holders sy)) = n
  /\ (queue (sem sy) <> [] -> permits (sem sy) = 0).

End Gate.

Section Retry.
Import Transport.

(** The effects the contract asks for when [count] tries are made from
    attempt [from] on: a try, then a sleep of [d * 2^(attempt-1)]
    before the next one, and nothing after the last. *)
Fixpoint backoff (d from : Z) (count : nat) : list Effect :=
  match count with
  | O => []
  | S O => [Try from]
  | S c => Try from :: Sleep (d * 2 ^ (from - 1)) :: backoff d (from + 1) c
  end.

(** Attempt [attempt] of a request fails. *)
Definition fails (cfg : Config) (responses : Z -> FetchOutcome) (attempt : Z)
  : Prop :=
  is_ok (makeRequest cfg (responses attempt)) = false.

End Retry.

Section Promises.
Context {A : Type}.

(** The slots written so far hold the values of their promises. *)
Definition agree (values : list A) (slots : list (option A)) : Prop :=
  length slots = length values
  /\ forall i v, slots !! i = Some (Some v) -> values !! i = Some v.

End Promises.

Section Query.
Import URLSearchParams.

(** What [encode] writes for one byte. *)
Definition piece (c : ascii) : string :=
  if unreserved c then chr c
  else if Ascii.eqb c " " then "+"
  else percent c.

Definition pair_text (kv : string * string) : string :=
  encode (fst kv) +++ "=" +++ encode (snd kv).

End Query.

Section Csv.
Import ContractProcessor.


(** The property names of a record built by [mapRecord], in order. *)
Definition field_names : list string :=
  ["contract_hash"; "contract_number"; "title"; "link"; "award_date";
   "award_amount"; "total_potential_value"; "contract_type";
   "project_description"; "naics_code"; "naics_description"; "psc_code";
   "psc_description"; "contracting_agency"; "contracting_office_code";
   "contracting_office_name"; "vendor_name"; "vendor_uei"; "business_size";
   "vendor_city"; "vendor_state"; "sdvosb_status"; "small_business_status";
   "women_owned_status"; "competition_extent"; "set_aside_type";
   "number_of_offers"; "solicitation_procedure"; "start_date"; "end_date";
   "performance_state"; "performance_city"; "parent_contract_id";
   "parent_contract_type"; "source_metadata"].

(** The quoting rule in the words of the format: a double quote, the
    value with each of its double quotes written twice, a double
    quote. *)
Fixpoint double_quotes (s : string) : string :=
  match s with
  | EmptyString => EmptyString
  | String c rest =>
      if Ascii.eqb c dquote
      then String dquote (String dquote (double_quotes rest))
      else String c (double_quotes rest)
  end.

Definition quoted (s : string) : string :=
  String dquote (double_quotes s +++ chr dquote).

End Csv.

Section Records.
Import Validators Transport Request.
Context {Num : JsNumber}.
Variable xml_parse : string -> Outcome string JsVal.
Variable fetch : string -> Z -> FetchOutcome.

(** An object has each key once. *)
Definition well_formed (obj : JsObj) : Prop := List.NoDup (keys obj).

(** The keys are in the order in which the platform keeps the
    properties of an object: array indices first and ascending, then
    the names. *)
Fixpoint in_property_order (ks : list string) : bool :=
  match ks with
  | [] => true
  | k :: rest => forallb (key_before k) rest && in_property_order rest
  end.

(** An object as the platform holds it: each key once, in order. *)
Definition js_object (obj : JsObj) : Prop :=
  List.NoDup (keys obj) /\ in_property_order (keys obj) = true.

(** [String(v)] and [v.toString()] give a text: the value is no object
    with a property named [toString], which would be called and is no
    function, and holds none in an array. *)
Fixpoint printable (v : JsVal) : bool :=
  match v with
  | VObj props => negb (has_own props "toString")
  | VArr items => forallb printable items
  | _ => true
  end.

Definition printable_record (record : JsObj) : Prop :=
  Forall (fun kv => printable (snd kv) = true) record.

(** [record] is not read at a header it lacks and [Object.prototype]
    has. *)
Definition reads_own (headers : list string) (record : JsObj) : Prop :=
  Forall (fun header =>
            has_own record header = true \/ inherited_text header = None)
         headers.

(** A value of the type of a search parameter: a string, a list of
    strings, or [undefined]. *)
Definition search_value (v : JsVal) : bool :=
  match v with
  | VUndefined | VStr _ => true
  | VArr items => forallb is_string items
  | _ => false
  end.

(** Both strings of each pair as [USVString]s. *)
Definition as_usv (pairs : list (string * string)) : list (string * string) :=
  map (fun kv => (toWellFormed (fst kv), toWellFormed (snd kv))) pairs.

(** The pairs [buildQueryString] appends: the entries whose value is
    present, each value in its string form. *)
Definition sent (params : JsObj) : list (string * string) :=
  flat_map (fun kv => if present (snd kv) then [(fst kv, toString (snd kv))]
                      else [])
           params.

(** A decoded query read back as parameters: every value is a string. *)
Definition as_params (pairs : list (string * string)) : JsObj :=
  map (fun kv => (fst kv, VStr (snd kv))) pairs.

(** The request built for one contract of a search. *)
Definition contract_query (request : ContractSearchRequest)
    (options : ConfigOptions) (contractNumber : string) : FPDSRequest :=
  mkRequest
    [("PIID", VStr contractNumber);
     ("LAST_MOD_DATE",
      match dateRange request with Some d => VStr d | None => VUndefined end)]
    (with_defaults options).

(** What the search keeps of one contract: its records, stamped when
    metadata was given, or nothing when its fetch failed. *)
Definition kept_records (request : ContractSearchRequest)
    (options : ConfigOptions) (schedules : string -> list Semaphore.Task)
    (contractNumber : string) : list JsObj :=
  match getData xml_parse fetch (contract_query request options contractNumber)
                (schedules contractNumber) with
  | Some (Ok records) =>
      match metadata request with
      | Some meta => map (stamp meta contractNumber) records
      | None => records
      end
  | _ => []
  end.

End Records.

End Spec.

(* ===================================================================== *)
(** * The rest of the sources *)
(* ===================================================================== *)

(** ** src/core/fpds/field-mapper.ts: [getFieldMappings] *)

Module FieldMappings.

(** The table [getFieldMappings] returns, in property order. *)
Definition getFieldMappings : list (string * string) :=
  [
    ("contract_hash",
       "Generated from contract_number:award_date");
    ("contract_number",
       "content__award__awardID__awardContractID__PIID");
    ("title",
       "title");
    ("link",
       "link__href");
    ("award_date",
       "content__award__relevantContractDates__signedDate");
    ("award_amount",
       "content__award__dollarValues__obligatedAmount");
    ("total_potential_value",
       "content__award__dollarValues__baseAndAllOptionsValue");
    ("contract_type",
       "content__award__contractData__contractActionType__description");
    ("project_description",
       "content__award__contractData__descriptionOfContractRequirement");
    ("naics_code",
       "content__award__productOrServiceInformation__principalNAICSCode");
    ("naics_description",
       "content__award__productOrServiceInformation__principalNAICSCode__description");
    ("psc_code",
       "content__award__productOrServiceInformation__productOrServiceCode");
    ("psc_description",
       "content__award__productOrServiceInformation__productOrServiceCode__description");
    ("contracting_agency",
       "content__award__purchaserInformation__contractingOfficeAgencyID__name");
    ("contracting_office_code",
       "content__award__purchaserInformation__contractingOfficeID");
    ("contracting_office_name",
       "content__award__purchaserInformation__contractingOfficeID__name");
    ("vendor_name",
       "content__award__vendor__vendorHeader__vendorName");
    ("vendor_uei",
       "content__award__vendor__vendorSiteDetails__entityIdentifiers__vendorUEIInformation__UEI");
    ("business_size",
       "content__award__vendor__contractingOfficerBusinessSizeDetermination__description");
    ("vendor_city",
       "content__award__vendor__vendorSiteDetails__vendorLocation__city");
    ("vendor_state",
       "content__award__vendor__vendorSiteDetails__vendorLocation__state");
    ("sdvosb_status",
       "content__award__vendor__vendorSiteDetails__vendorSocioEconomicIndicators__isServiceRelatedDisabledVeteranOwnedBusiness");
    ("small_business_status",
       "content__award__vendor__vendorSiteDetails__vendorSocioEconomicIndicators__isSmallBusiness");
    ("women_owned_status",
       "content__award__vendor__vendorSiteDetails__vendorSocioEconomicIndicators__isWomenOwned");
    ("competition_extent",
       "content__award__competition__extentCompeted__description");
    ("set_aside_type",
       "content__award__competition__idvTypeOfSetAside__description");
    ("number_of_offers",
       "content__award__competition__numberOfOffersReceived");
    ("solicitation_procedure",
       "content__award__competition__solicitationProcedures__description");
    ("start_date",
       "content__award__relevantContractDates__effectiveDate");
    ("end_date",
       "content__award__relevantContractDates__currentCompletionDate");
    ("performance_state",
       "content__award__placeOfPerformance__principalPlaceOfPerformance__stateCode");
    ("performance_city",
       "content__award__placeOfPerformance__placeOfPerformanceZIPCode__city");
    ("parent_contract_id",
       "content__award__awardID__referencedIDVID__PIID");
    ("parent_contract_type",
       "content__award__contractData__referencedIDVType__description") ].

End FieldMappings.

(** ** src/core/fpds/request.ts: [getPage] and [getDataStream] *)

Module Stream.
Import JS Errors Validators Transport Async Request.

Section WithWorld.
Context {Num : JsNumber}.
Variable xml_parse : string -> Outcome string JsVal.
Variable fetch : string -> Z -> FetchOutcome.

(** The URL [fetchPage] requests for a page. *)
Definition page_url (this : FPDSRequest) (pageNumber : Z) : string :=
  let pageParams :=
    set (spread [] (params this)) "page" (VStr (Z_toString pageNumber)) in
  let queryString := buildQueryString pageParams in
  baseUrl (config this) +++ "?" +++ queryString.

(** [getPage] awaited on its own. *)
Definition getPage (this : FPDSRequest) (pageNumber : Z)
    (s : Semaphore.Semaphore)
  : option (Outcome Thrown (list JsObj) * Semaphore.Semaphore) :=
  fetchPage xml_parse fetch this pageNumber s.

(** How a consumer that reads the generator to its end sees it stop. *)
Inductive StreamEnd : Type :=
| Finished
| Failed (error : Thrown)
| Stalled.

(** The loop [for (page = 2; ...) yield await this.fetchPage(page)]:
    the pages are fetched one after the other, each batch yielded
    before the next page is asked for. *)
Fixpoint stream_pages (this : FPDSRequest) (pages : list Z)
    (s : Semaphore.Semaphore) : list (list JsObj) * StreamEnd :=
  match pages with
  | [] => ([], Finished)
  | page :: rest =>
      match fetchPage xml_parse fetch this page s with
      | None => ([], Stalled)
      | Some (Throw error, _) => ([], Failed error)
      | Some (Ok records, s') =>
          let (batches, ending) := stream_pages this rest s' in
          (records :: batches, ending)
      end
  end.

(** [getDataStream] over a given way of fetching the first page: the
    batches it yields, in order, and how it ends. *)
Definition getDataStreamFrom (firstPage : FirstPage) (this : FPDSRequest)
  : list (list JsObj) * StreamEnd :=
  match firstPage (Semaphore.create (threadCount (config this))) with
  | None => ([], Stalled)
  | Some (Throw error, _) => ([], Failed error)
  | Some (Ok (firstPageRecords, pagination), s) =>
      let (batches, ending) :=
        stream_pages this (remaining_pages (totalPages pagination)) s in
      (firstPageRecords :: batches, ending)
  end.

Definition getDataStream (this : FPDSRequest) : list (list JsObj) * StreamEnd :=
  getDataStreamFrom (getFirstPage xml_parse fetch this) this.

End WithWorld.

End Stream.

(** ** The vocabulary of the further properties *)

Module Spec2.
Import JS Errors Spec.

(** Every character of [s] satisfies [p]. *)
Fixpoint all_chars (p : ascii -> bool) (s : string) : bool :=
  match s with
  | EmptyString => true
  | String c rest => p c && all_chars p rest
  end.

(** The characters a query string is made of: the unreserved ones and
    [+ % & =]. *)
Definition query_char (c : ascii) : bool :=
  URLSearchParams.unreserved c
  || Ascii.eqb c "+" || Ascii.eqb c "%" || Ascii.eqb c "&" || Ascii.eqb c "=".

Definition hex_char (c : ascii) : bool :=
  let n := nat_of_ascii c in
  ((48 <=? n) && (n <=? 57) || (97 <=? n) && (n <=? 102))%nat.

(** The keys [validateSearchParams] has a [case] for. *)
Definition validated_keys : list string :=
  ["LAST_MOD_DATE"; "PIID"; "REF_IDV_PIID"; "PRINCIPAL_NAICS_CODE";
   "NAICS_CODE"; "PRODUCT_OR_SERVICE_CODE"; "PSC_CODE"; "AGENCY_CODE";
   "CONTRACTING_AGENCY_ID"; "FUNDING_AGENCY_ID"].


Definition sum (l : list Z) : Z := fold_right Z.add 0 l.

(** The shape [yyyy/mm/dd], with digits of any value. *)
Definition date_shape (d : string) : Prop :=
  exists year month day,
    d = year +++ "/" +++ month +++ "/" +++ day
    /\ String.length year = 4%nat /\ all_chars Validators.is_digit year = true
    /\ String.length month = 2%nat /\ all_chars Validators.is_digit month = true
    /\ String.length day = 2%nat /\ all_chars Validators.is_digit day = true.

(** Nothing but white space. *)
Definition blank (w : string) : Prop := trimStart w = "".


Section Values.
Context {Num : JsNumber}.

(** No property of [obj] holds a nested (non-array) object. *)
Definition flat (obj : JsObj) : Prop :=
  Forall (fun kv => is_plain_object (snd kv) = false) obj.

(** The walk of [flattenXMLPaths] that starts at [value] comes to a
    plain object with a property named [hasOwnProperty]. Arrays below
    the entry are stored, not walked. *)
Fixpoint shadowed (value : JsVal) : bool :=
  match value with
  | VObj props =>
      has_own props "hasOwnProperty"
      || existsb (fun kv => shadowed (snd kv)) props
  | _ => false
  end.

Definition walk_throws (obj : JsVal) : bool :=
  match obj with
  | VObj _ => shadowed obj
  | VArr items => existsb shadowed items
  | _ => false
  end.

(** What the object the walk fills keeps at every step: each key once
    and in order, no nested object, no property [hasOwnProperty], and
    no property [__proto__] while its prototype is
    [Object.prototype]. *)
Definition tidy (result : XMLProcessor.Target) : Prop :=
  js_object (XMLProcessor.own result)
  /\ flat (XMLProcessor.own result)
  /\ has_own (XMLProcessor.own result) "hasOwnProperty" = false
  /\ (XMLProcessor.prototype result = XMLProcessor.ObjectPrototype ->
      has_own (XMLProcessor.own result) "__proto__" = false).

End Values.

End Spec2.

(* ===================================================================== *)
(** * Worked examples *)
(* ===================================================================== *)

Section StringExamples.
Import JS.

(** U+1F600, a code point of four bytes. *)
Let face : string :=
  String (ascii_of_N 240) (String (ascii_of_N 159)
    (String (ascii_of_N 152) (String (ascii_of_N 128) ""))).

Example face_units : code_units face = [surrogate_unit 55357; surrogate_unit 56832].
Proof. reflexivity. Qed.

Example face_well_formed :
  isWellFormed ("a" +++ face) = true /\ toWellFormed ("a" +++ face) = "a" +++ face.
Proof. split; reflexivity. Qed.

Example half_face_replaced :
  isWellFormed ("a" +++ surrogate_unit 55357 +++ "b") = false
  /\ toWellFormed ("a" +++ surrogate_unit 55357 +++ "b")
     = "a" +++ replacement +++ "b".
Proof. split; reflexivity. Qed.

Example array_indices :
  map array_index ["0"; "10"; "01"; "1.5"; "-1"; "4294967294"; "4294967295"; ""]
  = [Some 0%N; Some 10%N; None; None; None; Some 4294967294%N; None; None].
Proof. reflexivity. Qed.

End StringExamples.

Section Sha256Examples.
Import JS Errors Sha256.

Example sha256_empty :
  sha256_hex "" =
  "e3b0c44298fc1c149afbf4c8996fb92427ae41e4649b934ca495991b7852b855".
Proof. vm_compute. reflexivity. Qed.

Example sha256_abc :
  sha256_hex "abc" =
  "ba7816bf8f01cfea414140de5dae2223b00361a396177a9cb410ff61f20015ad".
Proof. vm_compute. reflexivity. Qed.

Example sha256_two_blocks :
  sha256_hex "aaaaaaaaaaaaaaaaaaaaaaaaaaaaaaaaaaaaaaaaaaaaaaaaaaaaaaaa" =
  "b35439a4ac6f0948b6d6f9e3c6af0f5f590ce20f1bde7090ef7970686ec6738a".
Proof. vm_compute. reflexivity. Qed.

Example K_ends : nth 0 K 0 = 1116352408 /\ nth 63 K 0 = 3329325298.
Proof. split; reflexivity. Qed.

End Sha256Examples.

Section URLSearchParamsExamples.
Import JS Errors URLSearchParams.

Example serialize_sample :
  serialize [("PIID", "HT 01"); ("LAST_MOD_DATE", "[2022/01/01, 2024/12/31]")]
  = "PIID=HT+01&LAST_MOD_DATE=%5B2022%2F01%2F01%2C+2024%2F12%2F31%5D".
Proof. reflexivity. Qed.

Example parse_sample :
  parse "a=1&&b=x%2Cy+z&c" = [("a", "1"); ("b", "x,y z"); ("c", "")].
Proof. reflexivity. Qed.

Example lone_surrogate_sent :
  serialize (append [] "q" ("a" +++ surrogate_unit 56832)) = "q=a%EF%BF%BD".
Proof. reflexivity. Qed.

End URLSearchParamsExamples.

Section ValidatorsExamples.
Import JS Errors Validators.

Example date_range_ok : validateDateRange "[2022/01/01, 2024/12/31]" = true.
Proof. reflexivity. Qed.

Example date_range_bad : validateDateRange "2022/01/01-2024/12/31" = false.
Proof. reflexivity. Qed.

Example piid_blank : validatePIID "  " = false /\ validatePIID " A1 " = true.
Proof. split; reflexivity. Qed.

Example trim_sample : trim "  HT 01  " = "HT 01" /\ trim "   " = "".
Proof. split; reflexivity. Qed.

Example validate_sample :
  validateSearchParams
    [("PIID", VStr "HT001525D9012"); ("NAICS_CODE", VStr "54151")]
  = Throw (ValidationError "NAICS_CODE" "54151"
             ["NAICS code must be exactly 6 digits"; "Example: 541511"]).
Proof. reflexivity. Qed.

Example query_sample :
  buildQueryString
    [("PIID", VArr [VStr "A1"; VStr "B2"]); ("VENDOR_NAME", VStr "");
     ("LAST_MOD_DATE", VUndefined); ("page", VStr "2")]
  = "PIID=A1%2CB2&page=2".
Proof. reflexivity. Qed.

End ValidatorsExamples.

Section SemaphoreExamples.
Import JS Errors Semaphore.

Example three_tasks_two_permits :
  run [Acquire 1; Acquire 2; Acquire 3; Release 1]%nat (mkSystem (create 2) [])
  = Some (mkSystem (mkSemaphore 0 []) [2; 3]%nat).
Proof. reflexivity. Qed.

End SemaphoreExamples.

Section XMLProcessorExamples.
Import JS Errors XMLProcessor.

Example flatten_nested :
  flattenXMLPaths
    (VObj [("title", VStr "T");
           ("content", VObj [("award", VObj [("PIID", VStr "X1");
                                             ("tags", VArr [VStr "a"])])]);
           ("link", VObj [("href", VStr "u")])]) "" empty_object
  = Ok (mkTarget
          [("title", VStr "T"); ("content__award__PIID", VStr "X1");
           ("content__award__tags", VArr [VStr "a"]); ("link__href", VStr "u")]
          ObjectPrototype).
Proof. reflexivity. Qed.

(** An element named [hasOwnProperty] anywhere in the entry ends the
    walk. *)
Example flatten_shadowed :
  flattenXMLPaths
    (VObj [("title", VStr "T");
           ("content", VObj [("hasOwnProperty", VStr "x")])]) "" empty_object
  = Throw TypeError.
Proof. reflexivity. Qed.

(** A property [__proto__] is not copied: its array value becomes the
    prototype of the result. *)
Example flatten_proto :
  flattenXMLPaths
    (VObj [("__proto__", VArr [VStr "a"]); ("title", VStr "T")]) ""
    empty_object
  = Ok (mkTarget [("title", VStr "T")] (ArrayInstance [VStr "a"])).
Proof. reflexivity. Qed.

(** Under an empty key the names of the nested object are not prefixed,
    and an array index among them goes before the names. *)
Example flatten_index_first :
  flattenXMLPaths
    (VObj [("2", VStr "w"); ("b", VStr "x");
           ("", VObj [("7", VStr "y"); ("10", VStr "z")])]) "" empty_object
  = Ok (mkTarget
          [("2", VStr "w"); ("7", VStr "y"); ("10", VStr "z"); ("b", VStr "x")]
          ObjectPrototype).
Proof. reflexivity. Qed.

(** An entry that is a text is walked position by position. *)
Example flatten_text :
  flattenXMLPaths (VStr "ok") "" empty_object
  = Ok (mkTarget [("0", VStr "o"); ("1", VStr "k")] ObjectPrototype).
Proof. reflexivity. Qed.

End XMLProcessorExamples.

Section FieldMapperExamples.
Import JS Errors FieldMapper.

Example hash_sample :
  generateContractHash "HT001525D9012" "2023-01-15"
  = "6582203ad3a3fd76ad02a8078dbcdc39b1ecd477a8da79a76aae395a825d4260".
Proof. vm_compute. reflexivity. Qed.

End FieldMapperExamples.

Section ContractProcessorExamples.
Import JS Errors ContractProcessor.

(** The second record has no [constructor] of its own and is read at
    the one it inherits. *)
Example inherited_cell :
  convertToCSV [[("constructor", VStr "x"); ("name", VStr "a")];
                [("name", VStr "b")]]
  = "constructor,name,award_amount,total_potential_value,number_of_offers,"
    +++ "sdvosb_status,small_business_status,women_owned_status" +++ newline
    +++ "x,a,0,0,0,No,No,No" +++ newline
    +++ "function Object() { [native code] },b,0,0,0,No,No,No".
Proof. reflexivity. Qed.

End ContractProcessorExamples.

Section TransportExamples.
Import JS Errors Transport.

Example retry_all_fail :
  makeRequestWithRetry DEFAULT_CONFIG (fun _ => Rejected AbortError)
  = (Throw (Raised (NetworkError "Request timeout after 30000ms" None)),
     [Try 1; Sleep 1000; Try 2; Sleep 2000; Try 3]).
Proof. reflexivity. Qed.

End TransportExamples.

Section AsyncExamples.
Import JS Errors Async.

Example two_permits_three_tasks :
  completion_order (Semaphore.create 2) 3 [2; 1; 0; 2]%nat = [1; 0; 2]%nat.
Proof. reflexivity. Qed.

Example promise_all_by_index :
  promise_all (E := unit) [Some (Ok 10); Some (Ok 11); Some (Ok 12)] [1; 0; 2]%nat
  = Some (Ok [10; 11; 12]).
Proof. reflexivity. Qed.

End AsyncExamples.

Section RequestExamples.
Import JS Errors Transport Request.

Example single_page_sample :
  let this := mkRequest [("PIID", VStr "B")] DEFAULT_CONFIG in
  getData Sample.xml_parse Sample.fetch this []
  = Some (Ok (Sample.records_of (Sample.search_url +++ "?PIID=B&page=1"))).
Proof. vm_compute. reflexivity. Qed.

Example no_permit_never_settles :
  let this :=
    mkRequest [("PIID", VStr "B")] (with_defaults
      (mkOptions (Some 0) None None None None None)) in
  getData Sample.xml_parse Sample.fetch this [] = None.
Proof. reflexivity. Qed.

End RequestExamples.

Import JS Errors Spec.

(* ===================================================================== *)
(** * Properties of the semaphore *)
(* ===================================================================== *)

Section SemaphoreFacts.
Import Semaphore.

Lemma remove_one_length (t : Task) (l : list Task) :
  In t l -> S (length (remove_one t l)) = length l.
Proof.
  induction l as [|x l IH]; simpl; [tauto|].
  intros [->|Hin].
  - now rewrite Nat.eqb_refl.
  - destruct (Nat.eqb x t); [reflexivity|]. simpl. now rewrite IH.
Qed.

Lemma gate_inv_acquire n t sy : gate_inv n sy -> gate_inv n (do_acquire t sy).
Proof.
  intros (Hpos & Hsum & Hq). unfold do_acquire, acquire.
  destruct (0 <? permits (sem sy)) eqn:Hfree; unfold gate_inv; simpl.
  - apply Z.ltb_lt in Hfree. rewrite length_app. simpl.
    repeat split; [lia | lia |]. intros Hne. specialize (Hq Hne). lia.
  - apply Z.ltb_ge in Hfree. rewrite app_nil_r.
    repeat split; [lia | lia |]. intros _. lia.
Qed.

Lemma gate_inv_release n t sy :
  In t (holders sy) -> gate_inv n sy -> gate_inv n (do_release t sy).
Proof.
  intros Hin (Hpos & Hsum & Hq). unfold do_release, release.
  pose proof (remove_one_length t _ Hin) as Hlen.
  destruct (queue (sem sy)) as [|w rest] eqn:Hqueue; unfold gate_inv; simpl.
  - rewrite app_nil_r. repeat split; [lia | lia | congruence].
  - rewrite length_app. simpl.
    assert (permits (sem sy) = 0) by (apply Hq; congruence).
    repeat split; [lia | lia | lia].
Qed.

Lemma gate_inv_reachable n sy : 0 < n -> reachable n sy -> gate_inv n sy.
Proof.
  intros Hn Hreach. induction Hreach as [|sy ev sy' _ IH Hstep].
  - unfold gate_inv. simpl. repeat split; [lia | lia | congruence].
  - destruct Hstep.
    + now apply gate_inv_acquire.
    + now apply gate_inv_release.
Qed.

Lemma run_reachable n evs : forall sy sy',
  reachable n sy -> run evs sy = Some sy' -> reachable n sy'.
Proof.
  induction evs as [|[t|t] evs IH]; simpl; intros sy sy' Hreach Hrun.
  - congruence.
  - eapply IH; [|exact Hrun]. eapply reach_step; [exact Hreach|constructor].
  - destruct (existsb (Nat.eqb t) (holders sy)) eqn:Hheld; [|discriminate].
    eapply IH; [|exact Hrun]. eapply reach_step; [exact Hreach|].
    constructor. apply existsb_exists in Hheld as (x & Hin & Heq).
    apply Nat.eqb_eq in Heq. now subst.
Qed.

(** C5. A semaphore created with a positive capacity [n], driven by any
    sequence of acquires and balanced releases, never has a negative
    number of permits nor more than [n] holders; a release with tasks
    waiting resolves exactly the task at the head of the queue, which
    the acquires fill at the tail, and leaves the others queued. *)
Theorem semaphore_bounded_fifo (n : Z) (sy : System) :
  0 < n ->
  reachable n sy ->
  0 <= permits (sem sy)
  /\ Z.of_nat (length (holders sy)) <= n
  /\ (forall t, permits (sem sy) <= 0 ->
        acquire t (sem sy)
        = (mkSemaphore (permits (sem sy)) (queue (sem sy) ++ [t]), None))
  /\ (forall oldest rest, queue (sem sy) = oldest :: rest ->
        release (sem sy) = (mkSemaphore (permits (sem sy)) rest, Some oldest))
  /\ (queue (sem sy) = [] -> snd (release (sem sy)) = None).
Proof.
  intros Hn Hreach.
  destruct (gate_inv_reachable n sy Hn Hreach) as (Hpos & Hsum & Hq).
  split; [exact Hpos|]. split; [lia|]. split; [|split].
  - intros t Hnone. unfold acquire.
    destruct (0 <? permits (sem sy)) eqn:Hfree; [|reflexivity].
    apply Z.ltb_lt in Hfree. lia.
  - intros oldest rest Hqueue. unfold release. rewrite Hqueue.
    f_equal. f_equal. lia.
  - intros Hempty. unfold release. now rewrite Hempty.
Qed.

Lemma semaphore_bounded_fifo_witness :
  let sy := mkSystem (mkSemaphore 0 [3; 4]%nat) [1; 2]%nat in
  0 <= permits (sem sy)
  /\ Z.of_nat (length (holders sy)) <= 2
  /\ (forall t, permits (sem sy) <= 0 ->
        acquire t (sem sy)
        = (mkSemaphore (permits (sem sy)) (queue (sem sy) ++ [t]), None))
  /\ (forall oldest rest, queue (sem sy) = oldest :: rest ->
        release (sem sy) = (mkSemaphore (permits (sem sy)) rest, Some oldest))
  /\ (queue (sem sy) = [] -> snd (release (sem sy)) = None).
Proof.
  apply (semaphore_bounded_fifo 2); [lia|].
  apply (run_reachable 2 [Acquire 1; Acquire 2; Acquire 3; Acquire 4]%nat
           (mkSystem (create 2) [])); [constructor | reflexivity].
Defined.

End SemaphoreFacts.

(* ===================================================================== *)
(** * Properties of the retrying transport *)
(* ===================================================================== *)

Section RetryFacts.
Import Errors Transport.

Lemma backoff_step d from c :
  backoff d from (S (S c))
  = Try from :: Sleep (d * 2 ^ (from - 1)) :: backoff d (from + 1) (S c).
Proof. reflexivity. Qed.

Variable cfg : Config.
Variable responses : Z -> FetchOutcome.

Let r := retryAttempts cfg.
Let d := retryDelay cfg.
Local Abbreviation fails := (fails cfg responses).

Lemma retry_loop_success fuel : forall a k text lastError,
  a <= k <= r ->
  (Z.to_nat (k - a) < fuel)%nat ->
  (forall j, a <= j < k -> fails j) ->
  makeRequest cfg (responses k) = Ok text ->
  retry_loop cfg responses fuel a lastError
  = (Ok text, backoff d a (S (Z.to_nat (k - a)))).
Proof.
  induction fuel as [|fuel IH]; intros a k text lastError Hak Hfuel Hfail Hok;
    [lia|].
  cbn [retry_loop]. fold r. destruct (a <=? r) eqn:Hle; [|apply Z.leb_gt in Hle; lia].
  destruct (Z.eq_dec a k) as [->|Hne].
  - rewrite Hok. now rewrite Z.sub_diag.
  - assert (Hfa : fails a) by (apply Hfail; lia). unfold Spec.fails in Hfa.
    destruct (makeRequest cfg (responses a)) as [?|error]; [discriminate|].
    destruct (a =? r) eqn:Heq; [apply Z.eqb_eq in Heq; lia|].
    rewrite (IH (a + 1) k text (Some error)); try lia; try assumption.
    + replace (Z.to_nat (k - a)) with (S (Z.to_nat (k - (a + 1)))) by lia.
      now rewrite backoff_step.
    + intros j Hj. apply Hfail. lia.
Qed.

Lemma retry_loop_exhausted fuel : forall a error lastError,
  a <= r ->
  (Z.to_nat (r - a) < fuel)%nat ->
  (forall j, a <= j <= r -> fails j) ->
  makeRequest cfg (responses r) = Throw error ->
  retry_loop cfg responses fuel a lastError
  = (Throw (Raised error), backoff d a (S (Z.to_nat (r - a)))).
Proof.
  induction fuel as [|fuel IH]; intros a error lastError Har Hfuel Hfail Herr;
    [lia|].
  cbn [retry_loop]. fold r. destruct (a <=? r) eqn:Hle; [|apply Z.leb_gt in Hle; lia].
  destruct (Z.eq_dec a r) as [->|Hne].
  - rewrite Herr, Z.eqb_refl, Z.sub_diag. reflexivity.
  - assert (Hfa : fails a) by (apply Hfail; lia). unfold Spec.fails in Hfa.
    destruct (makeRequest cfg (responses a)) as [?|e]; [discriminate|].
    destruct (a =? r) eqn:Heq; [apply Z.eqb_eq in Heq; lia|].
    rewrite (IH (a + 1) error (Some e)); try lia; try assumption.
    + replace (Z.to_nat (r - a)) with (S (Z.to_nat (r - (a + 1)))) by lia.
      now rewrite backoff_step.
    + intros j Hj. apply Hfail. lia.
Qed.

Lemma retry_loop_tries fuel : forall a lastError,
  (length (tries (snd (retry_loop cfg responses fuel a lastError))) <= fuel)%nat.
Proof.
  induction fuel as [|fuel IH]; intros a lastError; simpl; [lia|].
  destruct (a <=? retryAttempts cfg); [|simpl; lia].
  destruct (makeRequest cfg (responses a)) as [?|error]; [simpl; lia|].
  destruct (a =? retryAttempts cfg); [simpl; lia|].
  specialize (IH (a + 1) (Some error)).
  destruct (retry_loop cfg responses fuel (a + 1) (Some error)). simpl in *. lia.
Qed.

Lemma backoff_tries delay : forall count from,
  tries (backoff delay from count)
  = map (fun i => from + Z.of_nat i) (seq 0 count).
Proof.
  induction count as [|[|c] IH]; intros from.
  - reflexivity.
  - simpl. now rewrite Z.add_0_r.
  - rewrite backoff_step. cbn [tries flat_map app].
    fold (tries (backoff delay (from + 1) (S c))). rewrite IH.
    rewrite <- (cons_seq (S c) 0). cbn [map]. rewrite Z.add_0_r. f_equal.
    rewrite <- seq_shift, map_map. apply map_ext. intros i. lia.
Qed.

Lemma backoff_last delay : forall count from,
  count <> O ->
  last (backoff delay from count) = Some (Try (from + Z.of_nat count - 1)).
Proof.
  induction count as [|[|c] IH]; intros from Hcount; [congruence| |].
  - simpl. do 2 f_equal. lia.
  - rewrite backoff_step.
    assert (Hne : backoff delay (from + 1) (S c) <> [])
      by (destruct c; discriminate).
    destruct (backoff delay (from + 1) (S c)) as [|e es] eqn:Hb; [congruence|].
    change (last (e :: es) = Some (Try (from + Z.of_nat (S (S c)) - 1))).
    rewrite <- Hb, IH by congruence. do 2 f_equal. lia.
Qed.

Lemma backoff_sleeps delay : forall count from,
  sleeps (backoff delay from count)
  = map (fun i => delay * 2 ^ (from - 1 + Z.of_nat i)) (seq 0 (pred count)).
Proof.
  induction count as [|[|c] IH]; intros from; try reflexivity.
  rewrite backoff_step. cbn [sleeps flat_map app]. fold (sleeps (backoff delay (from + 1) (S c))).
  rewrite IH. cbn [pred seq map]. rewrite Z.add_0_r. f_equal.
  rewrite <- seq_shift, map_map. apply map_ext. intros i. f_equal. f_equal. lia.
Qed.

(** C4. [makeRequestWithRetry] makes at most [retryAttempts] tries.
    When attempt [k] is the first to succeed it returns that response,
    having slept [retryDelay * 2^(j-1)] after each failed attempt [j]
    before it. When every attempt fails it throws the error of the last
    attempt as [makeRequest] threw it, after the same sleeps between
    the attempts and none after the last. *)
Theorem retry_contract :
  Z.of_nat (length (tries (snd (makeRequestWithRetry cfg responses))))
    <= Z.max 0 r
  /\ (forall k text,
        1 <= k <= r ->
        (forall j, 1 <= j < k -> fails j) ->
        makeRequest cfg (responses k) = Ok text ->
        makeRequestWithRetry cfg responses
        = (Ok text, backoff d 1 (Z.to_nat k)))
  /\ (forall error,
        1 <= r ->
        (forall j, 1 <= j <= r -> fails j) ->
        makeRequest cfg (responses r) = Throw error ->
        makeRequestWithRetry cfg responses
        = (Throw (Raised error), backoff d 1 (Z.to_nat r)))
  /\ (forall count,
        tries (backoff d 1 count) = map Z.of_nat (seq 1 count)
        /\ sleeps (backoff d 1 count)
           = map (fun i => d * 2 ^ Z.of_nat i) (seq 0 (pred count))
        /\ (count <> O ->
            last (backoff d 1 count) = Some (Try (Z.of_nat count)))).
Proof.
  unfold makeRequestWithRetry. fold r. repeat split.
  - pose proof (retry_loop_tries (Z.to_nat r) 1 None). lia.
  - intros k text Hk Hfail Hok.
    rewrite (retry_loop_success (Z.to_nat r) 1 k text None); try lia; try assumption.
    do 2 f_equal. lia.
  - intros error Hr Hfail Herr.
    rewrite (retry_loop_exhausted (Z.to_nat r) 1 error None); try lia; try assumption.
    do 2 f_equal. lia.
  - rewrite backoff_tries, <- seq_shift, map_map. apply map_ext. intros i. lia.
  - rewrite backoff_sleeps. apply map_ext. intros i. now f_equal.
  - intros Hcount. rewrite backoff_last by assumption. do 2 f_equal. lia.
Qed.

End RetryFacts.

Lemma retry_contract_witness :
  let cfg := Transport.DEFAULT_CONFIG in
  let responses := fun _ : Z => Transport.Rejected Transport.AbortError in
  Transport.makeRequestWithRetry cfg responses
  = (Throw (Transport.Raised
       (NetworkError "Request timeout after 30000ms" None)),
     [Transport.Try 1; Transport.Sleep 1000; Transport.Try 2;
      Transport.Sleep 2000; Transport.Try 3]).
Proof.
  intros cfg responses.
  destruct (retry_contract cfg responses) as (_ & _ & Hfail & _).
  apply (Hfail (NetworkError "Request timeout after 30000ms" None)).
  - simpl. lia.
  - intros j _. reflexivity.
  - reflexivity.
Defined.

(* ===================================================================== *)
(** * Properties of objects and of the XML normalizer *)
(* ===================================================================== *)

Section ObjectFacts.
Import JS XMLProcessor.
Context {Num : JsNumber}.

Lemma set_fresh (obj : JsObj) key value :
  ~ In key (keys obj) -> set obj key value = obj ++ [(key, value)].
Proof.
  induction obj as [|[k v] obj IH]; simpl; intros Hfresh; [reflexivity|].
  destruct (String.eqb k key) eqn:Heq.
  - apply String.eqb_eq in Heq. tauto.
  - rewrite IH by tauto. reflexivity.
Qed.

Lemma keys_app (a b : JsObj) : keys (a ++ b) = keys a ++ keys b.
Proof. apply map_app. Qed.

(** Assigning the properties of [obj] one by one to an object that has
    none of them appends them in order. *)
Lemma assign_all_fresh (obj : JsObj) : forall acc : JsObj,
  well_formed obj ->
  (forall k, In k (keys obj) -> ~ In k (keys acc)) ->
  fold_left (fun acc kv => set acc (fst kv) (snd kv)) obj acc = acc ++ obj.
Proof.
  unfold well_formed.
  induction obj as [|[k v] obj IH]; simpl; intros acc Hnodup Hdisj.
  - now rewrite app_nil_r.
  - apply NoDup_cons_iff in Hnodup as [Hk Hnodup].
    rewrite set_fresh by (apply Hdisj; now left).
    rewrite IH; [now rewrite <- app_assoc | assumption |].
    intros k' Hin. rewrite keys_app, in_app_iff. simpl.
    intros [Hacc|[->|[]]]; [|tauto]. apply (Hdisj k'); tauto.
Qed.

Lemma spread_empty (obj : JsObj) : well_formed obj -> spread [] obj = obj.
Proof.
  intros Hwf. unfold spread. rewrite assign_all_fresh; auto.
Qed.

(** C9. A flat object is not always returned as it is. The loop asks
    each object it walks for its [hasOwnProperty]; an object that has a
    property of that name answers with that property, which is data and
    cannot be called, and the walk throws a [TypeError] before anything
    is copied, whatever the prefix and the object being filled. *)
Theorem flatten_throws_on_own_hasOwnProperty (obj : JsObj) (prefix : string)
    (result : Target) :
  has_own obj "hasOwnProperty" = true ->
  flattenXMLPaths (VObj obj) prefix result = Throw TypeError.
Proof.
  intros Hown. unfold flattenXMLPaths, own_properties. now rewrite Hown.
Qed.

End ObjectFacts.

(** The entry [<hasOwnProperty>x</hasOwnProperty><title>T</title>]: a
    flat object with each key once. *)
Lemma flatten_throws_on_own_hasOwnProperty_witness :
  let obj := [("hasOwnProperty", VStr "x"); ("title", VStr "T")] in
  well_formed obj
  /\ Forall (fun kv => is_plain_object (snd kv) = false) obj
  /\ XMLProcessor.flattenXMLPaths (VObj obj) "" XMLProcessor.empty_object
     = Throw TypeError.
Proof.
  intros obj. split; [|split].
  - unfold well_formed. simpl. repeat constructor; simpl; intuition discriminate.
  - repeat constructor.
  - apply (flatten_throws_on_own_hasOwnProperty obj "" XMLProcessor.empty_object).
    reflexivity.
Defined.

(* ===================================================================== *)
(** * Well-formed strings *)
(* ===================================================================== *)

Section WellFormedFacts.

Lemma toWellFormed_cons a (t : string) :
  toWellFormed (String a t)
  = match t with
    | String b (String c rest) =>
        if lone_surrogate a b c then replacement +++ toWellFormed rest
        else String a (toWellFormed t)
    | _ => String a (toWellFormed t)
    end.
Proof. reflexivity. Qed.

Lemma isWellFormed_cons a (t : string) :
  isWellFormed (String a t)
  = match t with
    | String b (String c _) => negb (lone_surrogate a b c) && isWellFormed t
    | _ => isWellFormed t
    end.
Proof. reflexivity. Qed.

(** A string without lone surrogates is left as it is. *)
Lemma toWellFormed_id : forall s : string,
  isWellFormed s = true -> toWellFormed s = s.
Proof.
  induction s as [|a t IH]; [reflexivity|].
  rewrite toWellFormed_cons, isWellFormed_cons.
  destruct t as [|b [|c rest]]; intros Hwf; try (now rewrite IH).
  apply andb_prop in Hwf as [Hlone Hwf]. apply negb_true_iff in Hlone.
  rewrite Hlone. now rewrite IH.
Qed.

(** The bytes of a lone surrogate: none is an ASCII character. *)
Lemma lone_surrogate_bytes a b c :
  lone_surrogate a b c = true ->
  (JS.code a = 237 /\ 160 <= JS.code b /\ 128 <= JS.code c)%N.
Proof.
  unfold lone_surrogate. intros H.
  repeat (apply andb_prop in H as [H ?]).
  apply N.eqb_eq in H. repeat split; try assumption; now apply N.leb_le.
Qed.

Lemma not_lone_first a b c : (JS.code a < 128)%N -> lone_surrogate a b c = false.
Proof.
  intros Ha. destruct (lone_surrogate a b c) eqn:H; [|reflexivity].
  apply lone_surrogate_bytes in H. lia.
Qed.

Lemma not_lone_second a b c : (JS.code b < 128)%N -> lone_surrogate a b c = false.
Proof.
  intros Ha. destruct (lone_surrogate a b c) eqn:H; [|reflexivity].
  apply lone_surrogate_bytes in H. lia.
Qed.

Lemma not_lone_third a b c : (JS.code c < 128)%N -> lone_surrogate a b c = false.
Proof.
  intros Ha. destruct (lone_surrogate a b c) eqn:H; [|reflexivity].
  apply lone_surrogate_bytes in H. lia.
Qed.

(** An ASCII character is kept, and nothing before it is read together
    with what follows it. *)
Lemma isWellFormed_ascii x (t : string) :
  (JS.code x < 128)%N -> isWellFormed (String x t) = isWellFormed t.
Proof.
  intros Hx. rewrite isWellFormed_cons.
  destruct t as [|b [|c rest]]; try reflexivity.
  now rewrite not_lone_first.
Qed.

Lemma isWellFormed_app_ascii x : forall a b : string,
  (JS.code x < 128)%N ->
  isWellFormed (a +++ String x b) = isWellFormed a && isWellFormed b.
Proof.
  intros a b Hx. induction a as [|y a IH]; cbn [String.append].
  - now apply isWellFormed_ascii.
  - rewrite !isWellFormed_cons.
    destruct a as [|z [|w a]]; cbn [String.append] in *.
    + rewrite (isWellFormed_ascii x b Hx).
      destruct b as [|c b]; [reflexivity|].
      rewrite not_lone_second by assumption. reflexivity.
    + rewrite not_lone_third by assumption. cbn [negb andb]. exact IH.
    + rewrite IH. rewrite !isWellFormed_cons. now rewrite andb_assoc.
Qed.

End WellFormedFacts.

(* ===================================================================== *)
(** * Properties of the contract hash *)
(* ===================================================================== *)

Section HashFacts.
Import FieldMapper.

Lemma append_cons c (s t : string) : String c s +++ t = String c (s +++ t).
Proof. reflexivity. Qed.

(** A colon-free prefix is determined by the joined string. *)
Lemma colon_join_injective : forall a c b d : string,
  has_char ":" a = false ->
  has_char ":" c = false ->
  a +++ ":" +++ b = c +++ ":" +++ d ->
  a = c /\ b = d.
Proof.
  induction a as [|x a IH]; intros [|y c] b d Ha Hc Heq;
    cbn [has_char String.append] in *.
  - injection Heq as ->. tauto.
  - injection Heq as <- _. apply orb_false_iff in Hc as [Hc _].
    now rewrite Ascii.eqb_refl in Hc.
  - injection Heq as -> _. apply orb_false_iff in Ha as [Ha _].
    now rewrite Ascii.eqb_refl in Ha.
  - injection Heq as -> Heq.
    apply orb_false_iff in Ha as [_ Ha]. apply orb_false_iff in Hc as [_ Hc].
    destruct (IH c b d Ha Hc Heq) as [-> ->]. tauto.
Qed.

(** C8, as the code has it. The hash is the SHA-256 digest, in
    hexadecimal, of [contractNumber ++ ":" ++ awardDate] taken as
    UTF-8, for every pair; equal pairs give equal hashes. For contract
    numbers without a colon and arguments without lone surrogates, two
    different pairs are hashed from two different sequences of bytes:
    they hash alike only if SHA-256 itself collides on those. *)
Theorem contract_hash_digest (a b c d : string) :
  generateContractHash a b = Sha256.sha256_hex (a +++ ":" +++ b)
  /\ ((a, b) = (c, d) -> generateContractHash a b = generateContractHash c d)
  /\ (has_char ":" a = false -> has_char ":" c = false ->
      isWellFormed a = true -> isWellFormed b = true ->
      isWellFormed c = true -> isWellFormed d = true ->
      (a, b) <> (c, d) ->
      toWellFormed (a +++ ":" +++ b) <> toWellFormed (c +++ ":" +++ d)
      /\ (generateContractHash a b = generateContractHash c d ->
          Sha256.sha256_bytes (toWellFormed (a +++ ":" +++ b))
          = Sha256.sha256_bytes (toWellFormed (c +++ ":" +++ d)))).
Proof.
  split; [reflexivity|]. split.
  - intros [= -> ->]. reflexivity.
  - intros Ha Hc Hwa Hwb Hwc Hwd Hne. split; [|trivial].
    assert (Hcolon : (JS.code ":" < 128)%N) by (vm_compute; reflexivity).
    rewrite !toWellFormed_id
      by (change (?x +++ ":" +++ ?y) with (x +++ String ":" y);
          rewrite isWellFormed_app_ascii by exact Hcolon;
          now apply andb_true_intro).
    intros Heq. apply Hne.
    destruct (colon_join_injective a c b d Ha Hc Heq) as [-> ->]. reflexivity.
Qed.

End HashFacts.

Lemma contract_hash_digest_witness :
  FieldMapper.generateContractHash "HT001525D9012" "2023-01-15"
  = Sha256.sha256_hex "HT001525D9012:2023-01-15"
  /\ toWellFormed "HT001525D9012:2023-01-15"
     <> toWellFormed "HT001525D9013:2023-01-15".
Proof.
  destruct (contract_hash_digest "HT001525D9012" "2023-01-15"
              "HT001525D9013" "2023-01-15") as (Hdef & _ & Hinj).
  split; [exact Hdef|].
  apply Hinj; try reflexivity. discriminate.
Defined.

(** Two different input pairs that hash alike: the separator may come
    from either argument; and a contract number that is a lone
    surrogate is hashed as the replacement character is. *)
Lemma contract_hash_shared_input :
  ("a:", "b") <> ("a", ":b")
  /\ FieldMapper.generateContractHash "a:" "b"
     = FieldMapper.generateContractHash "a" ":b"
  /\ surrogate_unit 55296 <> replacement
  /\ FieldMapper.generateContractHash (surrogate_unit 55296) "b"
     = FieldMapper.generateContractHash replacement "b".
Proof. repeat split; try discriminate. Qed.

(* ===================================================================== *)
(** * Properties of the serializer *)
(* ===================================================================== *)

Section CsvFacts.
Import Validators FieldMapper ContractProcessor.
Context {Num : JsNumber}.

Lemma get_set_same (obj : JsObj) key value : get (set obj key value) key = value.
Proof.
  induction obj as [|[k v] obj IH]; simpl.
  - now rewrite String.eqb_refl.
  - destruct (String.eqb k key) eqn:Heq; simpl; now rewrite Heq.
Qed.

Lemma get_set_other (obj : JsObj) key key' value :
  key <> key' -> get (set obj key value) key' = get obj key'.
Proof.
  intros Hne. induction obj as [|[k v] obj IH]; simpl.
  - apply String.eqb_neq in Hne. now rewrite Hne.
  - destruct (String.eqb k key) eqn:Heq; simpl.
    + apply String.eqb_eq in Heq. subst k.
      apply String.eqb_neq in Hne. now rewrite Hne.
    + now rewrite IH.
Qed.

Lemma keys_set_present (obj : JsObj) key value :
  In key (keys obj) -> keys (set obj key value) = keys obj.
Proof.
  induction obj as [|[k v] obj IH]; simpl; [tauto|]. intros Hin.
  destruct (String.eqb k key) eqn:Heq; [reflexivity|]. simpl. f_equal.
  apply IH. destruct Hin as [->|Hin]; [|assumption].
  now rewrite String.eqb_refl in Heq.
Qed.

Lemma keys_mapRecord rawRecord sourceMetadata :
  keys (mapRecord rawRecord sourceMetadata) = field_names.
Proof. reflexivity. Qed.

Lemma mapRecord_well_formed rawRecord sourceMetadata :
  well_formed (mapRecord rawRecord sourceMetadata).
Proof.
  unfold well_formed. rewrite keys_mapRecord.
  replace field_names with (nodup string_dec field_names)
    by (vm_compute; reflexivity).
  apply NoDup_nodup.
Qed.








(** [convertToCSV] on a non-empty list, before any fact about the
    records is used. *)
Lemma convertToCSV_rows (records : list JsObj) :
  records <> [] ->
  let processed := processRecordsForCSV records in
  let headers := keys (nth 0 processed []) in
  convertToCSV records
  = join newline
      (join "," headers
       :: map (fun record => join "," (map (csv_field record) headers))
             processed).
Proof.
  intros Hne. unfold convertToCSV.
  destruct records as [|r rest]; [congruence|]. reflexivity.
Qed.

Lemma has_own_keys (obj : JsObj) key :
  has_own obj key = true <-> In key (keys obj).
Proof.
  unfold has_own. rewrite existsb_exists. split.
  - intros (k & Hin & Hk). apply String.eqb_eq in Hk. now subst.
  - intros Hin. exists key. split; [assumption | apply String.eqb_refl].
Qed.

Lemma get_absent (obj : JsObj) key :
  has_own obj key = false -> get obj key = VUndefined.
Proof.
  unfold has_own, keys. induction obj as [|[k v] obj IH]; [reflexivity|].
  cbn [map existsb fst get]. destruct (String.eqb k key); [discriminate|].
  exact IH.
Qed.

(** A cell read from the record itself. *)
Lemma csv_field_own (record : JsObj) header :
  has_own record header = true \/ inherited_text header = None ->
  csv_field record header = join_item (csv_cell (get record header)).
Proof.
  unfold csv_field. intros [Hown|Hnone].
  - now rewrite Hown.
  - destruct (has_own record header) eqn:Hown; [reflexivity|].
    now rewrite Hnone, get_absent.
Qed.


Lemma includes_char (s : string) (c : ascii) :
  includes s (chr c) = has_char c s.
Proof.
  induction s as [|d s IH]; [reflexivity|].
  cbn [includes has_char String.prefix chr]. rewrite IH.
  destruct (ascii_dec c d) as [->|Hne].
  - rewrite Ascii.eqb_refl. now destruct s.
  - apply Ascii.eqb_neq in Hne. now rewrite Hne.
Qed.

Lemma replaceAll_dquote (s : string) :
  replaceAll dquote (chr dquote +++ chr dquote) s = double_quotes s.
Proof.
  induction s as [|c s IH]; [reflexivity|].
  cbn [replaceAll double_quotes]. rewrite IH, (Ascii.eqb_sym c dquote).
  now destruct (Ascii.eqb dquote c).
Qed.

Lemma csv_cell_string (s : string) :
  join_item (csv_cell (VStr s))
  = if has_char "," s || has_char dquote s then quoted s else s.
Proof.
  unfold csv_cell. change "," with (chr ","%char) at 1.
  rewrite !includes_char.
  destruct (has_char "," s || has_char dquote s); [|reflexivity].
  cbn [join_item toString]. now rewrite replaceAll_dquote.
Qed.

(** C7, as the code has it. For no records the output is empty.
    Otherwise it is a header row and one row per record, separated by
    newlines: the header row lists the properties of the first record
    after [processRecordsForCSV], and each row gives, for each header,
    the value the processed record has there. A string value with a
    comma or a double quote is written between double quotes with its
    double quotes doubled; any other string is written as it is, and a
    value that is no string as [join] prints it. This is for records
    with their properties in order, whose values can be printed and
    that are not read at a header they lack and [Object.prototype]
    has. For [[{name: 'Jane, Q.'}]] the
    header row is [name] followed by the six fields
    [processRecordsForCSV] fills in, and the data row is ["Jane, Q."]
    followed by their values. *)
Theorem csv_layout :
  convertToCSV [] = ""
  /\ (forall records : list JsObj,
        records <> [] ->
        Forall js_object records ->
        Forall printable_record records ->
        let processed := processRecordsForCSV records in
        let headers := keys (nth 0 processed []) in
        Forall (reads_own headers) processed ->
        length processed = length records
        /\ convertToCSV records
           = join newline
               (join "," headers
                :: map (fun record =>
                          join "," (map (fun header =>
                                           join_item (csv_cell (get record header)))
                                        headers))
                       processed))
  /\ (forall s : string,
        join_item (csv_cell (VStr s))
        = if has_char "," s || has_char dquote s then quoted s else s)
  /\ (forall value : JsVal,
        is_string value = false ->
        printable value = true ->
        join_item (csv_cell value) = join_item value)
  /\ convertToCSV [[("name", VStr "Jane, Q.")]]
     = "name,award_amount,total_potential_value,number_of_offers,"
       +++ "sdvosb_status,small_business_status,women_owned_status"
       +++ newline
       +++ quoted "Jane, Q." +++ ",0,0,0,No,No,No".
Proof.
  split; [reflexivity|]. split; [|split; [|split]].
  - intros records Hne _ _ processed headers Hown. split.
    + unfold processed, processRecordsForCSV. apply length_map.
    + rewrite convertToCSV_rows by assumption. cbv zeta.
      fold processed. fold headers. do 2 f_equal.
      apply map_ext_in. intros record Hin. f_equal.
      apply map_ext_in. intros header Hheader. apply csv_field_own.
      rewrite List.Forall_forall in Hown. specialize (Hown record Hin).
      unfold reads_own in Hown. rewrite List.Forall_forall in Hown.
      now apply Hown.
  - apply csv_cell_string.
  - intros value Hvalue _. destruct value; try reflexivity. discriminate.
  - cbv -[num_toString num_zero]. rewrite num_zero_toString. reflexivity.
Qed.

End CsvFacts.

Lemma csv_layout_witness :
  let records := [[("name", VStr "Jane, Q.")]; [("name", VStr "Al")]] in
  length (ContractProcessor.processRecordsForCSV records) = 2%nat
  /\ ContractProcessor.convertToCSV records
     = "name,award_amount,total_potential_value,number_of_offers,"
       +++ "sdvosb_status,small_business_status,women_owned_status"
       +++ ContractProcessor.newline
       +++ quoted "Jane, Q." +++ ",0,0,0,No,No,No"
       +++ ContractProcessor.newline
       +++ "Al,0,0,0,No,No,No".
Proof.
  intros records.
  destruct (csv_layout (Num := IntegerNumbers)) as (_ & Hrows & _).
  destruct (Hrows records) as [Hlen Hcsv].
  - discriminate.
  - repeat constructor; simpl; intuition discriminate.
  - repeat constructor.
  - repeat constructor; left; reflexivity.
  - split; [exact Hlen|]. rewrite Hcsv. reflexivity.
Defined.

(** The record of the example does not come out as the two rows [name]
    and ["Jane, Q."]. *)
Lemma csv_example_has_more_columns :
  ContractProcessor.convertToCSV [[("name", VStr "Jane, Q.")]]
  <> "name" +++ ContractProcessor.newline +++ quoted "Jane, Q.".
Proof. vm_compute. discriminate. Qed.


(* ===================================================================== *)
(** * Properties of the query string *)
(* ===================================================================== *)

Section QueryFacts.
Import URLSearchParams.

Lemma string_app_assoc (a b c : string) : (a +++ b) +++ c = a +++ (b +++ c).
Proof.
  induction a as [|x a IH]; [reflexivity|].
  cbn [String.append]. now rewrite IH.
Qed.

Lemma has_char_app c (a b : string) :
  has_char c (a +++ b) = has_char c a || has_char c b.
Proof.
  induction a as [|x a IH]; [reflexivity|].
  cbn [String.append has_char]. now rewrite IH, orb_assoc.
Qed.

Lemma replaceAll_app c rep (a b : string) :
  replaceAll c rep (a +++ b) = replaceAll c rep a +++ replaceAll c rep b.
Proof.
  induction a as [|x a IH]; [reflexivity|].
  cbn [String.append replaceAll]. rewrite IH.
  now rewrite string_app_assoc.
Qed.

Lemma encode_cons c (s : string) : encode (String c s) = piece c +++ encode s.
Proof. reflexivity. Qed.

Ltac each_byte c :=
  destruct c as [[] [] [] [] [] [] [] []]; reflexivity.

(** No byte is written with one of the delimiters of a URL query. *)
Lemma piece_clean c :
  has_char "&" (piece c) = false
  /\ has_char "=" (piece c) = false
  /\ has_char "#" (piece c) = false.
Proof. repeat split; each_byte c. Qed.

Lemma encode_clean (s : string) :
  has_char "&" (encode s) = false
  /\ has_char "=" (encode s) = false
  /\ has_char "#" (encode s) = false.
Proof.
  induction s as [|c s (IH1 & IH2 & IH3)]; [repeat split|].
  rewrite encode_cons, !has_char_app, IH1, IH2, IH3.
  destruct (piece_clean c) as (-> & -> & ->). repeat split.
Qed.

(** Decoding undoes the encoding of one byte, whatever follows. *)
Lemma decode_piece c (rest : string) :
  percent_decode (replaceAll "+" " " (piece c) +++ rest)
  = String c (percent_decode rest).
Proof. each_byte c. Qed.

Lemma decode_encode (s : string) : decode_component (encode s) = s.
Proof.
  unfold decode_component. induction s as [|c s IH]; [reflexivity|].
  rewrite encode_cons, replaceAll_app, decode_piece. now rewrite IH.
Qed.

Lemma split_clean sep (a : string) :
  has_char sep a = false -> split sep a = [a].
Proof.
  induction a as [|c a IH]; [reflexivity|]. cbn [has_char split].
  intros Hc. apply orb_false_iff in Hc as [Hc Ha].
  rewrite Ascii.eqb_sym, Hc, IH by assumption. reflexivity.
Qed.

Lemma split_at sep (a b : string) :
  has_char sep a = false ->
  split sep (a +++ String sep b) = a :: split sep b.
Proof.
  induction a as [|c a IH]; cbn [has_char split String.append].
  - intros _. now rewrite Ascii.eqb_refl.
  - intros Hc. apply orb_false_iff in Hc as [Hc Ha].
    rewrite Ascii.eqb_sym, Hc, IH by assumption. reflexivity.
Qed.

Lemma cut_at sep (a b : string) :
  has_char sep a = false ->
  cut sep (a +++ String sep b) = Some (a, b).
Proof.
  induction a as [|c a IH]; cbn [has_char cut String.append].
  - intros _. now rewrite Ascii.eqb_refl.
  - intros Hc. apply orb_false_iff in Hc as [Hc Ha].
    rewrite Ascii.eqb_sym, Hc, IH by assumption. reflexivity.
Qed.

Lemma cut_none sep (a : string) : has_char sep a = false -> cut sep a = None.
Proof.
  induction a as [|c a IH]; [reflexivity|]. cbn [has_char cut].
  intros Hc. apply orb_false_iff in Hc as [Hc Ha].
  rewrite Ascii.eqb_sym, Hc, IH by assumption. reflexivity.
Qed.

Lemma pair_text_no_amp kv : has_char "&" (pair_text kv) = false.
Proof.
  unfold pair_text. rewrite !has_char_app.
  destruct (encode_clean (fst kv)) as (-> & _).
  destruct (encode_clean (snd kv)) as (-> & _). reflexivity.
Qed.

Lemma split_serialize (pairs : list (string * string)) :
  pairs <> [] -> split "&" (serialize pairs) = map pair_text pairs.
Proof.
  unfold serialize, join. fold pair_text.
  induction pairs as [|kv [|kv' pairs] IH]; intros Hne; [congruence| |].
  - cbn [map String.concat]. apply split_clean, pair_text_no_amp.
  - change (String.concat "&" (map pair_text (kv :: kv' :: pairs)))
      with (pair_text kv +++ String "&" (String.concat "&" (map pair_text (kv' :: pairs)))).
    rewrite split_at by apply pair_text_no_amp.
    now rewrite IH by congruence.
Qed.

(** Parsing what [serialize] wrote gives the pairs back. *)
Lemma parse_serialize (pairs : list (string * string)) :
  parse (serialize pairs) = pairs.
Proof.
  destruct pairs as [|kv pairs]; [reflexivity|].
  unfold parse. rewrite split_serialize by congruence.
  generalize (kv :: pairs) as l. clear.
  induction l as [|[k v] l IH]; [reflexivity|].
  cbn [map flat_map]. rewrite IH.
  unfold pair_text at 1 2. cbn [fst snd].
  destruct (encode_clean k) as (_ & Hk & _).
  change (encode k +++ "=" +++ encode v)
    with (encode k +++ String "=" (encode v)).
  rewrite cut_at by assumption. rewrite !decode_encode.
  destruct (encode k); reflexivity.
Qed.

Lemma serialize_no_hash (pairs : list (string * string)) :
  has_char "#" (serialize pairs) = false.
Proof.
  unfold serialize, join. fold pair_text.
  assert (Hpair : forall kv, has_char "#" (pair_text kv) = false).
  { intros kv. unfold pair_text. rewrite !has_char_app.
    destruct (encode_clean (fst kv)) as (_ & _ & ->).
    destruct (encode_clean (snd kv)) as (_ & _ & ->). reflexivity. }
  induction pairs as [|kv [|kv' pairs] IH]; [reflexivity|apply Hpair|].
  change (String.concat "&" (map pair_text (kv :: kv' :: pairs)))
    with (pair_text kv +++ "&" +++ String.concat "&" (map pair_text (kv' :: pairs))).
  now rewrite !has_char_app, Hpair, IH.
Qed.

Context {Num : JsNumber}.
Import Validators Transport Request.

Lemma append_each (params : JsObj) : forall queryParams,
  fold_left
    (fun queryParams kv =>
       if present (snd kv)
       then URLSearchParams.append queryParams (fst kv) (toString (snd kv))
       else queryParams)
    params queryParams
  = queryParams ++ as_usv (sent params).
Proof.
  unfold as_usv.
  induction params as [|kv params IH]; intros acc;
    cbn [fold_left sent flat_map map].
  - now rewrite app_nil_r.
  - rewrite IH. fold (sent params).
    destruct (present (snd kv)); [|reflexivity].
    unfold URLSearchParams.append. cbn [app map fst snd].
    now rewrite <- app_assoc.
Qed.

Lemma buildQueryString_sent (params : JsObj) :
  buildQueryString params = serialize (as_usv (sent params)).
Proof. unfold buildQueryString. now rewrite append_each. Qed.

Lemma as_params_sent (params : JsObj) :
  Forall (fun kv =>
            isWellFormed (fst kv) = true
            /\ exists s, snd kv = VStr s /\ s <> "" /\ isWellFormed s = true)
         params ->
  as_params (as_usv (sent params)) = params.
Proof.
  induction 1 as [|[k v] params (Hk & s & Hv & Hs & Hwf) _ IH]; [reflexivity|].
  cbn [sent flat_map]. fold (sent params). cbn [snd fst] in *. subst v.
  apply String.eqb_neq in Hs. cbn [present eq_str]. rewrite Hs.
  cbn [negb app as_usv as_params map toString fst snd].
  fold (as_usv (sent params)). fold (as_params (as_usv (sent params))).
  now rewrite IH, !toWellFormed_id.
Qed.

(** C6, as the code has it. For parameters of the declared type, a
    string, a list of strings or [undefined] each, listed in the order
    of their properties, and a base URL without [?] and [#]: decoding
    the query
    of the search URL gives the entries that [buildQueryString] sends:
    those whose value is not [undefined] or the empty string, each key
    with the string form of its value (a list joined by commas), every
    lone surrogate of either replaced by U+FFFD. When every key is
    well formed and every value a non-empty well-formed string this is
    the parameter set itself. *)
Theorem search_url_round_trip (this : FPDSRequest (Num := Num)) :
  has_char "?" (baseUrl (config this)) = false ->
  has_char "#" (baseUrl (config this)) = false ->
  js_object (params this) ->
  Forall (fun kv => search_value (snd kv) = true) (params this) ->
  parse (query_of (buildSearchUrl this)) = as_usv (sent (params this))
  /\ (Forall (fun kv =>
                isWellFormed (fst kv) = true
                /\ exists s, snd kv = VStr s /\ s <> ""
                             /\ isWellFormed s = true)
             (params this) ->
      as_params (parse (query_of (buildSearchUrl this))) = params this).
Proof.
  intros Hquery Hhash _ _.
  assert (Hparse : parse (query_of (buildSearchUrl this))
                   = as_usv (sent (params this))).
  { unfold buildSearchUrl, query_of, before.
    rewrite buildQueryString_sent.
    rewrite (cut_none "#") by
      (now rewrite !has_char_app, Hhash, serialize_no_hash).
    change (baseUrl (config this) +++ "?"
            +++ serialize (as_usv (sent (params this))))
      with (baseUrl (config this)
            +++ String "?" (serialize (as_usv (sent (params this))))).
    rewrite cut_at by assumption. apply parse_serialize. }
  split; [exact Hparse|].
  intros Hvalues. rewrite Hparse. now apply as_params_sent.
Qed.

End QueryFacts.

Lemma search_url_round_trip_witness :
  let this :=
    Request.mkRequest
      [("PIID", VStr "HT001525D9012");
       ("LAST_MOD_DATE", VStr "[2022/01/01, 2024/12/31]")]
      Transport.DEFAULT_CONFIG in
  as_params (URLSearchParams.parse
               (URLSearchParams.query_of (Request.buildSearchUrl this)))
  = Request.params this.
Proof.
  intros this.
  destruct (search_url_round_trip this) as [_ Hsame];
    [reflexivity | reflexivity | | repeat constructor |].
  { split; [|reflexivity].
    simpl. repeat constructor; simpl; intuition discriminate. }
  apply Hsame.
  repeat constructor; eexists; (split; [reflexivity|split; [discriminate|reflexivity]]).
Defined.

(** An empty-string value is dropped from the query and a list comes
    back as one comma-joined string, although both pass validation. *)
Lemma search_url_loses_empty_and_lists :
  let params := [("VENDOR_NAME", VStr ""); ("PIID", VArr [VStr "A1"; VStr "B2"])] in
  let this := Request.mkRequest params Transport.DEFAULT_CONFIG in
  Validators.validateSearchParams params = Ok tt
  /\ URLSearchParams.parse
       (URLSearchParams.query_of (Request.buildSearchUrl this))
     = [("PIID", "A1,B2")]
  /\ as_params (URLSearchParams.parse
                  (URLSearchParams.query_of (Request.buildSearchUrl this)))
     <> params.
Proof. repeat split. discriminate. Qed.

(* ===================================================================== *)
(** * Properties of [Promise.all] and of tasks behind the semaphore *)
(* ===================================================================== *)

Section PromiseFacts.
Import Async.
Context {E A : Type}.

Lemma filled_fmap (vs : list A) : filled (map Some vs) = Some vs.
Proof. induction vs as [|v vs IH]; simpl; [|rewrite IH]; reflexivity. Qed.

Lemma filled_Some (slots : list (option A)) vs :
  filled slots = Some vs -> slots = map Some vs.
Proof.
  revert vs. induction slots as [|[v|] slots IH]; simpl; intros vs Hf.
  - now injection Hf as <-.
  - destruct (filled slots) as [ws|]; [|discriminate].
    injection Hf as <-. simpl. f_equal. now apply IH.
  - discriminate.
Qed.

Lemma filled_None (slots : list (option A)) :
  filled slots = None -> exists i, slots !! i = Some None.
Proof.
  induction slots as [|[v|] slots IH]; simpl; intros Hf.
  - discriminate.
  - destruct (filled slots); [discriminate|].
    destruct (IH eq_refl) as [i Hi]. now exists (S i).
  - now exists 0%nat.
Qed.

Lemma agree_filled (values : list A) (slots : list (option A)) vs :
  agree values slots -> filled slots = Some vs -> vs = values.
Proof.
  intros [Hlen Hag] Hf. apply filled_Some in Hf. subst slots.
  rewrite length_map in Hlen.
  apply list_eq. intros i.
  destruct (vs !! i) as [v|] eqn:Hv.
  - symmetry. apply Hag. now rewrite list_lookup_fmap, Hv.
  - symmetry. apply lookup_ge_None. apply lookup_ge_None in Hv. lia.
Qed.

Lemma settle_fulfilled (values : list A) (order : list nat) :
  forall slots,
    agree values slots ->
    (forall i, slots !! i = Some None -> In i order) ->
    settle (E := E) (map (fun v => Some (Ok v)) values) order slots
    = Some (Ok values).
Proof.
  induction order as [|i order IH]; intros slots Hag Hleft; simpl.
  - destruct (filled slots) as [vs|] eqn:Hf.
    + now rewrite (agree_filled _ _ _ Hag Hf).
    + destruct (filled_None _ Hf) as [j Hj]. destruct (Hleft j Hj).
  - destruct (filled slots) as [vs|] eqn:Hf;
      [now rewrite (agree_filled _ _ _ Hag Hf)|].
    rewrite list_lookup_fmap.
    destruct (values !! i) as [v|] eqn:Hv; simpl.
    + apply IH.
      * destruct Hag as [Hlen Hag]. split; [now rewrite length_insert|].
        intros j w Hj. destruct (decide (i = j)) as [->|Hne].
        -- rewrite list_lookup_insert_eq in Hj
             by (rewrite Hlen; now apply lookup_lt_Some in Hv).
           congruence.
        -- rewrite list_lookup_insert_ne in Hj by assumption. now apply Hag.
      * intros j Hj. destruct (decide (i = j)) as [->|Hne].
        -- destruct Hag as [Hlen _].
           rewrite list_lookup_insert_eq in Hj
             by (rewrite Hlen; now apply lookup_lt_Some in Hv).
           discriminate.
        -- rewrite list_lookup_insert_ne in Hj by assumption.
           destruct (Hleft j Hj) as [->|Hin]; [congruence | assumption].
    + apply IH; [assumption|]. intros j Hj.
      destruct (Hleft j Hj) as [->|Hin]; [|assumption].
      destruct Hag as [Hlen _].
      apply lookup_lt_Some in Hj. apply lookup_ge_None in Hv. lia.
Qed.

(** When every promise fulfils and every one of them is in the order of
    settlement, [Promise.all] fulfils with their values in the order of
    the promises, not of the settlements. *)
Lemma promise_all_fulfilled (values : list A) (order : list nat) :
  (forall i, (i < length values)%nat -> In i order) ->
  promise_all (E := E) (map (fun v => Some (Ok v)) values) order
  = Some (Ok values).
Proof.
  intros Hall. unfold promise_all. rewrite length_map.
  apply settle_fulfilled.
  - split; [apply length_replicate|].
    intros i v Hi. apply lookup_replicate in Hi as [Hi _]. discriminate.
  - intros i Hi. apply Hall. apply lookup_replicate in Hi as [_ Hi]. exact Hi.
Qed.

End PromiseFacts.

(** ** Tasks behind the semaphore always get to finish

    With at least one permit and nobody queued, the tasks started
    together can all finish, for instance in the order they were
    started: the schedules under which every task completes are not an
    empty case. *)
Section PoolFacts.
Import Semaphore Async.

Lemma launch_admitted : forall (n a : nat) (c : Z) (held : list Task),
  Z.of_nat n <= c ->
  fold_left (fun sy t => do_acquire t sy) (seq a n)
            (mkSystem (mkSemaphore c []) held)
  = mkSystem (mkSemaphore (c - Z.of_nat n) []) (held ++ seq a n).
Proof.
  induction n as [|n IH]; intros a c held Hc.
  - simpl. now rewrite Z.sub_0_r, app_nil_r.
  - cbn [seq fold_left]. unfold do_acquire at 2, acquire. cbn [sem permits queue holders].
    destruct (0 <? c) eqn:Hfree; [|apply Z.ltb_ge in Hfree; lia].
    cbn [admitted]. rewrite IH by lia. rewrite <- app_assoc. do 2 f_equal. lia.
Qed.

Lemma launch_queued : forall (n a : nat) (waiting held : list Task),
  fold_left (fun sy t => do_acquire t sy) (seq a n)
            (mkSystem (mkSemaphore 0 waiting) held)
  = mkSystem (mkSemaphore 0 (waiting ++ seq a n)) held.
Proof.
  induction n as [|n IH]; intros a waiting held.
  - simpl. now rewrite app_nil_r.
  - cbn [seq fold_left]. unfold do_acquire at 2, acquire.
    cbn [sem permits queue holders Z.ltb Z.compare admitted].
    rewrite app_nil_r, IH, <- app_assoc. reflexivity.
Qed.

Lemma finish_in_order : forall (n h q k : nat) (c : Z)
    (held waiting done : list Task),
  held = seq k h ->
  waiting = seq (k + h) q ->
  (h + q = n)%nat ->
  (0 < q -> 0 < h)%nat ->
  finished (run (seq k n) (mkPool (mkSystem (mkSemaphore c waiting) held) done))
  = done ++ seq k n.
Proof.
  induction n as [|n IH]; intros h q k c held waiting done -> -> Hsum Hheld.
  - simpl. now rewrite app_nil_r.
  - destruct h as [|h]; [lia|].
    cbn [seq run fold_left]. unfold finish at 2.
    cbn [sys holders seq existsb]. rewrite Nat.eqb_refl. cbn [orb].
    unfold do_release, release. cbn [sem queue permits holders remove_one].
    rewrite Nat.eqb_refl.
    destruct q as [|q]; cbn [seq admitted finished].
    + etransitivity; [apply (IH h 0%nat (S k)); try reflexivity; try lia|].
      * now rewrite app_nil_r.
      * now rewrite <- app_assoc.
    + etransitivity; [apply (IH (S h) q (S k)); try reflexivity; try lia|].
      * rewrite seq_S. f_equal. f_equal. lia.
      * now rewrite <- app_assoc.
Qed.

Lemma launch_state (c : Z) (count : nat) :
  0 < c ->
  let h := Nat.min (Z.to_nat c) count in
  fold_left (fun sy t => do_acquire t sy) (seq 0 count)
            (mkSystem (mkSemaphore c []) [])
  = mkSystem (mkSemaphore (c - Z.of_nat h) (seq h (count - h))) (seq 0 h).
Proof.
  intros Hc h.
  assert (Hsplit : seq 0 count = seq 0 h ++ seq h (count - h)).
  { rewrite <- seq_app. f_equal. lia. }
  rewrite Hsplit, fold_left_app, launch_admitted by lia. cbn [app].
  destruct (count - h)%nat as [|q] eqn:Hq; [reflexivity|].
  replace (c - Z.of_nat h) with 0 by lia.
  now rewrite launch_queued.
Qed.

Lemma fifo_schedule_completes (s : Semaphore) (count : nat) :
  0 < permits s ->
  queue s = [] ->
  completion_order s count (seq 0 count) = seq 0 count.
Proof.
  intros Hpermit Hqueue. destruct s as [c waiting]. simpl in *. subst waiting.
  unfold completion_order, launch. rewrite launch_state by assumption.
  apply (finish_in_order count (Nat.min (Z.to_nat c) count)
           (count - Nat.min (Z.to_nat c) count) 0 _ _ _ []);
    try reflexivity; lia.
Qed.

End PoolFacts.

(* ===================================================================== *)
(** * Properties of the fetch orchestrator *)
(* ===================================================================== *)

Section RequestFacts.
Import Validators Transport Async Request.
Context {Num : JsNumber}.
Variable xml_parse : string -> Outcome string JsVal.
Variable fetch : string -> Z -> FetchOutcome.

Local Abbreviation page_work := (page_work xml_parse fetch).
Local Abbreviation fetchPage := (fetchPage xml_parse fetch).
Local Abbreviation getFirstPage := (getFirstPage xml_parse fetch).
Local Abbreviation getDataFrom := (getDataFrom xml_parse fetch).
Local Abbreviation getData := (getData xml_parse fetch).
Local Abbreviation search_task := (search_task xml_parse fetch).
Local Abbreviation searchContracts := (searchContracts xml_parse fetch).
Local Abbreviation kept_records := (kept_records xml_parse fetch).

(** C2. When the first page reports more than one page, every
    remaining page is fetched successfully and every page task
    finishes, [getData] returns the records of page 1 followed by those
    of pages 2, 3, ... in this order, whatever the order in which the
    tasks finish. *)
Theorem multi_page_order (firstPage : FirstPage) (this : FPDSRequest)
    (schedule : list Semaphore.Task) (firstPageRecords : list JsObj)
    (pagination : PaginationInfo) (s : Semaphore.Semaphore)
    (remainingPages : list (list JsObj)) :
  firstPage (Semaphore.create (threadCount (config this)))
  = Some (Ok (firstPageRecords, pagination), s) ->
  1 < totalPages pagination ->
  map (page_work this) (remaining_pages (totalPages pagination))
  = map Ok remainingPages ->
  (forall i, (i < length remainingPages)%nat ->
             In i (completion_order s (length remainingPages) schedule)) ->
  getDataFrom firstPage this schedule
  = Some (Ok (firstPageRecords ++ concat remainingPages)).
Proof.
  intros Hfirst Hmany Hpages Hdone. unfold getDataFrom. rewrite Hfirst.
  destruct (totalPages pagination <=? 1) eqn:Hle;
    [apply Z.leb_le in Hle; lia|].
  assert (Hlen : length (remaining_pages (totalPages pagination))
                 = length remainingPages).
  { rewrite <- (length_map (page_work this)), Hpages. apply length_map. }
  rewrite Hlen.
  replace (map (fun page => Some (page_work this page))
               (remaining_pages (totalPages pagination)))
    with (map (fun v : list JsObj => Some (Ok (E := Thrown) v)) remainingPages).
  - now rewrite promise_all_fulfilled.
  - rewrite <- (map_map Ok Some), <- Hpages. now rewrite map_map.
Qed.

(** C3. The pagination [getFirstPage] builds has [totalPages = 1] and
    takes both counts from the number of records of page 1; so
    [getData] never reaches the fan-out and is the fetch of page 1: the
    same records, the same error, or no result at all when the gate has
    no permit to give. *)
Theorem first_page_is_all (this : FPDSRequest) (schedule : list Semaphore.Task) :
  (forall s records pagination s',
     getFirstPage this s = Some (Ok (records, pagination), s') ->
     currentPage pagination = 1
     /\ totalPages pagination = 1
     /\ totalRecords pagination = Z.of_nat (length records)
     /\ recordsPerPage pagination = Z.of_nat (length records))
  /\ getData this schedule
     = option_map fst
         (fetchPage this 1 (Semaphore.create (threadCount (config this)))).
Proof.
  split.
  - intros s records pagination s' Hfirst. unfold Request.getFirstPage in Hfirst.
    destruct (fetchPage this 1 s) as [[[rs|e] s1]|]; try discriminate.
    simpl in Hfirst. injection Hfirst as <- <- <-. simpl. tauto.
  - unfold Request.getData, Request.getDataFrom, Request.getFirstPage.
    destruct (fetchPage this 1 _) as [[[rs|e] s1]|]; reflexivity.
Qed.

Lemma construct_valid (request : ContractSearchRequest) options contractNumber :
  validatePIID contractNumber = true ->
  (forall d, dateRange request = Some d -> validateDateRange d = true) ->
  construct
    [("PIID", VStr contractNumber);
     ("LAST_MOD_DATE",
      match dateRange request with Some d => VStr d | None => VUndefined end)]
    options
  = Ok (contract_query request options contractNumber).
Proof.
  intros Hpiid Hdate. unfold construct, contract_query.
  cbn [validateSearchParams validateParam one_of existsb String.eqb Ascii.eqb
       Bool.eqb orb check bind].
  rewrite Hpiid. cbn [negb bind].
  destruct (dateRange request) as [d|]; [|reflexivity].
  cbn [validateParam one_of existsb String.eqb Ascii.eqb Bool.eqb orb check].
  now rewrite (Hdate d eq_refl).
Qed.

Lemma getData_settles (this : FPDSRequest) schedule :
  0 < threadCount (config this) ->
  getData this schedule = Some (page_work this 1).
Proof.
  intros Hpermit.
  unfold Request.getData, Request.getDataFrom, Request.getFirstPage,
    Request.fetchPage, Semaphore.acquire, Semaphore.create.
  cbn [Semaphore.permits]. apply Z.ltb_lt in Hpermit. rewrite Hpermit.
  now destruct (page_work this 1).
Qed.

(** C1, as the code has it. With a positive [threadCount], contract
    identifiers that pass [validatePIID] and a date range that is
    absent or passes [validateDateRange], [searchContracts] completes
    without throwing once every query has settled, whatever the order:
    it returns, in the order of the identifiers, the records of the
    queries whose fetch succeeded, a query whose fetch failed
    contributing none. *)
Theorem search_contracts_isolates_fetch_failures
    (request : ContractSearchRequest) (options : ConfigOptions)
    (schedules : string -> list Semaphore.Task) (order : list nat) :
  0 < threadCount (with_defaults options) ->
  Forall (fun c => validatePIID c = true) (contracts request) ->
  (forall d, dateRange request = Some d -> validateDateRange d = true) ->
  (forall i, (i < length (contracts request))%nat -> In i order) ->
  searchContracts request options schedules order
  = Some (Ok (flat_map (kept_records request options schedules)
                       (contracts request))).
Proof.
  intros Hpermit Hpiid Hdate Hall. unfold Request.searchContracts.
  replace (map (fun contractNumber =>
                  search_task request options (schedules contractNumber)
                              contractNumber) (contracts request))
    with (map (fun v : list JsObj => Some (Ok (E := Thrown) v))
              (map (kept_records request options schedules) (contracts request))).
  - rewrite promise_all_fulfilled by (now rewrite length_map).
    now rewrite flat_map_concat_map.
  - rewrite map_map. apply map_ext_in. intros c Hc.
    rewrite List.Forall_forall in Hpiid.
    unfold Request.search_task, Spec.kept_records.
    rewrite (construct_valid request options c (Hpiid c Hc) Hdate).
    rewrite getData_settles by assumption.
    destruct (page_work _ 1); reflexivity.
Qed.

End RequestFacts.

(** Pages 2 and 3 of three, page 3 finishing first. *)
Lemma multi_page_order_witness :
  let this := Request.mkRequest [("PIID", VStr "B")] Transport.DEFAULT_CONFIG in
  Request.getDataFrom Sample.xml_parse Sample.fetch (Sample.three_pages this)
    this [1; 0]%nat
  = Some (Ok (Sample.records_of (Sample.search_url +++ "?PIID=B&page=1")
              ++ concat [Sample.records_of (Sample.search_url +++ "?PIID=B&page=2");
                         Sample.records_of (Sample.search_url +++ "?PIID=B&page=3")])).
Proof.
  intros this.
  apply (multi_page_order Sample.xml_parse Sample.fetch (Sample.three_pages this)
           this [1; 0]%nat
           (Sample.records_of (Sample.search_url +++ "?PIID=B&page=1"))
           (Request.mkPagination 1 3 1 1) (Semaphore.create 10)).
  - vm_compute. reflexivity.
  - simpl. lia.
  - vm_compute. reflexivity.
  - intros i Hi. vm_compute.
    destruct i as [|[|i]]; [tauto | tauto | simpl in Hi; lia].
Defined.

(** Contract [A] fails on every retry, contract [B] succeeds, and [B]
    settles first. *)
Lemma search_contracts_isolates_fetch_failures_witness :
  Request.searchContracts Sample.xml_parse Sample.fetch
    (Request.mkSearch ["A"; "B"] None None) Request.no_options
    (fun _ => []) [1; 0]%nat
  = Some (Ok (Sample.records_of (Sample.search_url +++ "?PIID=B&page=1"))).
Proof.
  rewrite search_contracts_isolates_fetch_failures.
  - vm_compute. reflexivity.
  - simpl. lia.
  - repeat constructor.
  - discriminate.
  - intros i Hi. destruct i as [|[|i]]; simpl; [tauto | tauto | simpl in Hi; lia].
Defined.

(** A blank contract identifier makes the constructor throw outside
    the [try], and the error leaves [searchContracts]. *)
Lemma search_contracts_validation_escapes :
  Request.searchContracts Sample.xml_parse Sample.fetch
    (Request.mkSearch ["B"; ""] None None) Request.no_options
    (fun _ => []) [1; 0]%nat
  = Some (Throw (Transport.Raised
                   (ValidationError "PIID" ""
                      ["Contract ID cannot be empty";
                       "Remove any leading/trailing whitespace"]))).
Proof. vm_compute. reflexivity. Qed.

(* ===================================================================== *)
(** * Further properties of the validators *)
(* ===================================================================== *)

Import Spec2.

Section ValidatorFacts.
Import Validators.
Context {Num : JsNumber}.

Lemma check_throws validate key value suggestions e :
  check validate key value suggestions = Throw e ->
  exists s, value = VStr s /\ validate s = false
            /\ e = ValidationError key s suggestions.
Proof.
  unfold check. destruct value; try discriminate.
  destruct (validate s) eqn:Hv; simpl; [discriminate|].
  intros [= <-]. eauto.
Qed.

Lemma validateParam_throws key value e :
  validateParam key value = Throw e ->
  exists s suggestions,
    value = VStr s /\ e = ValidationError key s suggestions
    /\ In key validated_keys.
Proof.
  unfold validateParam. intros H.
  assert (Hkeys : forall labels, one_of key labels = true ->
                   incl labels validated_keys -> In key validated_keys).
  { intros labels Hone Hincl. apply existsb_exists in Hone as (l & Hl & Heq).
    apply String.eqb_eq in Heq. subst l. now apply Hincl. }
  destruct value; try discriminate;
    repeat match type of H with
    | (if one_of key ?labels then _ else _) = _ =>
        destruct (one_of key labels) eqn:?
    end; try discriminate;
    apply check_throws in H as (s' & Hs & _ & ->); injection Hs as <-;
    do 2 eexists; (split; [reflexivity|]); (split; [reflexivity|]);
    (eapply Hkeys; [eassumption|]);
    unfold validated_keys; intros x Hx; simpl in Hx |- *; intuition.
Qed.

(** X1. [validateSearchParams] throws nothing but a [ValidationError],
    and only for an entry of the parameters whose key has a [case] in
    the [switch] and whose value is a string; parameters that hold no
    string under those keys (absent, lists, numbers) always pass. *)
Theorem validation_rejects_only_strings (params : JsObj) :
  (forall e, validateSearchParams params = Throw e ->
     exists key s suggestions,
       e = ValidationError key s suggestions
       /\ In (key, VStr s) params /\ In key validated_keys)
  /\ ((forall key value, In (key, value) params ->
         In key validated_keys -> is_string value = false) ->
      validateSearchParams params = Ok tt).
Proof.
  split.
  - induction params as [|[key value] params IH]; intros e He; [discriminate|].
    cbn [validateSearchParams] in He.
    destruct (validateParam key value) as [[]|e'] eqn:Hp; cbn [bind] in He.
    + destruct (IH e He) as (k & s & sg & -> & Hin & Hk).
      exists k, s, sg. simpl. tauto.
    + injection He as <-.
      apply validateParam_throws in Hp as (s & sg & -> & -> & Hk).
      exists key, s, sg. simpl. tauto.
  - induction params as [|[key value] params IH]; intros Hno; [reflexivity|].
    cbn [validateSearchParams].
    destruct (validateParam key value) as [[]|e'] eqn:Hp; cbn [bind].
    + apply IH. intros k v Hin. apply Hno. now right.
    + apply validateParam_throws in Hp as (s & sg & -> & _ & Hk).
      specialize (Hno key (VStr s) (or_introl eq_refl) Hk). discriminate.
Qed.

Lemma times_class (p : ascii -> bool) : forall (n : nat) (s rest : string),
  times n (char_class p) s = Some rest <->
  exists pre, s = pre +++ rest /\ String.length pre = n
              /\ all_chars p pre = true.
Proof.
  induction n as [|n IH]; intros s rest; cbn [times].
  - split.
    + intros [= ->]. exists "". now repeat split.
    + intros (pre & -> & Hlen & _). destruct pre; [reflexivity|discriminate].
  - unfold seq_, char_class at 1. split.
    + destruct s as [|c s]; [discriminate|].
      destruct (p c) eqn:Hc; [|discriminate]. intros H.
      apply IH in H as (pre & -> & Hlen & Hall).
      exists (String c pre). cbn. rewrite Hc, Hall, Hlen. now repeat split.
    + intros (pre & -> & Hlen & Hall). destruct pre as [|c pre]; [discriminate|].
      cbn in Hall |- *. apply andb_prop in Hall as [-> Hall].
      apply IH. exists pre. repeat split; [|assumption]. now injection Hlen.
Qed.

Lemma append_empty_r (s : string) : s +++ "" = s.
Proof. induction s as [|c s IH]; [reflexivity|]. cbn. now rewrite IH. Qed.

Lemma test_times (p : ascii -> bool) (n : nat) (s : string) :
  test (times n (char_class p)) s = true <->
  String.length s = n /\ all_chars p s = true.
Proof.
  unfold test. split.
  - destruct (times n (char_class p) s) as [[|]|] eqn:H; try discriminate.
    intros _. apply times_class in H as (pre & -> & Hlen & Hall).
    now rewrite append_empty_r.
  - intros [Hlen Hall].
    assert (H : times n (char_class p) s = Some "").
    { apply times_class. exists s. now rewrite append_empty_r. }
    now rewrite H.
Qed.

(** X2. The code validators accept exactly the strings of the stated
    shape: six digits for a NAICS code, four digits for an agency code,
    two capital letters for a state code, and a capital letter followed
    by three digits for a PSC code. *)
Theorem code_validators_exact (s : string) :
  (validateNAICSCode s = true <->
     String.length s = 6%nat /\ all_chars is_digit s = true)
  /\ (validateAgencyCode s = true <->
       String.length s = 4%nat /\ all_chars is_digit s = true)
  /\ (validateStateCode s = true <->
       String.length s = 2%nat /\ all_chars is_upper s = true)
  /\ (validatePSCCode s = true <->
       exists c digits, s = String c digits /\ is_upper c = true
                        /\ String.length digits = 3%nat
                        /\ all_chars is_digit digits = true).
Proof.
  split; [apply test_times|]. split; [apply test_times|].
  split; [apply test_times|].
  unfold validatePSCCode, test, seq_, upper, char_class at 1.
  destruct s as [|c digits].
  - split; [discriminate|]. intros (? & ? & [=] & _).
  - destruct (is_upper c) eqn:Hc.
    + fold (test (times 3 digit) digits). unfold digit. rewrite test_times.
      split.
      * intros [Hlen Hall]. exists c, digits. now repeat split.
      * intros (c' & d' & [= <- <-] & _ & Hlen & Hall). now split.
    + split; [discriminate|].
      intros (c' & d' & [= <- <-] & Hup & _). congruence.
Qed.

(** X3. [parseFloatSafe] and [parseIntSafe] give [0] for every falsy
    input and never give [NaN]. *)
Theorem parse_safe_never_NaN (value : JsVal) :
  num_isNaN num_zero = false ->
  (truthy value = false ->
     parseFloatSafe value = num_zero /\ parseIntSafe value = num_zero)
  /\ num_isNaN (parseFloatSafe value) = false
  /\ num_isNaN (parseIntSafe value) = false.
Proof.
  intros Hzero. unfold parseFloatSafe, parseIntSafe. split; [|split].
  - intros ->. now split.
  - destruct (truthy value); cbn [negb]; [|assumption].
    destruct (num_isNaN (str_parseFloat _)) eqn:Hn; assumption.
  - destruct (truthy value); cbn [negb]; [|assumption].
    destruct (num_isNaN (str_parseInt _)) eqn:Hn; assumption.
Qed.

(** X4. [convertBooleanToString] answers ['Yes'] for the boolean [true]
    and for the string ['true'], and ['No'] for every other value. *)
Theorem boolean_string_exact (value : JsVal) :
  (convertBooleanToString value = "Yes" <->
     value = VBool true \/ value = VStr "true")
  /\ (value <> VBool true -> value <> VStr "true" ->
      convertBooleanToString value = "No").
Proof.
  unfold convertBooleanToString, eq_str. split.
  - split.
    + destruct value as [| |[]| |s| |]; try discriminate; auto.
      destruct (String.eqb s "true") eqn:Hs; [|discriminate].
      apply String.eqb_eq in Hs. subst. auto.
    + intros [-> | ->]; reflexivity.
  - intros Hb Hs. destruct value as [| |[]| |s| |]; try reflexivity;
      [congruence|].
    destruct (String.eqb s "true") eqn:Heq; [|reflexivity].
    apply String.eqb_eq in Heq. subst. congruence.
Qed.

End ValidatorFacts.

Lemma validation_rejects_only_strings_witness :
  Validators.validateSearchParams
    [("PIID", VArr [VStr ""]); ("NAICS_CODE", VUndefined);
     ("VENDOR_NAME", VStr "")]
  = Ok tt.
Proof.
  apply validation_rejects_only_strings.
  intros key value [[= <- <-]|[[= <- <-]|[[= <- <-]|[]]]] Hk;
    try reflexivity.
  simpl in Hk. intuition discriminate.
Defined.

Lemma parse_safe_never_NaN_witness :
  Validators.parseFloatSafe (VStr "12") = IInt 12
  /\ num_isNaN (Validators.parseFloatSafe (VStr "n/a")) = false
  /\ num_isNaN (Validators.parseIntSafe (VStr "n/a")) = false.
Proof.
  split; [reflexivity|].
  apply (parse_safe_never_NaN (Num := IntegerNumbers) (VStr "n/a")).
  reflexivity.
Defined.

Lemma boolean_string_exact_witness :
  Validators.convertBooleanToString (Num := IntegerNumbers) (VStr "TRUE") = "No".
Proof.
  apply boolean_string_exact; discriminate.
Defined.

Lemma code_validators_exact_witness : Validators.validateNAICSCode "541511" = true.
Proof.
  destruct (code_validators_exact "541511") as [[_ Hnaics] _].
  apply Hnaics. split; reflexivity.
Defined.

(* ===================================================================== *)
(** * Further properties of strings and of the query string *)
(* ===================================================================== *)

Section StringFacts.

Lemma has_char_rev_onto c : forall s acc : string,
  has_char c (rev_onto s acc) = has_char c s || has_char c acc.
Proof.
  induction s as [|d s IH]; intros acc; [reflexivity|].
  cbn [rev_onto has_char]. rewrite IH. cbn [has_char].
  destruct (Ascii.eqb c d), (has_char c s), (has_char c acc); reflexivity.
Qed.

Lemma has_char_reverse c (s : string) : has_char c (reverse s) = has_char c s.
Proof. unfold reverse. rewrite has_char_rev_onto. cbn. apply orb_false_r. Qed.

Lemma has_char_drop c : forall (n : nat) (s : string),
  has_char c s = false -> has_char c (drop n s) = false.
Proof.
  induction n as [|n IH]; intros s Hs; [assumption|].
  destruct s as [|d s]; [reflexivity|]. cbn [drop]. apply IH.
  cbn in Hs. now apply orb_false_iff in Hs.
Qed.

Lemma has_char_strip c len : forall (fuel : nat) (s : string),
  has_char c s = false -> has_char c (strip len fuel s) = false.
Proof.
  induction fuel as [|fuel IH]; intros s Hs; [assumption|].
  cbn [strip]. destruct (len s); [assumption|]. apply IH.
  now apply has_char_drop.
Qed.

(** [trim] brings in no character the string did not have. *)
Lemma has_char_trim c (s : string) :
  has_char c s = false -> has_char c (trim s) = false.
Proof.
  intros Hs. unfold trim, trimEnd, trimStart.
  rewrite has_char_reverse. apply has_char_strip.
  rewrite has_char_reverse. now apply has_char_strip.
Qed.

Lemma has_char_removed c (s : string) : has_char c (replaceAll c "" s) = false.
Proof.
  induction s as [|d s IH]; [reflexivity|]. cbn [replaceAll].
  destruct (Ascii.eqb c d) eqn:Hcd; cbn; [assumption|]. now rewrite Hcd.
Qed.

Lemma has_char_after_removal c d (s : string) :
  has_char d s = false -> has_char d (replaceAll c "" s) = false.
Proof.
  induction s as [|x s IH]; [reflexivity|]. cbn [replaceAll has_char].
  intros H. apply orb_false_iff in H as [Hx Hs].
  destruct (Ascii.eqb c x); cbn; [now apply IH|]. now rewrite Hx, IH.
Qed.

Lemma replaceAll_absent c rep (s : string) :
  has_char c s = false -> replaceAll c rep s = s.
Proof.
  induction s as [|x s IH]; [reflexivity|]. cbn [replaceAll has_char].
  intros H. apply orb_false_iff in H as [-> Hs]. cbn. now rewrite IH.
Qed.

(** X5. The result of [sanitizeSearchTerm] holds neither [<] nor [>];
    a term without them is only trimmed. *)
Theorem sanitized_has_no_angle_brackets (term : string) :
  has_char "<" (Validators.sanitizeSearchTerm term) = false
  /\ has_char ">" (Validators.sanitizeSearchTerm term) = false
  /\ (has_char "<" term = false -> has_char ">" term = false ->
      Validators.sanitizeSearchTerm term = trim term).
Proof.
  unfold Validators.sanitizeSearchTerm. split; [|split].
  - apply has_char_after_removal, has_char_removed.
  - apply has_char_removed.
  - intros Hlt Hgt.
    rewrite (replaceAll_absent "<") by now apply has_char_trim.
    apply replaceAll_absent. now apply has_char_trim.
Qed.

Lemma sanitized_has_no_angle_brackets_witness :
  Validators.sanitizeSearchTerm "  ACME Corp " = "ACME Corp".
Proof.
  destruct (sanitized_has_no_angle_brackets "  ACME Corp ") as (_ & _ & H).
  rewrite H; reflexivity.
Defined.

Lemma all_chars_app p (a b : string) :
  all_chars p (a +++ b) = all_chars p a && all_chars p b.
Proof.
  induction a as [|c a IH]; [reflexivity|]. cbn. now rewrite IH, andb_assoc.
Qed.

Lemma piece_query_chars c : all_chars query_char (piece c) = true.
Proof.
  destruct c as [b0 b1 b2 b3 b4 b5 b6 b7].
  destruct b0, b1, b2, b3, b4, b5, b6, b7; reflexivity.
Qed.

Lemma encode_query_chars (s : string) :
  all_chars query_char (URLSearchParams.encode s) = true.
Proof.
  induction s as [|c s IH]; [reflexivity|].
  now rewrite encode_cons, all_chars_app, piece_query_chars, IH.
Qed.

Lemma serialize_query_chars (pairs : list (string * string)) :
  all_chars query_char (URLSearchParams.serialize pairs) = true.
Proof.
  unfold URLSearchParams.serialize, join. fold pair_text.
  assert (Hpair : forall kv, all_chars query_char (pair_text kv) = true).
  { intros kv. unfold pair_text.
    now rewrite !all_chars_app, !encode_query_chars. }
  induction pairs as [|kv [|kv' pairs] IH]; [reflexivity|apply Hpair|].
  change (String.concat "&" (map pair_text (kv :: kv' :: pairs)))
    with (pair_text kv +++ "&" +++ String.concat "&" (map pair_text (kv' :: pairs))).
  now rewrite !all_chars_app, Hpair, IH.
Qed.

End StringFacts.

Section PageUrlFacts.
Import URLSearchParams Validators Transport Request Stream.
Context {Num : JsNumber}.
Variable xml_parse : string -> Outcome string JsVal.
Variable fetch : string -> Z -> FetchOutcome.

(** X6. Whatever the parameters hold, the query string
    [buildQueryString] builds is made of letters, digits, [* - . _] and
    [+ % & =] only. *)
Theorem query_string_is_url_safe (params : JsObj) :
  all_chars query_char (buildQueryString params) = true.
Proof. rewrite buildQueryString_sent. apply serialize_query_chars. Qed.

Lemma query_decodes (base : string) (params : JsObj) :
  has_char "?" base = false ->
  has_char "#" base = false ->
  parse (query_of (base +++ "?" +++ buildQueryString params))
  = as_usv (sent params).
Proof.
  intros Hquery Hhash. unfold query_of, before.
  rewrite buildQueryString_sent.
  rewrite (cut_none "#") by (now rewrite !has_char_app, Hhash, serialize_no_hash).
  change (base +++ "?" +++ serialize (as_usv (sent params)))
    with (base +++ String "?" (serialize (as_usv (sent params)))).
  rewrite cut_at by assumption. apply parse_serialize.
Qed.

Lemma set_well_formed (obj : JsObj) key value :
  well_formed obj -> well_formed (set obj key value).
Proof.
  unfold well_formed. intros Hwf.
  destruct (in_dec string_dec key (keys obj)) as [Hin|Hout].
  - now rewrite keys_set_present.
  - rewrite set_fresh by assumption. rewrite keys_app. cbn.
    apply List.NoDup_app; [assumption | repeat constructor; auto | ].
    intros x Hx [<-|[]]. contradiction.
Qed.

(** X7. For a request whose parameters are strings, lists of strings
    or [undefined], listed in the order of their properties, and whose
    base URL holds no [?] and no [#]: the query of the URL [fetchPage] asks for decodes to the
    present parameters of the request with [page] set to the page
    number, lone surrogates replaced by U+FFFD. A [page] entry the
    parameters already had is replaced where it stands, not repeated;
    otherwise [page] comes last; the other entries are as they were. *)
Theorem page_url_decodes (this : FPDSRequest) (pageNumber : Z) :
  js_object (params this) ->
  Forall (fun kv => search_value (snd kv) = true) (params this) ->
  has_char "?" (baseUrl (config this)) = false ->
  has_char "#" (baseUrl (config this)) = false ->
  let pageParams := set (params this) "page" (VStr (Z_toString pageNumber)) in
  parse (query_of (page_url this pageNumber)) = as_usv (sent pageParams)
  /\ keys pageParams
     = (if has_own (params this) "page" then keys (params this)
        else keys (params this) ++ ["page"])
  /\ get pageParams "page" = VStr (Z_toString pageNumber)
  /\ (forall key, key <> "page" -> get pageParams key = get (params this) key).
Proof.
  intros [Hwf _] _ Hquery Hhash pageParams. split; [|split; [|split]].
  - unfold page_url. rewrite (spread_empty _ Hwf).
    now apply query_decodes.
  - destruct (has_own (params this) "page") eqn:Hown.
    + apply keys_set_present. now apply has_own_keys.
    + unfold pageParams. rewrite set_fresh; [now rewrite keys_app|].
      intros Hin. apply has_own_keys in Hin. congruence.
  - apply get_set_same.
  - intros key Hkey. apply get_set_other. congruence.
Qed.

End PageUrlFacts.

Lemma page_url_decodes_witness :
  let this :=
    Request.mkRequest [("page", VStr "9"); ("PIID", VStr "B 1")]
                      Transport.DEFAULT_CONFIG in
  URLSearchParams.parse (URLSearchParams.query_of (Stream.page_url this 2))
  = [("page", "2"); ("PIID", "B 1")].
Proof.
  intros this.
  destruct (page_url_decodes this 2) as (Hdecoded & _).
  - split; [|reflexivity].
    simpl. repeat constructor; simpl; intuition discriminate.
  - repeat constructor.
  - reflexivity.
  - reflexivity.
  - rewrite Hdecoded. reflexivity.
Defined.

(* ===================================================================== *)
(** * Further properties of the semaphore and of the transport *)
(* ===================================================================== *)

Section GateFacts.
Import Semaphore Async.

(** X8. In every state a semaphore of positive capacity [n] can reach,
    the permits available and the permits held add up to [n]; tasks
    wait only while nothing is available and [n] tasks hold a permit;
    and with a permit available, an [acquire] followed by the
    [release] gives the semaphore back as it was. *)
Theorem semaphore_conserves_permits (n : Z) (sy : System) (t : Task) :
  0 < n ->
  reachable n sy ->
  available (sem sy) + Z.of_nat (length (holders sy)) = n
  /\ ((0 < waiting (sem sy))%nat ->
      available (sem sy) = 0 /\ Z.of_nat (length (holders sy)) = n)
  /\ (0 < available (sem sy) ->
      fst (release (fst (acquire t (sem sy)))) = sem sy).
Proof.
  intros Hn Hreach.
  destruct (gate_inv_reachable n sy Hn Hreach) as (Hpos & Hsum & Hq).
  unfold available, waiting. split; [exact Hsum|]. split.
  - intros Hwait.
    assert (permits (sem sy) = 0)
      by (apply Hq; destruct (queue (sem sy)); [simpl in Hwait; lia|discriminate]).
    lia.
  - intros Hfree. unfold acquire.
    destruct (0 <? permits (sem sy)) eqn:Hlt; [|apply Z.ltb_ge in Hlt; lia].
    assert (Hempty : queue (sem sy) = []).
    { destruct (queue (sem sy)) eqn:Hqueue; [reflexivity|].
      assert (permits (sem sy) = 0) by (apply Hq; congruence). lia. }
    unfold release. cbn [fst permits queue]. rewrite Hempty. cbn [fst].
    destruct (sem sy) as [c w]. cbn in *. subst w. f_equal. lia.
Qed.

Lemma semaphore_conserves_permits_witness :
  let sy := mkSystem (mkSemaphore 1 []) [1]%nat in
  fst (release (fst (acquire 7%nat (sem sy)))) = sem sy.
Proof.
  intros sy.
  destruct (semaphore_conserves_permits 2 sy 7%nat) as (_ & _ & Hround).
  - lia.
  - apply (run_reachable 2 [Acquire 1]%nat (mkSystem (create 2) []));
      [constructor | reflexivity].
  - apply Hround. simpl. lia.
Defined.

(** X9. Tasks started together behind a semaphore with [c >= 1]
    permits and nobody queued: the first [min c count] of them run at
    once and the others queue in the order they were started; when the
    tasks finish in that order, every one of them gets to run and
    finish. *)
Theorem started_tasks_all_finish (s : Semaphore) (count : nat) :
  0 < permits s ->
  queue s = [] ->
  let running := Nat.min (Z.to_nat (permits s)) count in
  holders (sys (launch s (seq 0 count))) = seq 0 running
  /\ queue (sem (sys (launch s (seq 0 count)))) = seq running (count - running)
  /\ completion_order s count (seq 0 count) = seq 0 count.
Proof.
  intros Hpermit Hqueue running.
  split; [|split]; [| |now apply fifo_schedule_completes].
  - destruct s as [c w]. cbn in *. subst w. unfold launch. cbn [sys].
    now rewrite launch_state.
  - destruct s as [c w]. cbn in *. subst w. unfold launch. cbn [sys].
    now rewrite launch_state.
Qed.

Lemma started_tasks_all_finish_witness :
  holders (sys (launch (create 2) (seq 0 5))) = [0; 1]%nat
  /\ queue (sem (sys (launch (create 2) (seq 0 5)))) = [2; 3; 4]%nat
  /\ completion_order (create 2) 5 (seq 0 5) = [0; 1; 2; 3; 4]%nat.
Proof.
  apply (started_tasks_all_finish (create 2) 5); [simpl; lia | reflexivity].
Defined.

End GateFacts.

Section TransportFacts.
Import Transport.

(** X10. [makeRequest] returns the body exactly when the response is
    [ok] and its text could be read. A response that is not [ok] throws
    an [FPDSRequestError] carrying its status, whatever its body; every
    other failure throws a [NetworkError]. *)
Theorem makeRequest_classifies (cfg : Config) (response : FetchOutcome) :
  (forall text,
     makeRequest cfg response = Ok text <->
     exists status statusText, response = Responded true status statusText (Ok text))
  /\ (forall error,
        makeRequest cfg response = Throw error ->
        (exists status statusText body,
           response = Responded false status statusText body
           /\ error = FPDSRequestError
                        ("HTTP " +++ Z_toString status +++ ": " +++ statusText)
                        status)
        \/ (exists message original,
              error = NetworkError message original
              /\ forall status statusText body,
                   response <> Responded false status statusText body)).
Proof.
  split.
  - intros text. split.
    + destruct response as [[] status statusText [body|r]|r]; try discriminate.
      intros [= ->]. eauto.
    + intros (status & statusText & ->). reflexivity.
  - intros error.
    destruct response as [[] status statusText [body|r]|r]; cbn;
      try discriminate; intros [= <-].
    + right. destruct r; cbn; do 2 eexists; (split; [reflexivity|discriminate]).
    + left. eauto.
    + left. eauto.
    + right. destruct r; cbn; do 2 eexists; (split; [reflexivity|discriminate]).
Qed.

Lemma sum_backoff (delay : Z) : forall count : nat,
  sum (map (fun i => delay * 2 ^ Z.of_nat i) (seq 0 count))
  = delay * (2 ^ Z.of_nat count - 1).
Proof.
  induction count as [|count IH]; [cbn; lia|].
  rewrite seq_S, map_app. unfold sum in *. rewrite fold_right_app. cbn [map fold_right].
  rewrite Nat.add_0_l, Z.add_0_r.
  assert (Hshift : forall (l : list Z) (x : Z),
            fold_right Z.add x l = fold_right Z.add 0 l + x).
  { induction l as [|y l IHl]; intros x; cbn; [lia|]. rewrite IHl. lia. }
  rewrite Hshift, IH. rewrite Nat2Z.inj_succ, Z.pow_succ_r by lia. lia.
Qed.

(** X11. With [retryAttempts <= 0] [makeRequestWithRetry] sends no
    request at all and throws [undefined]. *)
Theorem no_attempts_throws_undefined (cfg : Config)
    (responses : Z -> FetchOutcome) :
  retryAttempts cfg <= 0 ->
  makeRequestWithRetry cfg responses = (Throw Undefined, []).
Proof.
  intros Hr. unfold makeRequestWithRetry.
  replace (Z.to_nat (retryAttempts cfg)) with O by lia. reflexivity.
Qed.

Lemma no_attempts_throws_undefined_witness :
  makeRequestWithRetry (mkConfig 10 30000 0 1000 "u" "a")
    (fun _ => Responded true 200 "OK" (Ok "<feed/>"))
  = (Throw Undefined, []).
Proof. apply no_attempts_throws_undefined. simpl. lia. Defined.

(** X12. A request that fails on each of its [r >= 1] attempts has
    slept [retryDelay * (2^(r-1) - 1)] in all when it gives up. *)
Theorem exhausted_retries_total_sleep (cfg : Config)
    (responses : Z -> FetchOutcome) :
  1 <= retryAttempts cfg ->
  (forall j, 1 <= j <= retryAttempts cfg -> Spec.fails cfg responses j) ->
  sum (sleeps (snd (makeRequestWithRetry cfg responses)))
  = retryDelay cfg * (2 ^ (retryAttempts cfg - 1) - 1).
Proof.
  intros Hr Hfail.
  destruct (makeRequest cfg (responses (retryAttempts cfg))) as [text|error] eqn:Hlast.
  - specialize (Hfail (retryAttempts cfg) ltac:(lia)).
    unfold Spec.fails in Hfail. rewrite Hlast in Hfail. discriminate.
  - unfold makeRequestWithRetry.
    rewrite (retry_loop_exhausted cfg responses _ 1 error None); try lia;
      try assumption.
    cbn [snd]. rewrite (backoff_sleeps cfg). cbn [pred].
    replace (map (fun i => retryDelay cfg * 2 ^ (1 - 1 + Z.of_nat i))
                 (seq 0 (Z.to_nat (retryAttempts cfg - 1))))
      with (map (fun i => retryDelay cfg * 2 ^ Z.of_nat i)
                (seq 0 (Z.to_nat (retryAttempts cfg - 1))))
      by (apply map_ext; intros i; now f_equal).
    rewrite sum_backoff. do 3 f_equal. lia.
Qed.

End TransportFacts.

Lemma exhausted_retries_total_sleep_witness :
  sum (Transport.sleeps
         (snd (Transport.makeRequestWithRetry Transport.DEFAULT_CONFIG
                 (fun _ => Transport.Rejected Transport.AbortError))))
  = 1000 * (2 ^ (3 - 1) - 1).
Proof.
  apply (exhausted_retries_total_sleep Transport.DEFAULT_CONFIG).
  - simpl. lia.
  - intros j _. reflexivity.
Defined.

(* ===================================================================== *)
(** * Further properties of the XML normalizer *)
(* ===================================================================== *)

Section NormalizerFacts.
Import XMLProcessor.
Context {Num : JsNumber}.

(** Induction on values that reaches the elements of arrays and the
    properties of objects. *)
Lemma value_nested_ind (P : JsVal -> Prop) :
  P VUndefined -> P VNull -> (forall b, P (VBool b)) -> (forall n, P (VNum n)) ->
  (forall s, P (VStr s)) ->
  (forall items, Forall P items -> P (VArr items)) ->
  (forall props, Forall (fun kv => P (snd kv)) props -> P (VObj props)) ->
  forall v, P v.
Proof.
  intros Hu Hn Hb Hnum Hs Harr Hobj. fix IH 1.
  intros [| |b|n|s|items|props];
    [exact Hu | exact Hn | apply Hb | apply Hnum | apply Hs | |].
  - apply Harr. induction items as [|x items IHitems]; constructor;
      [apply IH | exact IHitems].
  - apply Hobj. induction props as [|[k x] props IHprops]; constructor;
      [apply IH | exact IHprops].
Qed.

Lemma set_flat (obj : JsObj) key value :
  flat obj -> is_plain_object value = false -> flat (set obj key value).
Proof.
  unfold flat. intros Hflat Hvalue.
  induction Hflat as [|[k v] obj Hv Hrest IH]; cbn [set].
  - now repeat constructor.
  - destruct (String.eqb k key); constructor; cbn [snd]; assumption.
Qed.

(** ** The order of properties *)

Lemma array_index_text key n :
  array_index key = Some n -> key = Z_toString (Z.of_N n).
Proof.
  unfold array_index. destruct (digits_value key 0) as [m|]; [|discriminate].
  destruct (m <? 4294967295)%N; [|discriminate]. cbn [andb].
  destruct (String.eqb _ key) eqn:Heq; [|discriminate].
  intros [= <-]. symmetry. now apply String.eqb_eq.
Qed.

Lemma array_index_inj key key' n :
  array_index key = Some n -> array_index key' = Some n -> key = key'.
Proof.
  intros H H'. apply array_index_text in H, H'. congruence.
Qed.

Lemma add_index_In n key value (obj : JsObj) k :
  In k (keys (add_index n key value obj)) <-> k = key \/ In k (keys obj).
Proof.
  induction obj as [|[k' v'] obj IH]; cbn [add_index keys map fst In].
  - intuition.
  - destruct (array_index k') as [m|]; [destruct (m <? n)%N|];
      cbn [keys map fst In]; fold (keys obj);
      fold (keys (add_index n key value obj)); rewrite ?IH; intuition.
Qed.

Lemma add_index_NoDup n key value (obj : JsObj) :
  List.NoDup (keys obj) -> ~ In key (keys obj) ->
  List.NoDup (keys (add_index n key value obj)).
Proof.
  induction obj as [|[k' v'] obj IH]; cbn [add_index keys map fst];
    intros Hnd Hfresh.
  - repeat constructor. intros [].
  - fold (keys obj) in *. apply NoDup_cons_iff in Hnd as [Hk' Hnd].
    assert (Hkeep : List.NoDup (key :: k' :: keys obj)).
    { constructor; [exact Hfresh|]. now constructor. }
    destruct (array_index k') as [m|]; [destruct (m <? n)%N|];
      cbn [keys map fst]; fold (keys obj); try exact Hkeep.
    fold (keys (add_index n key value obj)). constructor.
    + rewrite add_index_In. cbn [In] in Hfresh. intuition congruence.
    + apply IH; [assumption|]. cbn [In] in Hfresh. tauto.
Qed.

Lemma add_index_Forall (P : string * JsVal -> Prop) n key value (obj : JsObj) :
  Forall P obj -> P (key, value) -> Forall P (add_index n key value obj).
Proof.
  intros Hobj Hnew.
  induction Hobj as [|[k' v'] obj Hhead Htail IH]; cbn [add_index].
  - now repeat constructor.
  - destruct (array_index k') as [m|]; [destruct (m <? n)%N|];
      repeat constructor; assumption.
Qed.

Lemma key_before_index key key' n :
  array_index key = Some n ->
  key_before key key' = true ->
  array_index key' = None \/ exists m, array_index key' = Some m /\ (n < m)%N.
Proof.
  unfold key_before. intros ->.
  destruct (array_index key') as [m|]; [|now left].
  intros H. right. exists m. split; [reflexivity | now apply N.ltb_lt].
Qed.

Lemma key_before_name key key' :
  array_index key = None -> key_before key key' = true ->
  array_index key' = None.
Proof.
  unfold key_before. intros ->. now destruct (array_index key').
Qed.

Lemma add_index_order n key value (obj : JsObj) :
  array_index key = Some n ->
  in_property_order (keys obj) = true ->
  ~ In key (keys obj) ->
  in_property_order (keys (add_index n key value obj)) = true.
Proof.
  intros Hkey.
  induction obj as [|[k' v'] obj IH]; cbn [add_index keys map fst];
    intros Hord Hfresh; [reflexivity|].
  fold (keys obj) in *. cbn [in_property_order] in Hord.
  apply andb_prop in Hord as [Hhead Hord].
  rewrite forallb_forall in Hhead.
  assert (Hfront : forall m',
            array_index k' = None \/ (array_index k' = Some m' /\ (n < m')%N) ->
            in_property_order (key :: k' :: keys obj) = true).
  { intros m' Hk'. cbn [in_property_order]. apply andb_true_intro. split.
    - apply forallb_forall. intros x [<-|Hx].
      + unfold key_before. rewrite Hkey.
        destruct Hk' as [-> | [-> Hlt]]; [reflexivity | now apply N.ltb_lt].
      + specialize (Hhead x Hx). unfold key_before. rewrite Hkey.
        destruct Hk' as [Hnone | [Hsome Hlt]].
        * now rewrite (key_before_name k' x Hnone Hhead).
        * destruct (key_before_index k' x m' Hsome Hhead)
            as [-> | (m & -> & Hm)]; [reflexivity|]. apply N.ltb_lt. lia.
    - apply andb_true_intro. split; [now apply forallb_forall | assumption]. }
  destruct (array_index k') as [m|] eqn:Hk'.
  - destruct (m <? n)%N eqn:Hlt.
    + cbn [keys map fst in_property_order].
      fold (keys (add_index n key value obj)).
      apply andb_true_intro. split.
      * apply forallb_forall. intros x Hx. apply add_index_In in Hx as [->|Hx];
          [|now apply Hhead].
        unfold key_before. now rewrite Hk', Hkey.
      * apply IH; [assumption|]. cbn [In] in Hfresh. tauto.
    + apply (Hfront m). right. split; [reflexivity|].
      apply N.ltb_ge in Hlt. destruct (N.eq_dec m n) as [->|Hne]; [|lia].
      exfalso. apply Hfresh. left. now apply (array_index_inj k' key n).
  - apply (Hfront 0%N). now left.
Qed.

Lemma append_name_order (ks : list string) key :
  array_index key = None ->
  in_property_order ks = true ->
  in_property_order (ks ++ [key]) = true.
Proof.
  intros Hkey. induction ks as [|k ks IH]; [reflexivity|].
  cbn [app in_property_order]. intros Hord.
  apply andb_prop in Hord as [Hhead Hord]. apply andb_true_intro. split.
  - rewrite forallb_app, Hhead. cbn. unfold key_before. rewrite Hkey.
    now destruct (array_index k).
  - now apply IH.
Qed.

(** A property created in an object in order leaves it in order, with
    the keys it had and the new one. *)
Lemma add_property_keeps (obj : JsObj) key value :
  js_object obj -> ~ In key (keys obj) ->
  js_object (add_property obj key value)
  /\ (forall k, In k (keys (add_property obj key value))
                <-> k = key \/ In k (keys obj)).
Proof.
  intros [Hnd Hord] Hfresh. unfold add_property, js_object.
  destruct (array_index key) as [n|] eqn:Hkey.
  - split; [split|].
    + now apply add_index_NoDup.
    + now apply add_index_order.
    + intros k. apply add_index_In.
  - rewrite keys_app. cbn [keys map fst]. split; [split|].
    + apply List.NoDup_app; [assumption | repeat constructor; intros [] |].
      intros x Hx [<-|[]]. contradiction.
    + now apply append_name_order.
    + intros k. rewrite in_app_iff. cbn [In]. intuition.
Qed.

Lemma add_property_flat (obj : JsObj) key value :
  flat obj -> is_plain_object value = false -> flat (add_property obj key value).
Proof.
  unfold flat, add_property. intros Hflat Hvalue.
  destruct (array_index key).
  - now apply add_index_Forall.
  - apply Forall_app. split; [assumption | now repeat constructor].
Qed.

(** In an object in order a property that comes after all the others
    is created at the end. *)
Lemma add_property_last (obj : JsObj) key value :
  Forall (fun k => key_before k key = true) (keys obj) ->
  Forall (fun k => k <> key) (keys obj) ->
  add_property obj key value = obj ++ [(key, value)].
Proof.
  unfold add_property. destruct (array_index key) as [n|] eqn:Hkey;
    [|reflexivity].
  induction obj as [|[k v] obj IH]; cbn [keys map fst add_index app];
    intros Hbefore Hne; [reflexivity|].
  fold (keys obj) in *.
  apply Forall_cons_iff in Hbefore as [Hk Hbefore].
  apply Forall_cons_iff in Hne as [Hkne Hne].
  unfold key_before in Hk. rewrite Hkey in Hk.
  destruct (array_index k) as [m|]; [|discriminate].
  rewrite Hk. now rewrite IH.
Qed.


(** ** What the object being tidy keeps *)

Lemma has_own_false (obj : JsObj) key :
  has_own obj key = false <-> ~ In key (keys obj).
Proof.
  rewrite <- has_own_keys. now destruct (has_own obj key).
Qed.

Lemma set_js_object (obj : JsObj) key value :
  has_own obj key = true -> js_object obj -> js_object (set obj key value).
Proof.
  intros Hown [Hnd Hord]. apply has_own_keys in Hown.
  unfold js_object. now rewrite keys_set_present.
Qed.

Lemma assign_filled (result : Target) newKey value :
  tidy result ->
  is_plain_object value = false ->
  newKey <> "hasOwnProperty" ->
  tidy (assign result newKey value).
Proof.
  intros (Hobj & Hflat & Hshadow & Hproto) Hvalue Hkey. unfold assign.
  destruct (has_own (own result) newKey) eqn:Hown.
  - unfold tidy. cbn [own prototype].
    assert (Hkeys : keys (set (own result) newKey value) = keys (own result))
      by (apply keys_set_present; now apply has_own_keys).
    split; [now apply set_js_object|]. split; [now apply set_flat|].
    unfold has_own in *. rewrite Hkeys. now split.
  - destruct (String.eqb newKey "__proto__" && setter_reachable (prototype result))
      eqn:Hsetter.
    + destruct value; try discriminate Hvalue;
        unfold tidy; cbn [own prototype]; repeat split;
        solve [assumption | apply Hobj | discriminate].
    + apply has_own_false in Hown.
      destruct (add_property_keeps (own result) newKey value Hobj Hown)
        as [Hobj' Hin].
      unfold tidy. cbn [own prototype]. split; [exact Hobj'|].
      split; [now apply add_property_flat|]. split.
      * apply has_own_false. rewrite Hin. intros [Heq|Hold]; [congruence|].
        now apply has_own_false in Hshadow.
      * intros Hp. apply has_own_false. rewrite Hin. intros [Heq|Hold].
        -- subst newKey. rewrite Hp in Hsetter. discriminate.
        -- specialize (Hproto Hp). now apply has_own_false in Hproto.
Qed.

(** ** The walk *)

Lemma walk_failed {A} (f : Target -> A -> Outcome Failure Target) e :
  forall l : list A,
    fold_left (fun walked x => let* result := walked in f result x) l (Throw e)
    = Throw e.
Proof. induction l as [|x l IH]; [reflexivity | exact IH]. Qed.

Lemma includes_separator (prefix key : string) :
  includes (prefix +++ "__" +++ key) "__" = true.
Proof.
  induction prefix as [|c prefix IH].
  - simpl. now destruct key.
  - change (String c prefix +++ "__" +++ key)
      with (String c (prefix +++ "__" +++ key)).
    cbn [includes]. rewrite IH. apply orb_true_r.
Qed.

(** The path of a property is [hasOwnProperty] only for the property of
    that name, read without a prefix. *)
Lemma path_key_safe (prefix key : string) :
  key <> "hasOwnProperty" -> path_key prefix key <> "hasOwnProperty".
Proof.
  intros Hkey. unfold path_key. destruct (truthy (VStr prefix)); [|exact Hkey].
  intros Heq. pose proof (includes_separator prefix key) as Hsep.
  rewrite Heq in Hsep. discriminate.
Qed.

Lemma flatten_into_filled (value : JsVal) : forall newKey (result out : Target),
  tidy result ->
  (is_plain_object value = false -> newKey <> "hasOwnProperty") ->
  flatten_into value newKey result = Ok out ->
  tidy out.
Proof.
  induction value as [| | | | | items _ | props IH] using value_nested_ind;
    intros newKey result out Htidy Hkey;
    try (cbn [flatten_into]; intros [= <-];
         apply assign_filled; [assumption | reflexivity | now apply Hkey]).
  cbn [flatten_into].
  destruct (has_own props "hasOwnProperty") eqn:Hown; [discriminate|].
  apply has_own_false in Hown.
  assert (Hnames : Forall (fun kv => fst kv <> "hasOwnProperty") props).
  { apply List.Forall_forall. intros [k v] Hin Hk. apply Hown.
    cbn [fst] in Hk. subst k. now apply (in_map fst) in Hin. }
  clear Hown Hkey. revert result Htidy.
  induction IH as [|[k v] props Hv _ IHprops]; intros result Htidy;
    cbn [fold_left bind fst snd]; [now intros [= <-]|].
  apply Forall_cons_iff in Hnames as [Hk Hnames]. cbn [fst snd] in Hk, Hv.
  destruct (flatten_into v (path_key newKey k) result) as [next|e] eqn:Hstep.
  - apply IHprops; [assumption|].
    apply (Hv (path_key newKey k) result next Htidy); [|assumption].
    intros _. now apply path_key_safe.
  - now rewrite walk_failed.
Qed.

(** The walk throws nothing but the [TypeError], and throws it exactly
    when it comes to an object with a property [hasOwnProperty]. *)
Lemma flatten_into_outcome (value : JsVal) : forall newKey (result : Target),
  if shadowed value
  then flatten_into value newKey result = Throw TypeError
  else exists out, flatten_into value newKey result = Ok out.
Proof.
  induction value as [| | | | | items _ | props IH] using value_nested_ind;
    intros newKey result; try (cbn [shadowed flatten_into]; eauto).
  cbn [shadowed flatten_into].
  destruct (has_own props "hasOwnProperty"); [reflexivity|]. cbn [orb].
  revert result.
  induction IH as [|[k v] props Hv _ IHprops]; intros result;
    cbn [existsb fold_left bind fst snd]; [eauto|].
  cbn [snd] in Hv. specialize (Hv (path_key newKey k) result).
  destruct (shadowed v); cbn [orb].
  - rewrite Hv. apply walk_failed.
  - destruct Hv as [next ->]. apply IHprops.
Qed.


(** The loop over the properties the walk visits. *)
Local Abbreviation walk prefix props start :=
  (fold_left
     (fun walked kv =>
        let* result := walked in
        flatten_into (snd kv) (path_key prefix (fst kv)) result)
     props (Ok start)).

Lemma walk_filled (prefix : string) : forall (props : JsObj) (result out : Target),
  tidy result ->
  Forall (fun kv => fst kv <> "hasOwnProperty") props ->
  walk prefix props result = Ok out ->
  tidy out.
Proof.
  induction props as [|[k v] props IH]; intros result out Htidy Hnames;
    cbn [fold_left bind fst snd]; [now intros [= <-]|].
  apply Forall_cons_iff in Hnames as [Hk Hnames]. cbn [fst] in Hk.
  destruct (flatten_into v (path_key prefix k) result) as [next|e] eqn:Hstep.
  - apply IH; [|assumption].
    apply (flatten_into_filled v (path_key prefix k) result next Htidy);
      [|assumption].
    intros _. now apply path_key_safe.
  - now rewrite walk_failed.
Qed.

Lemma walk_outcome (prefix : string) : forall (props : JsObj) (result : Target),
  if existsb (fun kv => shadowed (snd kv)) props
  then walk prefix props result = Throw TypeError
  else exists out, walk prefix props result = Ok out.
Proof.
  induction props as [|[k v] props IH]; intros result;
    cbn [existsb fold_left bind fst snd]; [eauto|].
  pose proof (flatten_into_outcome v (path_key prefix k) result) as Hv.
  destruct (shadowed v); cbn [orb].
  - rewrite Hv. apply walk_failed.
  - destruct Hv as [next ->]. apply IH.
Qed.

Lemma Z_toString_not_name (z : Z) : Z_toString z <> "hasOwnProperty".
Proof.
  unfold Z_toString. intros Heq.
  assert (Hparse : NilZero.int_of_string (NilZero.string_of_int (Z.to_int z))
                   = None) by now rewrite Heq.
  destruct (Z.to_int z) as [[]|[]] eqn:Hd;
    try (rewrite NilZero.isi in Hparse by discriminate; discriminate);
    discriminate.
Qed.

Lemma indexed_names (items : list JsVal) :
  Forall (fun kv => fst kv <> "hasOwnProperty") (indexed items).
Proof.
  apply List.Forall_forall. intros [k v] Hin. cbn [fst].
  unfold indexed in Hin. apply in_combine_l in Hin.
  apply in_map_iff in Hin as (i & <- & _). apply Z_toString_not_name.
Qed.

Lemma indexed_values (items : list JsVal) : map snd (indexed items) = items.
Proof.
  unfold indexed.
  assert (Hlen : forall (ks : list string) (vs : list JsVal),
            length ks = length vs -> map snd (combine ks vs) = vs).
  { induction ks as [|k ks IH]; intros [|v vs] Hlen; try discriminate;
      [reflexivity|]. cbn. f_equal. apply IH. now injection Hlen. }
  apply Hlen. now rewrite length_map, length_seq.
Qed.

Lemma indexed_shadowed (items : list JsVal) :
  existsb (fun kv => shadowed (snd kv)) (indexed items) = existsb shadowed items.
Proof.
  rewrite <- (indexed_values items) at 2.
  generalize (indexed items). intros l.
  induction l as [|kv l IH]; [reflexivity|]. cbn. now rewrite IH.
Qed.

Lemma texts_not_shadowed (units : list string) :
  existsb shadowed (map VStr units) = false.
Proof. induction units as [|u units IH]; [reflexivity | exact IH]. Qed.

(** [flattenXMLPaths] throws nothing but the [TypeError], exactly when
    the walk comes to an object with a property [hasOwnProperty]. *)
Lemma flattenXMLPaths_outcome (obj : JsVal) (prefix : string) (result : Target) :
  if walk_throws obj
  then flattenXMLPaths obj prefix result = Throw TypeError
  else exists out, flattenXMLPaths obj prefix result = Ok out.
Proof.
  unfold flattenXMLPaths, own_properties.
  destruct obj as [| | | |s|items|props]; cbn [walk_throws bind]; eauto.
  - pose proof (walk_outcome prefix (indexed (map VStr (code_units s))) result)
      as H.
    now rewrite indexed_shadowed, texts_not_shadowed in H.
  - pose proof (walk_outcome prefix (indexed items) result) as H.
    now rewrite indexed_shadowed in H.
  - cbn [shadowed]. destruct (has_own props "hasOwnProperty"); [reflexivity|].
    cbn [orb bind]. apply walk_outcome.
Qed.

Lemma flattenXMLPaths_filled (obj : JsVal) (result out : Target) :
  tidy result ->
  flattenXMLPaths obj "" result = Ok out ->
  tidy out.
Proof.
  intros Htidy. unfold flattenXMLPaths, own_properties.
  destruct obj as [| | | |s|items|props]; cbn [bind];
    try (now intros [= <-]).
  - apply walk_filled; [assumption | apply indexed_names].
  - apply walk_filled; [assumption | apply indexed_names].
  - destruct (has_own props "hasOwnProperty") eqn:Hown; [discriminate|].
    cbn [bind]. apply walk_filled; [assumption|].
    apply has_own_false in Hown.
    apply List.Forall_forall. intros [k v] Hin Hk. apply Hown.
    cbn [fst] in Hk. subst k. now apply (in_map fst) in Hin.
Qed.

Lemma empty_object_filled : tidy empty_object.
Proof.
  unfold tidy, js_object. cbn. repeat split; try reflexivity; constructor.
Qed.

(** ** Flat input *)

Lemma in_order_app (ks : list string) key (rest : list string) :
  in_property_order (ks ++ key :: rest) = true ->
  Forall (fun k => key_before k key = true) ks.
Proof.
  induction ks as [|k ks IH]; cbn [app in_property_order]; intros Hord;
    [constructor|].
  apply andb_prop in Hord as [Hhead Hord]. constructor; [|now apply IH].
  rewrite forallb_forall in Hhead. apply Hhead. apply in_elt.
Qed.

(** On a flat object in order, with no property [hasOwnProperty] and
    none [__proto__], the walk is a plain copy, property by property. *)
Lemma flatten_flat_copy : forall (obj copied : JsObj),
  js_object (copied ++ obj) ->
  flat obj ->
  has_own obj "__proto__" = false ->
  walk "" obj (mkTarget copied ObjectPrototype)
  = Ok (mkTarget (copied ++ obj) ObjectPrototype).
Proof.
  induction obj as [|[k v] obj IH]; intros copied Hobj Hflat Hproto;
    cbn [fold_left bind fst snd].
  - now rewrite app_nil_r.
  - apply Forall_cons_iff in Hflat as [Hv Hflat]. cbn [snd] in Hv.
    destruct Hobj as [Hnd Hord]. rewrite keys_app in Hnd, Hord.
    cbn [keys map fst] in Hnd, Hord. fold (keys obj) in Hnd, Hord.
    apply has_own_false in Hproto. cbn [keys map fst In] in Hproto.
    fold (keys obj) in Hproto.
    assert (Hfresh : ~ In k (keys copied)).
    { apply NoDup_remove_2 in Hnd. rewrite in_app_iff in Hnd. tauto. }
    assert (Hstep : flatten_into v (path_key "" k) (mkTarget copied ObjectPrototype)
                    = Ok (mkTarget (copied ++ [(k, v)]) ObjectPrototype)).
    { change (path_key "" k) with k.
      destruct v; try discriminate Hv; cbn [flatten_into]; unfold assign;
        cbn [own prototype setter_reachable];
        rewrite (proj2 (has_own_false copied k) Hfresh);
        (destruct (String.eqb k "__proto__") eqn:Hk;
         [apply String.eqb_eq in Hk; tauto|]); cbn [andb];
        (rewrite add_property_last;
         [reflexivity | now apply (in_order_app _ _ (keys obj)) |];
         apply List.Forall_forall; intros x Hx ->; contradiction). }
    rewrite Hstep. cbn [bind]. rewrite (IH (copied ++ [(k, v)])).
    + now rewrite <- app_assoc.
    + rewrite <- app_assoc. split; now rewrite keys_app.
    + assumption.
    + apply has_own_false. tauto.
Qed.


(** X13. [flattenXMLPaths] on an entry, whatever it is and however deep
    it nests. It throws a [TypeError] exactly when the walk comes to an
    object with a property named [hasOwnProperty]. Otherwise the object
    it returns holds no nested object and has each key once, array
    indices first; and when no [__proto__] changed its prototype,
    flattening that object again returns it unchanged. *)
Theorem flatten_is_flat_and_idempotent (obj : JsVal) :
  (walk_throws obj = true ->
   flattenXMLPaths obj "" empty_object = Throw TypeError)
  /\ (walk_throws obj = false ->
      exists out,
        flattenXMLPaths obj "" empty_object = Ok out
        /\ flat (own out)
        /\ js_object (own out)
        /\ (prototype out = ObjectPrototype ->
            flattenXMLPaths (VObj (own out)) "" empty_object = Ok out)).
Proof.
  pose proof (flattenXMLPaths_outcome obj "" empty_object) as Hout.
  split; intros Hwalk; rewrite Hwalk in Hout; [exact Hout|].
  destruct Hout as [out Hout]. exists out. split; [exact Hout|].
  destruct (flattenXMLPaths_filled obj empty_object out empty_object_filled Hout)
    as (Hobj & Hflat & Hshadow & Hproto).
  split; [exact Hflat|]. split; [exact Hobj|].
  intros Hp. unfold flattenXMLPaths, own_properties. rewrite Hshadow.
  cbn [bind]. unfold empty_object.
  rewrite (flatten_flat_copy (own out) []);
    [destruct out as [props p]; cbn in Hp |- *; now subst p
    | exact Hobj | exact Hflat | now apply Hproto].
Qed.

(** ** The entries of a response *)

Lemma each_outcome {E A B} (f : A -> Outcome E B) : forall xs : list A,
  (forall e, each f xs = Throw e -> exists x, In x xs /\ f x = Throw e)
  /\ ((forall x, In x xs -> exists y, f x = Ok y) ->
      exists ys, each f xs = Ok ys /\ length ys = length xs).
Proof.
  induction xs as [|x xs [IHthrow IHok]]; cbn [each].
  - split; [discriminate | eauto].
  - split.
    + intros e. destruct (f x) as [y|e'] eqn:Hx.
      * destruct (each f xs) as [ys|e''] eqn:Hxs; [discriminate|].
        intros [= <-]. destruct (IHthrow e'' eq_refl) as (x' & Hin & Hx').
        exists x'. split; [now right | assumption].
      * intros [= <-]. exists x. split; [now left | assumption].
    + intros Hall. destruct (Hall x (or_introl eq_refl)) as [y ->].
      destruct IHok as (ys & -> & Hlen);
        [intros x' Hin; apply Hall; now right|].
      exists (y :: ys). split; [reflexivity | cbn; now rewrite Hlen].
Qed.

Variable xml_parse : string -> Outcome string JsVal.

(** X14. [processXMLResponse] throws a [ParseError] or a [TypeError]
    and nothing else: the fixed [ParseError] for blank text, without
    calling the parser; the parser's own failure under a prefix; the
    [TypeError] when the walk of an entry comes to an object with a
    property named [hasOwnProperty]. When no entry has one it returns a
    record for each entry. A tree without a [feed], or whose feed has
    no [entry], is no error but an empty list. *)
Theorem process_failures_classified (xmlData : string) :
  (String.length (trim xmlData) = 0%nat ->
     processXMLResponse xml_parse xmlData
     = Throw (Library (ParseError "XML data is empty or null")))
  /\ (forall e, processXMLResponse xml_parse xmlData = Throw e ->
        e = Library (ParseError "XML data is empty or null")
        \/ (exists thrown,
              xml_parse xmlData = Throw thrown
              /\ e = Library (ParseError ("Failed to parse XML: " +++ thrown)))
        \/ (exists tree,
              xml_parse xmlData = Ok tree
              /\ e = TypeError
              /\ existsb walk_throws (extractEntries tree) = true))
  /\ (forall tree,
        String.length (trim xmlData) <> 0%nat ->
        xml_parse xmlData = Ok tree ->
        existsb walk_throws (extractEntries tree) = false ->
        exists records,
          processXMLResponse xml_parse xmlData = Ok records
          /\ length records = length (extractEntries tree))
  /\ (forall tree,
        String.length (trim xmlData) <> 0%nat ->
        xml_parse xmlData = Ok tree ->
        truthy (prop tree "feed") = false
        \/ truthy (prop (prop tree "feed") "entry") = false ->
        processXMLResponse xml_parse xmlData = Ok []).
Proof.
  set (flattened := fun entry : JsVal =>
         let* flattened := flattenXMLPaths entry "" empty_object in
         Ok (own flattened)).
  assert (Hentry : forall entry,
            if walk_throws entry then flattened entry = Throw TypeError
            else exists record, flattened entry = Ok record).
  { intros entry. unfold flattened.
    pose proof (flattenXMLPaths_outcome entry "" empty_object) as H.
    destruct (walk_throws entry); [now rewrite H|].
    destruct H as [out ->]. cbn. eauto. }
  assert (Hparsed : forall tree,
            String.length (trim xmlData) <> 0%nat ->
            xml_parse xmlData = Ok tree ->
            processXMLResponse xml_parse xmlData
            = each flattened (extractEntries tree)).
  { intros tree Hlen Htree. unfold processXMLResponse, parseXML.
    apply Nat.eqb_neq in Hlen. rewrite Hlen, Htree.
    destruct xmlData as [|c rest]; [now cbn in Hlen|]. reflexivity. }
  split; [|split; [|split]].
  - intros Hblank. unfold processXMLResponse, parseXML.
    apply Nat.eqb_eq in Hblank. rewrite Hblank. now rewrite orb_true_r.
  - intros e. unfold processXMLResponse, parseXML.
    destruct (negb (truthy (VStr xmlData)) || _); cbn [library try_catch bind];
      [intros [= <-]; now left|].
    destruct (xml_parse xmlData) as [tree|thrown]; cbn [library try_catch bind];
      [|intros [= <-]; right; left; eauto].
    fold flattened. intros Heach. right. right. exists tree.
    split; [reflexivity|].
    destruct (each_outcome flattened (extractEntries tree)) as [Hthrow _].
    destruct (Hthrow e Heach) as (entry & Hin & Hfail).
    specialize (Hentry entry). destruct (walk_throws entry) eqn:Hwalk.
    + split; [congruence|]. apply existsb_exists. eauto.
    + destruct Hentry as [record Hok]. congruence.
  - intros tree Hlen Htree Hnone. rewrite (Hparsed tree Hlen Htree).
    destruct (each_outcome flattened (extractEntries tree)) as [_ Hok].
    apply Hok. intros entry Hin. specialize (Hentry entry).
    destruct (walk_throws entry) eqn:Hwalk; [|assumption].
    assert (Hsome : existsb walk_throws (extractEntries tree) = true)
      by (apply existsb_exists; eauto).
    congruence.
  - intros tree Hlen Htree Hmissing. rewrite (Hparsed tree Hlen Htree).
    unfold extractEntries.
    destruct Hmissing as [-> | Hentry']; [reflexivity|].
    destruct (truthy (prop tree "feed")); cbn [negb]; [|reflexivity].
    now rewrite Hentry'.
Qed.

End NormalizerFacts.

Lemma flatten_is_flat_and_idempotent_witness :
  let entry := VObj [("title", VStr "T"); ("link", VObj [("href", VStr "u")])] in
  exists out,
    XMLProcessor.flattenXMLPaths entry "" XMLProcessor.empty_object = Ok out
    /\ flat (XMLProcessor.own out)
    /\ js_object (XMLProcessor.own out)
    /\ (XMLProcessor.prototype out = XMLProcessor.ObjectPrototype ->
        XMLProcessor.flattenXMLPaths (VObj (XMLProcessor.own out)) ""
          XMLProcessor.empty_object = Ok out).
Proof.
  intros entry.
  apply (proj2 (flatten_is_flat_and_idempotent entry)). reflexivity.
Defined.

Lemma process_failures_classified_witness :
  XMLProcessor.processXMLResponse (fun _ => Ok (VObj [("feed", VStr "")]))
    "   "
  = Throw (Library (ParseError "XML data is empty or null"))
  /\ XMLProcessor.processXMLResponse (fun _ => Ok (VObj [("feed", VStr "")]))
       "<feed/>"
     = Ok [].
Proof.
  split.
  - apply (process_failures_classified
             (fun _ => Ok (VObj [("feed", VStr "")])) "   ").
    reflexivity.
  - destruct (process_failures_classified
                (fun _ => Ok (VObj [("feed", VStr "")])) "<feed/>")
      as (_ & _ & _ & Hempty).
    apply (Hempty (VObj [("feed", VStr "")])); [discriminate | reflexivity |].
    left. reflexivity.
Defined.

(* ===================================================================== *)
(** * Further properties of the field mapper and of the serializer *)
(* ===================================================================== *)

Section DigestFacts.
Import Sha256.

Lemma compress_length (h block : list Z) :
  length h = 8%nat -> length (compress h block) = 8%nat.
Proof.
  intros Hh. unfold compress. rewrite length_map, length_combine, Hh.
  reflexivity.
Qed.

Lemma digest_length (msg : list Z) : length (digest msg) = 8%nat.
Proof.
  unfold digest. generalize (chunks 64 (length (pad msg) / 64) (pad msg)).
  assert (Hstart : length H0 = 8%nat) by reflexivity. revert Hstart.
  generalize H0. intros h Hh blocks. revert h Hh.
  induction blocks as [|b blocks IH]; intros h Hh; [assumption|].
  cbn [fold_left]. apply IH. now apply compress_length.
Qed.

Lemma string_of_list_length (l : list ascii) :
  String.length (string_of_list_ascii l) = length l.
Proof. induction l as [|c l IH]; [reflexivity|]. cbn. now rewrite IH. Qed.

Lemma hex_digit_is_hex (n : Z) : 0 <= n < 16 -> hex_char (hex_digit n) = true.
Proof.
  intros Hn. destruct n as [|p|p]; [reflexivity| |lia].
  do 4 (destruct p as [p|p|]; try lia; try reflexivity).
Qed.

Lemma hex_word_shape (x : Z) :
  String.length (hex_word x) = 8%nat /\ all_chars hex_char (hex_word x) = true.
Proof.
  unfold hex_word. split.
  - now rewrite string_of_list_length, length_map, length_rev, length_seq.
  - generalize (rev (seq 0 8)). intros l.
    induction l as [|i l IH]; [reflexivity|].
    cbn [map string_of_list_ascii all_chars]. rewrite IH, hex_digit_is_hex.
    + reflexivity.
    + apply Z.mod_pos_bound. lia.
Qed.

Lemma concat_words_shape (ws : list string) :
  Forall (fun w => String.length w = 8%nat /\ all_chars hex_char w = true) ws ->
  String.length (String.concat "" ws) = (8 * length ws)%nat
  /\ all_chars hex_char (String.concat "" ws) = true.
Proof.
  assert (Hlen : forall a b : string,
            String.length (a +++ b) = (String.length a + String.length b)%nat).
  { induction a as [|c a IHa]; intros b; [reflexivity|]. cbn. now rewrite IHa. }
  induction 1 as [|w ws [Hw Hc] Hrest [IHl IHc]]; [now split|].
  destruct ws as [|w' ws].
  - cbn [String.concat length]. split; [lia | assumption].
  - change (String.concat "" (w :: w' :: ws))
      with (w +++ "" +++ String.concat "" (w' :: ws)).
    cbn [String.append]. rewrite Hlen, all_chars_app, Hw, Hc, IHl, IHc.
    split; [cbn [length]; lia | reflexivity].
Qed.

(** X15. Whatever the contract number and the award date, the contract
    hash is a string of 64 characters, each a digit or a letter from
    [a] to [f]. *)
Theorem contract_hash_is_64_hex (contractNumber awardDate : string) :
  String.length (FieldMapper.generateContractHash contractNumber awardDate)
  = 64%nat
  /\ all_chars hex_char
       (FieldMapper.generateContractHash contractNumber awardDate) = true.
Proof.
  unfold FieldMapper.generateContractHash, sha256_hex, sha256_bytes.
  set (words := digest _).
  assert (Hwords : length words = 8%nat) by apply digest_length.
  destruct (concat_words_shape (map hex_word words)) as [Hlen Hhex].
  - apply List.Forall_forall. intros w Hw.
    apply in_map_iff in Hw as (x & <- & _). apply hex_word_shape.
  - rewrite length_map, Hwords in Hlen. split; assumption.
Qed.

End DigestFacts.

Section MapperFacts.
Import Validators FieldMapper FieldMappings ContractProcessor.
Context {Num : JsNumber}.

(** X16. Every record [mapRecord] builds, even from an empty entry, has
    the same 35 properties in the same order, each once, and its
    [contract_hash] is the hash of its own [contract_number] and
    [award_date]. *)
Theorem mapped_record_shape (rawRecord : JsObj) (sourceMetadata : JsVal) :
  let record := mapRecord rawRecord sourceMetadata in
  keys record = field_names
  /\ well_formed record
  /\ get record "contract_hash"
     = VStr (generateContractHash (toString (get record "contract_number"))
                                  (toString (get record "award_date"))).
Proof.
  intros record. split; [apply keys_mapRecord|].
  split; [apply mapRecord_well_formed | reflexivity].
Qed.

Ltac each_entry H :=
  repeat (destruct H as [H|H];
          [injection H as <- <-; try (exfalso; congruence) | ]);
  try contradiction.

(** X17. The table of [getFieldMappings] names every property of a
    record but [source_metadata], in the order of the record, and tells
    the truth about [mapRecord]: apart from [contract_hash], the
    property listed with a path is computed from what the entry holds
    under that path and from nothing else. *)
Theorem field_mappings_agree_with_mapRecord :
  map fst getFieldMappings ++ ["source_metadata"] = field_names
  /\ forall field path (raw raw' : JsObj) (sourceMetadata : JsVal),
       In (field, path) getFieldMappings ->
       field <> "contract_hash" ->
       get raw path = get raw' path ->
       get (mapRecord raw sourceMetadata) field
       = get (mapRecord raw' sourceMetadata) field.
Proof.
  split; [reflexivity|].
  intros field path raw raw' sourceMetadata Hin Hhash Hsame.
  unfold getFieldMappings in Hin.
  each_entry Hin;
    cbn [mapRecord get String.eqb Ascii.eqb Bool.eqb];
    unfold text, parseFloatSafe, parseIntSafe; now rewrite Hsame.
Qed.



End MapperFacts.

Lemma field_mappings_agree_with_mapRecord_witness :
  get (FieldMapper.mapRecord [("title", VStr "T"); ("link__href", VStr "a")]
                             VUndefined) "title"
  = get (FieldMapper.mapRecord [("title", VStr "T")] VNull) "title".
Proof.
  destruct (field_mappings_agree_with_mapRecord (Num := IntegerNumbers))
    as [_ Hagree].
  transitivity
    (get (FieldMapper.mapRecord [("title", VStr "T")] VUndefined) "title").
  - apply (Hagree "title" "title"); [| discriminate | reflexivity].
    unfold FieldMappings.getFieldMappings. simpl. tauto.
  - reflexivity.
Defined.


(* ===================================================================== *)
(** * Further properties of the fetch orchestrator *)
(* ===================================================================== *)

Section RejectionFacts.
Import Async.
Context {E A : Type}.

Lemma unwritten_not_filled (slots : list (option A)) i :
  slots !! i = Some None -> filled slots = None.
Proof.
  revert i. induction slots as [|[v|] slots IH]; intros i Hi.
  - discriminate.
  - destruct i as [|i]; [discriminate|]. cbn in Hi |- *.
    now rewrite (IH i Hi).
  - reflexivity.
Qed.

(** Once a promise that rejects is among those that settle,
    [Promise.all] rejects, with the reason of a promise that
    rejected. *)
Lemma settle_rejected (promises : list (@Promise E A)) i e0 :
  promises !! i = Some (Some (Throw e0)) ->
  forall order slots,
    In i order ->
    slots !! i = Some None ->
    exists j e, promises !! j = Some (Some (Throw e))
                /\ settle promises order slots = Some (Throw e).
Proof.
  intros Hi. induction order as [|j order IH]; intros slots Hin Hslot;
    [destruct Hin|].
  cbn [settle]. rewrite (unwritten_not_filled slots i Hslot).
  destruct (promises !! j) as [[[v|e]|]|] eqn:Hj.
  - assert (Hne : j <> i) by congruence.
    destruct Hin as [->|Hin]; [congruence|].
    apply IH; [assumption|]. now rewrite list_lookup_insert_ne.
  - exists j, e. now split.
  - destruct Hin as [->|Hin]; [congruence|]. now apply IH.
  - destruct Hin as [->|Hin]; [congruence|]. now apply IH.
Qed.

End RejectionFacts.

Section OrchestratorFacts.
Import Validators Transport Async Request Stream.
Context {Num : JsNumber}.
Variable xml_parse : string -> Outcome string JsVal.
Variable fetch : string -> Z -> FetchOutcome.

Local Abbreviation page_work := (page_work xml_parse fetch).
Local Abbreviation fetchPage := (fetchPage xml_parse fetch).
Local Abbreviation getFirstPage := (getFirstPage xml_parse fetch).
Local Abbreviation getDataFrom := (getDataFrom xml_parse fetch).
Local Abbreviation getData := (getData xml_parse fetch).
Local Abbreviation searchContracts := (searchContracts xml_parse fetch).
Local Abbreviation stream_pages := (stream_pages xml_parse fetch).
Local Abbreviation getDataStreamFrom := (getDataStreamFrom xml_parse fetch).
Local Abbreviation getDataStream := (getDataStream xml_parse fetch).

(** X19. When the first page reports several pages and the fetch of
    one of the remaining pages fails, [getData] fails as a whole once
    that page's task has finished: it throws the error of a page that
    failed and returns no records, not even those of page 1. *)
Theorem failed_page_fails_fetch (firstPage : FirstPage) (this : FPDSRequest)
    (schedule : list Semaphore.Task) (firstPageRecords : list JsObj)
    (pagination : PaginationInfo) (s : Semaphore.Semaphore)
    (i : nat) (page : Z) (error : Thrown) :
  firstPage (Semaphore.create (threadCount (config this)))
  = Some (Ok (firstPageRecords, pagination), s) ->
  1 < totalPages pagination ->
  remaining_pages (totalPages pagination) !! i = Some page ->
  page_work this page = Throw error ->
  In i (completion_order
          s (length (remaining_pages (totalPages pagination))) schedule) ->
  exists page' error',
    In page' (remaining_pages (totalPages pagination))
    /\ page_work this page' = Throw error'
    /\ getDataFrom firstPage this schedule = Some (Throw error').
Proof.
  intros Hfirst Hmany Hpage Hfail Hdone. unfold Request.getDataFrom.
  rewrite Hfirst.
  destruct (totalPages pagination <=? 1) eqn:Hle;
    [apply Z.leb_le in Hle; lia|].
  set (pages := remaining_pages (totalPages pagination)) in *.
  set (promises := map (fun page => Some (page_work this page)) pages).
  assert (Hi : promises !! i = Some (Some (Throw error))).
  { unfold promises. now rewrite list_lookup_fmap, Hpage, <- Hfail. }
  destruct (settle_rejected promises i error Hi
              (completion_order s (length pages) schedule)
              (replicate (length promises) None)) as (j & e & Hj & Hsettle).
  - assumption.
  - apply lookup_replicate. split; [reflexivity|].
    apply lookup_lt_Some in Hi. exact Hi.
  - unfold promises in Hj. rewrite list_lookup_fmap in Hj.
    destruct (pages !! j) as [page'|] eqn:Hpage'; [|discriminate].
    cbn in Hj. exists page', e. split; [|split; [congruence|]].
    + apply list_elem_of_In. eapply list_elem_of_lookup_2. exact Hpage'.
    + unfold promise_all.
      assert (Hthrown : forall (r : option (Outcome Thrown (list (list JsObj)))),
                 r = Some (Throw e) ->
                 match r with
                 | None => None
                 | Some (Throw error) => Some (Throw error)
                 | Some (Ok remainingPages) =>
                     Some (Ok (concat (firstPageRecords :: remainingPages)))
                 end = Some (Throw e)) by (now intros r ->).
      apply Hthrown. exact Hsettle.
Qed.

(** X20. For an empty list of contracts [searchContracts] returns the
    empty list at once: no request is built, so not even a malformed
    date range is reported. *)
Theorem search_of_nothing (request : ContractSearchRequest)
    (options : ConfigOptions) (schedules : string -> list Semaphore.Task)
    (order : list nat) :
  contracts request = [] ->
  searchContracts request options schedules order = Some (Ok []).
Proof.
  intros Hnone. unfold Request.searchContracts. rewrite Hnone.
  cbn [map]. unfold promise_all. cbn [length replicate].
  destruct order; reflexivity.
Qed.

(** X21. The records [searchContracts] stamps: [source_metadata] is the
    caller's metadata with [source_contract_number] set to the contract
    the record was fetched for, replacing a [source_contract_number]
    the caller supplied; every other property of the record and every
    other entry of the metadata is kept. *)
Theorem stamp_traces_contract (meta : JsObj) (contractNumber : string)
    (record : JsObj) :
  well_formed meta ->
  well_formed record ->
  exists stamped,
    get (stamp meta contractNumber record) "source_metadata" = VObj stamped
    /\ get stamped "source_contract_number" = VStr contractNumber
    /\ (forall key, key <> "source_contract_number" ->
         get stamped key = get meta key)
    /\ (forall key, key <> "source_metadata" ->
         get (stamp meta contractNumber record) key = get record key)
    /\ well_formed (stamp meta contractNumber record).
Proof.
  intros Hmeta Hrecord. unfold stamp.
  rewrite (spread_empty meta Hmeta), (spread_empty record Hrecord).
  eexists. split; [apply get_set_same|]. split; [apply get_set_same|].
  split; [|split].
  - intros key Hkey. now apply get_set_other.
  - intros key Hkey. now apply get_set_other.
  - now apply set_well_formed.
Qed.

Lemma fetchPage_with_permit (this : FPDSRequest) (pageNumber : Z)
    (s : Semaphore.Semaphore) :
  0 < Semaphore.permits s ->
  Semaphore.queue s = [] ->
  fetchPage this pageNumber s = Some (page_work this pageNumber, s).
Proof.
  intros Hpermit Hqueue. unfold Request.fetchPage, Semaphore.acquire.
  apply Z.ltb_lt in Hpermit. rewrite Hpermit.
  unfold Semaphore.release. cbn [Semaphore.queue Semaphore.permits].
  rewrite Hqueue. cbn [fst]. destruct s as [c w]. cbn in *. subst w.
  do 3 f_equal. lia.
Qed.

Lemma stream_pages_until_failure (this : FPDSRequest) (s : Semaphore.Semaphore) :
  0 < Semaphore.permits s ->
  Semaphore.queue s = [] ->
  forall (fetched : list Z) (batches : list (list JsObj)) (rest : list Z),
    map (page_work this) fetched = map Ok batches ->
    stream_pages this (fetched ++ rest) s
    = (batches ++ fst (stream_pages this rest s),
       snd (stream_pages this rest s)).
Proof.
  intros Hpermit Hqueue.
  induction fetched as [|p fetched IH]; intros batches rest Hok.
  - destruct batches; [|discriminate]. cbn. now destruct (stream_pages _ _ _).
  - destruct batches as [|b batches]; [discriminate|].
    injection Hok as Hp Hok. cbn [app Stream.stream_pages].
    rewrite fetchPage_with_permit, Hp by assumption.
    now rewrite (IH batches rest Hok).
Qed.

(** X22. [getDataStream] yields exactly what [getData] returns, as one
    batch: the records of page 1 and then the end of the stream; it
    fails with the same error, or waits for ever, when [getData]
    does. *)
Theorem stream_agrees_with_getData (this : FPDSRequest)
    (schedule : list Semaphore.Task) :
  getDataStream this
  = match getData this schedule with
    | Some (Ok records) => ([records], Finished)
    | Some (Throw error) => ([], Failed error)
    | None => ([], Stalled)
    end.
Proof.
  unfold Stream.getDataStream, Stream.getDataStreamFrom, Request.getData,
    Request.getDataFrom, Request.getFirstPage.
  destruct (fetchPage this 1 _) as [[[rs|e] s1]|]; reflexivity.
Qed.

(** X23. With several pages announced, the stream fetches the pages
    one after the other and yields each batch as it comes: when every
    page succeeds the batches are those of pages 1, 2, 3, ... in order;
    when a page fails, the batches of all the pages before it have been
    yielded and the stream ends with that page's error, no later page
    being asked for. *)
Theorem stream_yields_pages_in_order (firstPage : FirstPage)
    (this : FPDSRequest) (firstPageRecords : list JsObj)
    (pagination : PaginationInfo) (s : Semaphore.Semaphore)
    (fetched : list Z) (batches : list (list JsObj)) :
  firstPage (Semaphore.create (threadCount (config this)))
  = Some (Ok (firstPageRecords, pagination), s) ->
  0 < Semaphore.permits s ->
  Semaphore.queue s = [] ->
  map (page_work this) fetched = map Ok batches ->
  (remaining_pages (totalPages pagination) = fetched ->
     getDataStreamFrom firstPage this
     = (firstPageRecords :: batches, Finished))
  /\ (forall page later error,
        remaining_pages (totalPages pagination) = fetched ++ page :: later ->
        page_work this page = Throw error ->
        getDataStreamFrom firstPage this
        = (firstPageRecords :: batches, Failed error)).
Proof.
  intros Hfirst Hpermit Hqueue Hok. unfold Stream.getDataStreamFrom.
  rewrite Hfirst. split.
  - intros ->. rewrite <- (app_nil_r fetched).
    rewrite (stream_pages_until_failure this s Hpermit Hqueue fetched batches [] Hok).
    cbn. now rewrite app_nil_r.
  - intros page later error -> Hfail.
    rewrite (stream_pages_until_failure this s Hpermit Hqueue fetched batches _ Hok).
    cbn [Stream.stream_pages]. rewrite fetchPage_with_permit, Hfail by assumption.
    cbn. now rewrite app_nil_r.
Qed.

End OrchestratorFacts.

(** Three pages announced for contract [A], whose requests are all
    refused; the task of page 2 finishes. *)
Lemma failed_page_fails_fetch_witness :
  let this := Request.mkRequest [("PIID", VStr "A")] Transport.DEFAULT_CONFIG in
  let firstPage : Request.FirstPage :=
    fun s => Some (Ok ([], Request.mkPagination 1 3 0 0), s) in
  exists page' error',
    In page' (Request.remaining_pages 3)
    /\ Request.page_work Sample.xml_parse Sample.fetch this page' = Throw error'
    /\ Request.getDataFrom Sample.xml_parse Sample.fetch firstPage this [0%nat]
       = Some (Throw error').
Proof.
  intros this firstPage.
  apply (failed_page_fails_fetch Sample.xml_parse Sample.fetch firstPage this
           [0%nat] [] (Request.mkPagination 1 3 0 0) (Semaphore.create 10)
           0%nat 2
           (Transport.Raised
              (NetworkError "Network request failed: ECONNRESET"
                            (Some "ECONNRESET")))).
  - reflexivity.
  - simpl. lia.
  - reflexivity.
  - vm_compute. reflexivity.
  - vm_compute. tauto.
Defined.

(** No contracts and a date range that is no date range. *)
Lemma search_of_nothing_witness :
  Request.searchContracts Sample.xml_parse Sample.fetch
    (Request.mkSearch [] (Some "yesterday") None) Request.no_options
    (fun _ => []) []
  = Some (Ok []).
Proof.
  apply (search_of_nothing Sample.xml_parse Sample.fetch
           (Request.mkSearch [] (Some "yesterday") None) Request.no_options
           (fun _ => []) []).
  reflexivity.
Defined.

(** Metadata that already names a contract. *)
Lemma stamp_traces_contract_witness :
  let meta := [("source_contract_number", VStr "OLD"); ("batch", VStr "7")] in
  let record := [("title", VStr "T"); ("source_metadata", VNull)] in
  exists stamped,
    get (Request.stamp meta "W91QV1" record) "source_metadata" = VObj stamped
    /\ get stamped "source_contract_number" = VStr "W91QV1"
    /\ (forall key, key <> "source_contract_number" ->
         get stamped key = get meta key)
    /\ (forall key, key <> "source_metadata" ->
         get (Request.stamp meta "W91QV1" record) key = get record key)
    /\ well_formed (Request.stamp meta "W91QV1" record).
Proof.
  intros meta record.
  apply (stamp_traces_contract meta "W91QV1" record).
  - unfold well_formed. simpl. repeat constructor; simpl; intuition discriminate.
  - unfold well_formed. simpl. repeat constructor; simpl; intuition discriminate.
Defined.

(** Three pages of which the third is refused: the batches of pages 1
    and 2 are yielded, then the error. *)
Lemma stream_yields_pages_in_order_witness :
  let fetch := fun (url : string) (attempt : Z) =>
    if includes url "page=3" then Transport.Rejected (Transport.OtherError "ECONNRESET")
    else Transport.Responded true 200 "OK" (Ok url) in
  let this := Request.mkRequest [("PIID", VStr "B")] Transport.DEFAULT_CONFIG in
  let firstPage : Request.FirstPage :=
    fun s => Some (Ok (Sample.records_of "one", Request.mkPagination 1 3 1 1), s) in
  Stream.getDataStreamFrom Sample.xml_parse fetch firstPage this
  = ([Sample.records_of "one";
      Sample.records_of (Sample.search_url +++ "?PIID=B&page=2")],
     Stream.Failed
       (Transport.Raised
          (NetworkError "Network request failed: ECONNRESET"
                        (Some "ECONNRESET")))).
Proof.
  intros fetch this firstPage.
  apply (stream_yields_pages_in_order Sample.xml_parse fetch firstPage this
           (Sample.records_of "one") (Request.mkPagination 1 3 1 1)
           (Semaphore.create 10) [2]
           [Sample.records_of (Sample.search_url +++ "?PIID=B&page=2")])
    with (page := 3) (later := []).
  - reflexivity.
  - simpl. lia.
  - reflexivity.
  - vm_compute. reflexivity.
  - reflexivity.
  - vm_compute. reflexivity.
Defined.

(** A response with status 503 and one that cannot be read. *)
Lemma makeRequest_classifies_witness :
  (exists status statusText body,
     Transport.Responded false 503 "Service Unavailable" (Ok "busy")
     = Transport.Responded false status statusText body
     /\ FPDSRequestError "HTTP 503: Service Unavailable" 503
        = FPDSRequestError ("HTTP " +++ Z_toString status +++ ": " +++ statusText)
                           status)
  \/ (exists message original,
        FPDSRequestError "HTTP 503: Service Unavailable" 503
        = NetworkError message original
        /\ forall status statusText body,
             Transport.Responded false 503 "Service Unavailable" (Ok "busy")
             <> Transport.Responded false status statusText body).
Proof.
  apply (proj2 (makeRequest_classifies
                  Transport.DEFAULT_CONFIG
                  (Transport.Responded false 503 "Service Unavailable" (Ok "busy")))
               (FPDSRequestError "HTTP 503: Service Unavailable" 503)).
  vm_compute. reflexivity.
Defined.

(* ===================================================================== *)
(** * What a search returns *)
(* ===================================================================== *)

Section FulfilmentFacts.
Import Async.
Context {E A : Type}.

(** Every value [Promise.all] fulfils with is the value of one of its
    promises. *)
Lemma settle_values (promises : list (@Promise E A)) :
  forall order slots vs,
    (forall i v, slots !! i = Some (Some v) ->
                 promises !! i = Some (Some (Ok v))) ->
    settle promises order slots = Some (Ok vs) ->
    forall v, In v vs -> exists i, promises !! i = Some (Some (Ok v)).
Proof.
  assert (Hdone : forall slots vs,
            (forall i v, slots !! i = Some (Some v) ->
                         promises !! i = Some (Some (Ok v))) ->
            filled slots = Some vs ->
            forall v, In v vs -> exists i, promises !! i = Some (Some (Ok v))).
  { intros slots vs Hinv Hf v Hv. apply filled_Some in Hf. subst slots.
    apply list_elem_of_In, list_elem_of_lookup_1 in Hv as [i Hi].
    exists i. apply Hinv. now rewrite list_lookup_fmap, Hi. }
  induction order as [|j order IH]; intros slots vs Hinv Hs; cbn [settle] in Hs.
  - destruct (filled slots) as [ws|] eqn:Hf; [|discriminate].
    injection Hs as ->. now apply (Hdone slots).
  - destruct (filled slots) as [ws|] eqn:Hf.
    { injection Hs as ->. now apply (Hdone slots). }
    destruct (promises !! j) as [[[w|e]|]|] eqn:Hj; try discriminate;
      try (now apply (IH slots)).
    apply (IH (<[j := Some w]> slots)); [|assumption].
    intros i v Hi. apply list_lookup_insert_Some in Hi as [(<- & Hw & _)|[_ Hi]].
    + congruence.
    + now apply Hinv.
Qed.

End FulfilmentFacts.

Section SearchFacts.
Import Validators Transport Async Request.
Context {Num : JsNumber}.
Variable xml_parse : string -> Outcome string JsVal.
Variable fetch : string -> Z -> FetchOutcome.

Local Abbreviation page_work := (page_work xml_parse fetch).
Local Abbreviation getData := (getData xml_parse fetch).
Local Abbreviation searchContracts := (searchContracts xml_parse fetch).

Lemma page_work_schema (this : FPDSRequest) (pageNumber : Z) records :
  page_work this pageNumber = Ok records ->
  Forall (fun record => keys record = field_names) records.
Proof.
  unfold Request.page_work. cbv zeta.
  destruct (fst (makeRequestWithRetry _ _)) as [xmlData|e]; [|discriminate].
  cbn [bind].
  destruct (lift_failure _) as [raw|e]; [|discriminate]. cbn [bind].
  intros [= <-].
  unfold FieldMapper.mapRecords. apply List.Forall_forall. intros record Hin.
  now apply in_map_iff in Hin as (rawRecord & <- & _).
Qed.

Lemma getData_is_page_one (this : FPDSRequest) schedule records :
  getData this schedule = Some (Ok records) -> page_work this 1 = Ok records.
Proof.
  unfold Request.getData, Request.getDataFrom, Request.getFirstPage,
    Request.fetchPage.
  destruct (Semaphore.acquire _ _) as [s' [t|]]; [|discriminate].
  destruct (page_work this 1) as [rs|e]; cbn; [|discriminate].
  now intros [= ->].
Qed.

(** X24. Every record [searchContracts] returns has the full set of
    output fields, in their fixed order, whatever the server answered;
    and when the caller gave metadata, its [source_metadata] names, as
    [source_contract_number], one of the contracts that were asked
    for. *)
Theorem search_results_are_full_records (request : ContractSearchRequest)
    (options : ConfigOptions) (schedules : string -> list Semaphore.Task)
    (order : list nat) (records : list JsObj) :
  searchContracts request options schedules order = Some (Ok records) ->
  Forall (fun record =>
            keys record = field_names
            /\ forall meta, metadata request = Some meta ->
                 exists contractNumber stamped,
                   In contractNumber (contracts request)
                   /\ get record "source_metadata" = VObj stamped
                   /\ get stamped "source_contract_number"
                      = VStr contractNumber)
         records.
Proof.
  unfold Request.searchContracts. cbv zeta.
  destruct (promise_all _ _) as [[results|e]|] eqn:Hall; try discriminate.
  intros [= <-]. apply List.Forall_forall. intros record Hin.
  apply in_concat in Hin as (batch & Hbatch & Hrec).
  unfold promise_all in Hall.
  assert (Hfrom : exists i,
            map (fun contractNumber =>
                   search_task xml_parse fetch request options
                     (schedules contractNumber) contractNumber)
                (contracts request) !! i
            = Some (Some (Ok batch))).
  { eapply settle_values; [|exact Hall|exact Hbatch].
    intros i v Hi. apply lookup_replicate in Hi as [Hi _]. discriminate. }
  destruct Hfrom as [i Hi].
  rewrite list_lookup_fmap in Hi.
  destruct (contracts request !! i) as [c|] eqn:Hc; [|discriminate].
  cbn [fmap option_fmap option_map] in Hi. injection Hi as Hi.
  unfold search_task in Hi.
  destruct (construct _ _) as [query|e]; [|discriminate].
  destruct (getData query _) as [[rs|e]|] eqn:Hdata; try discriminate.
  - injection Hi as <-.
    apply getData_is_page_one, page_work_schema in Hdata.
    rewrite List.Forall_forall in Hdata.
    destruct (metadata request) as [meta|].
    + apply in_map_iff in Hrec as (r & <- & Hr). specialize (Hdata r Hr).
      assert (Hwf : well_formed r).
      { unfold well_formed. rewrite Hdata.
        exact (mapRecord_well_formed [] VUndefined). }
      split.
      * unfold stamp. rewrite (spread_empty r Hwf).
        rewrite keys_set_present; [assumption|].
        rewrite Hdata. vm_compute. tauto.
      * intros meta' _. eexists c, _. split; [|split].
        -- apply list_elem_of_In. eapply list_elem_of_lookup_2. exact Hc.
        -- unfold stamp. apply get_set_same.
        -- apply get_set_same.
    + split; [now apply Hdata | discriminate].
  - injection Hi as <-. destruct Hrec.
Qed.

End SearchFacts.

(** One contract, searched with metadata. *)
Lemma search_results_are_full_records_witness :
  let meta := [("batch", VStr "7")] in
  Forall (fun record =>
            keys record = field_names
            /\ exists contractNumber stamped,
                 In contractNumber ["B"]
                 /\ get record "source_metadata" = VObj stamped
                 /\ get stamped "source_contract_number" = VStr contractNumber)
         (map (Request.stamp meta "B")
              (Sample.records_of (Sample.search_url +++ "?PIID=B&page=1"))).
Proof.
  intros meta.
  pose proof (search_results_are_full_records Sample.xml_parse Sample.fetch
                (Request.mkSearch ["B"] None (Some meta)) Request.no_options
                (fun _ => []) [0%nat]
                (map (Request.stamp meta "B")
                     (Sample.records_of (Sample.search_url +++ "?PIID=B&page=1")))
                ltac:(vm_compute; reflexivity)) as Hall.
  apply List.Forall_forall. intros record Hin.
  rewrite List.Forall_forall in Hall. destruct (Hall record Hin) as [Hkeys Hmeta].
  split; [assumption|]. exact (Hmeta meta eq_refl).
Defined.

(* ===================================================================== *)
(** * The date range and the ZIP code *)
(* ===================================================================== *)

Section WhiteSpaceFacts.
Import Validators.

Lemma ws_bytes_le1 x : (ws_bytes x 0 0 <= 1)%nat.
Proof.
  unfold ws_bytes.
  destruct ((9 <=? x)%N && (x <=? 13)%N || (x =? 32)%N); [lia|].
  cbn [N.eqb]. rewrite !andb_false_r. cbn. lia.
Qed.

Lemma ws_bytes_le2 x y : (ws_bytes x y 0 <= 2)%nat.
Proof.
  unfold ws_bytes.
  destruct ((9 <=? x)%N && (x <=? 13)%N || (x =? 32)%N); [lia|].
  destruct ((x =? 194)%N && (y =? 160)%N); [lia|].
  cbn [N.eqb N.leb N.compare]. rewrite ?andb_false_r. cbn. lia.
Qed.

Lemma ws_bytes_le3 x y z : (ws_bytes x y z <= 3)%nat.
Proof.
  unfold ws_bytes.
  repeat match goal with |- context [if ?b then _ else _] => destruct b end; lia.
Qed.

(** The size of a white-space character is read from its own bytes. *)
Lemma ws_bytes_1 x y z y' z' : ws_bytes x y z = 1%nat -> ws_bytes x y' z' = 1%nat.
Proof.
  unfold ws_bytes.
  destruct ((9 <=? x)%N && (x <=? 13)%N || (x =? 32)%N); [reflexivity|].
  repeat match goal with |- context [if ?b then _ else _] => destruct b end;
    discriminate.
Qed.

Lemma ws_bytes_2 x y z z' : ws_bytes x y z = 2%nat -> ws_bytes x y z' = 2%nat.
Proof.
  unfold ws_bytes.
  destruct ((9 <=? x)%N && (x <=? 13)%N || (x =? 32)%N); [discriminate|].
  destruct ((x =? 194)%N && (y =? 160)%N); [reflexivity|].
  repeat match goal with |- context [if ?b then _ else _] => destruct b end;
    discriminate.
Qed.

Lemma ws_len_length (s : string) : (ws_len s <= String.length s)%nat.
Proof.
  unfold ws_len.
  destruct s as [|a [|b [|c s]]]; cbn [bytes3 String.length].
  - vm_compute. lia.
  - apply ws_bytes_le1.
  - apply ws_bytes_le2.
  - pose proof (ws_bytes_le3 (JS.code a) (JS.code b) (JS.code c)). lia.
Qed.

Lemma ws_len_app (w rest : string) :
  ws_len w <> 0%nat -> ws_len (w +++ rest) = ws_len w.
Proof.
  unfold ws_len. intros Hw.
  destruct w as [|a [|b [|c w]]]; cbn [bytes3 String.append] in *.
  - now vm_compute in Hw.
  - pose proof (ws_bytes_le1 (JS.code a)).
    assert (H1 : ws_bytes (JS.code a) 0 0 = 1%nat) by lia. rewrite H1.
    destruct rest as [|b [|c rest]]; cbn [bytes3]; try assumption;
      now apply (ws_bytes_1 _ 0%N 0%N).
  - pose proof (ws_bytes_le2 (JS.code a) (JS.code b)).
    destruct (ws_bytes (JS.code a) (JS.code b) 0) as [|[|[|n]]] eqn:Hn; try lia.
    + destruct rest as [|c rest]; cbn [bytes3]; try assumption.
      now apply (ws_bytes_1 _ (JS.code b) 0%N).
    + destruct rest as [|c rest]; cbn [bytes3]; try assumption.
      now apply (ws_bytes_2 _ _ 0%N).
  - reflexivity.
Qed.

Lemma drop_app : forall (n : nat) (w rest : string),
  (n <= String.length w)%nat -> drop n (w +++ rest) = drop n w +++ rest.
Proof.
  induction n as [|n IH]; intros w rest Hn; [reflexivity|].
  destruct w as [|c w]; cbn in Hn; [lia|]. cbn [drop String.append].
  apply IH. lia.
Qed.

Lemma drop_length : forall (n : nat) (s : string),
  String.length (drop n s) = (String.length s - n)%nat.
Proof.
  induction n as [|n IH]; intros s; cbn [drop]; [lia|].
  destruct s as [|c s]; [reflexivity|]. cbn [String.length]. now rewrite IH.
Qed.

Lemma length_append (a b : string) :
  String.length (a +++ b) = (String.length a + String.length b)%nat.
Proof. induction a as [|c a IH]; cbn; [|rewrite IH]; reflexivity. Qed.

(** More fuel than the string has bytes changes nothing. *)
Lemma strip_fuel : forall (fuel fuel' : nat) (s : string),
  (String.length s <= fuel)%nat -> (String.length s <= fuel')%nat ->
  strip ws_len fuel s = strip ws_len fuel' s.
Proof.
  induction fuel as [|fuel IH]; intros fuel' s Hf Hf'.
  - destruct s; [|cbn in Hf; lia]. now destruct fuel'.
  - destruct fuel' as [|fuel'].
    + destruct s; [|cbn in Hf'; lia]. reflexivity.
    + cbn [strip]. destruct (ws_len s) as [|n] eqn:Hn; [reflexivity|].
      pose proof (ws_len_length s).
      apply IH; rewrite drop_length; lia.
Qed.

Lemma strip_blank_app : forall (fuel : nat) (w rest : string) (fuel' : nat),
  (String.length w <= fuel)%nat -> (String.length w <= fuel')%nat ->
  strip ws_len fuel w = "" ->
  ws_len rest = 0%nat ->
  strip ws_len fuel' (w +++ rest) = rest.
Proof.
  induction fuel as [|fuel IH]; intros w rest fuel' Hf Hf' Hw Hrest.
  - destruct w; [|cbn in Hf; lia]. cbn [String.append].
    destruct fuel'; [reflexivity|]. cbn [strip]. now rewrite Hrest.
  - cbn [strip] in Hw. destruct (ws_len w) as [|n] eqn:Hn.
    + subst w. cbn [String.append].
      destruct fuel'; [reflexivity|]. cbn [strip]. now rewrite Hrest.
    + pose proof (ws_len_length w).
      destruct fuel' as [|fuel']; [lia|]. cbn [strip].
      rewrite ws_len_app, Hn by lia. rewrite drop_app by lia.
      apply IH; try assumption; rewrite drop_length; lia.
Qed.

(** White space followed by something that is none is trimmed to that. *)
Lemma trimStart_blank_app (w rest : string) :
  blank w -> ws_len rest = 0%nat -> trimStart (w +++ rest) = rest.
Proof.
  intros Hw Hrest. unfold trimStart.
  apply (strip_blank_app (String.length w)); try assumption; [lia|].
  rewrite length_append. lia.
Qed.

Lemma drop_split : forall (n : nat) (s : string),
  (n <= String.length s)%nat ->
  exists u, s = u +++ drop n s /\ String.length u = n.
Proof.
  induction n as [|n IH]; intros s Hn; [now exists ""|].
  destruct s as [|c s]; cbn in Hn; [lia|].
  destruct (IH s ltac:(lia)) as (u & Hu & Hlen).
  exists (String c u). cbn. split; [now rewrite <- Hu | now rewrite Hlen].
Qed.

Lemma ws_len_prefix (u rest : string) :
  ws_len (u +++ rest) = String.length u -> u <> "" ->
  ws_len u = String.length u.
Proof.
  unfold ws_len. intros Hw Hu.
  destruct u as [|a [|b [|c [|d u]]]]; cbn [bytes3 String.append String.length] in *.
  - congruence.
  - destruct rest as [|b [|c rest]]; cbn [bytes3] in Hw; try assumption;
      now apply (ws_bytes_1 _ _ _ 0%N 0%N) in Hw.
  - destruct rest as [|c rest]; cbn [bytes3] in Hw; try assumption.
    now apply (ws_bytes_2 _ _ _ 0%N) in Hw.
  - assumption.
  - pose proof (ws_bytes_le3 (JS.code a) (JS.code b) (JS.code c)). lia.
Qed.

Lemma strip_split : forall (fuel : nat) (s : string),
  exists w, s = w +++ strip ws_len fuel s /\ blank w.
Proof.
  induction fuel as [|fuel IH]; intros s; [now exists ""|].
  cbn [strip]. destruct (ws_len s) as [|n] eqn:Hn; [now exists ""|].
  pose proof (ws_len_length s) as Hle.
  destruct (drop_split (S n) s ltac:(lia)) as (u & Hu & Hlen).
  destruct (IH (drop (S n) s)) as (w & Hw & Hblank).
  exists (u +++ w). split.
  - rewrite string_app_assoc, <- Hw. exact Hu.
  - assert (Hhead : ws_len u = S n).
    { rewrite <- Hlen. apply (ws_len_prefix u (drop (S n) s)).
      - rewrite <- Hu. congruence.
      - intros ->. discriminate. }
    unfold blank, trimStart. rewrite length_append, Hlen. cbn [Nat.add strip].
    rewrite ws_len_app, Hhead by lia.
    rewrite drop_app by lia.
    replace (drop (S n) u) with "".
    + cbn [String.append]. rewrite <- Hblank. unfold trimStart.
      apply strip_fuel; lia.
    + destruct (drop (S n) u) eqn:Hd; [reflexivity|].
      apply (f_equal String.length) in Hd. rewrite drop_length in Hd.
      cbn in Hd. lia.
Qed.

End WhiteSpaceFacts.

Section DateFacts.
Import Validators.

Lemma lit_matches c (s rest : string) :
  lit c s = Some rest <-> s = String c rest.
Proof.
  unfold lit, char_class. destruct s as [|d s]; [split; discriminate|].
  destruct (Ascii.eqb c d) eqn:Hc.
  - apply Ascii.eqb_eq in Hc as <-. split; congruence.
  - split; [discriminate|]. intros [= <- _]. now rewrite Ascii.eqb_refl in Hc.
Qed.

Lemma date_matches (s rest : string) :
  date s = Some rest <-> exists d, s = d +++ rest /\ date_shape d.
Proof.
  unfold date, seq_. split.
  - destruct (times 4 digit s) as [s1|] eqn:H1; [|discriminate].
    apply times_class in H1 as (year & -> & Hy & Hyd).
    destruct (lit "/" s1) as [s2|] eqn:H2; [|discriminate].
    apply lit_matches in H2 as ->.
    destruct (times 2 digit s2) as [s3|] eqn:H3; [|discriminate].
    apply times_class in H3 as (month & -> & Hm & Hmd).
    destruct (lit "/" s3) as [s4|] eqn:H4; [|discriminate].
    apply lit_matches in H4 as ->. intros H5.
    apply times_class in H5 as (day & -> & Hd & Hdd).
    exists (year +++ "/" +++ month +++ "/" +++ day). split.
    + now rewrite !string_app_assoc.
    + now exists year, month, day.
  - intros (d & -> & year & month & day & -> & Hy & Hyd & Hm & Hmd & Hd & Hdd).
    rewrite !string_app_assoc.
    rewrite (proj2 (times_class is_digit 4 _ _)
               (ex_intro _ year (conj eq_refl (conj Hy Hyd)))).
    cbn [String.append]. rewrite (proj2 (lit_matches _ _ _) eq_refl).
    rewrite (proj2 (times_class is_digit 2 _ _)
               (ex_intro _ month (conj eq_refl (conj Hm Hmd)))).
    cbn [String.append]. rewrite (proj2 (lit_matches _ _ _) eq_refl).
    apply times_class. now exists day.
Qed.

Lemma ws_len_comma (rest : string) : ws_len (String "," rest) = 0%nat.
Proof. destruct rest as [|b [|c rest]]; reflexivity. Qed.

Lemma ws_len_digit c (rest : string) :
  is_digit c = true -> ws_len (String c rest) = 0%nat.
Proof.
  intros Hc. destruct c as [b0 b1 b2 b3 b4 b5 b6 b7].
  destruct b4, b5, b6, b7; try discriminate Hc;
    destruct b0, b1, b2, b3; try discriminate Hc;
    destruct rest as [|b [|d rest]]; reflexivity.
Qed.

Lemma ws_len_date (d rest : string) :
  date_shape d -> ws_len (d +++ rest) = 0%nat.
Proof.
  intros (year & month & day & -> & Hy & Hyd & _).
  destruct year as [|c year]; [discriminate|].
  cbn in Hyd. apply andb_prop in Hyd as [Hc _].
  rewrite !string_app_assoc. cbn [String.append]. now apply ws_len_digit.
Qed.

(** X25. [validateDateRange] accepts exactly the texts
    [[yyyy/mm/dd,yyyy/mm/dd]] with any white space around the comma:
    the shape of the two dates is checked, their digits are not, so
    neither is the order of the two dates. *)
Theorem date_range_exact (s : string) :
  validateDateRange s = true <->
  exists from w1 w2 to,
    s = "[" +++ from +++ w1 +++ "," +++ w2 +++ to +++ "]"
    /\ date_shape from /\ date_shape to /\ blank w1 /\ blank w2.
Proof.
  unfold validateDateRange, test, dateRangePattern. split.
  - unfold seq_ at 1. destruct (lit "[" s) as [s1|] eqn:H1; [|discriminate].
    apply lit_matches in H1 as ->.
    unfold seq_ at 1. destruct (date s1) as [s2|] eqn:H2; [|discriminate].
    apply date_matches in H2 as (from & -> & Hfrom).
    unfold seq_ at 1, spaces at 1.
    destruct (strip_split (String.length s2) s2) as (w1 & Hs2 & Hw1).
    fold (trimStart s2) in Hs2.
    unfold seq_ at 1.
    destruct (lit "," (trimStart s2)) as [s3|] eqn:H3; [|discriminate].
    apply lit_matches in H3. rewrite H3 in Hs2.
    unfold seq_ at 1, spaces at 1.
    destruct (strip_split (String.length s3) s3) as (w2 & Hs3 & Hw2).
    fold (trimStart s3) in Hs3.
    unfold seq_.
    destruct (date (trimStart s3)) as [s4|] eqn:H4; [|discriminate].
    apply date_matches in H4 as (to & H4 & Hto). rewrite H4 in Hs3.
    destruct (lit "]" s4) as [[|]|] eqn:H5; try discriminate.
    apply lit_matches in H5 as ->. intros _.
    exists from, w1, w2, to. repeat split; try assumption.
    rewrite Hs2, Hs3. cbn [String.append]. now rewrite ?string_app_assoc.
  - intros (from & w1 & w2 & to & -> & Hfrom & Hto & Hw1 & Hw2).
    cbn [String.append].
    unfold seq_ at 1. rewrite (proj2 (lit_matches _ _ _) eq_refl).
    unfold seq_ at 1.
    rewrite (proj2 (date_matches _ _) (ex_intro _ from (conj eq_refl Hfrom))).
    unfold seq_ at 1, spaces at 1.
    rewrite (trimStart_blank_app w1 _ Hw1 (ws_len_comma _)).
    unfold seq_ at 1. rewrite (proj2 (lit_matches _ _ _) eq_refl).
    unfold seq_ at 1, spaces at 1.
    rewrite (trimStart_blank_app w2 _ Hw2 (ws_len_date to _ Hto)).
    unfold seq_.
    rewrite (proj2 (date_matches _ _) (ex_intro _ to (conj eq_refl Hto))).
    now rewrite (proj2 (lit_matches _ _ _) eq_refl).
Qed.

(** X26. [validateZipCode] accepts exactly five digits, and five
    digits followed by a hyphen and four digits. *)
Theorem zip_code_exact (s : string) :
  validateZipCode s = true <->
  exists five rest,
    s = five +++ rest
    /\ String.length five = 5%nat /\ all_chars is_digit five = true
    /\ (rest = ""
        \/ exists four, rest = String "-" four
                        /\ String.length four = 4%nat
                        /\ all_chars is_digit four = true).
Proof.
  unfold validateZipCode, test. unfold seq_ at 1. split.
  - destruct (times 5 digit s) as [rest|] eqn:H5; [|discriminate].
    apply times_class in H5 as (five & -> & Hlen & Hall).
    intros Hopt. exists five, rest. repeat split; try assumption.
    unfold opt, seq_ in Hopt.
    destruct (lit "-" rest) as [four|] eqn:Hdash.
    + apply lit_matches in Hdash as ->. right. exists four.
      split; [reflexivity|]. apply test_times. unfold test, digit in *.
      now destruct (times 4 (char_class is_digit) four) as [[|]|].
    + left. now destruct rest.
  - intros (five & rest & -> & Hlen & Hall & Hrest).
    rewrite (proj2 (times_class is_digit 5 _ _)
               (ex_intro _ five (conj eq_refl (conj Hlen Hall)))).
    destruct Hrest as [->|(four & -> & Hlen4 & Hall4)]; [reflexivity|].
    unfold opt, seq_. rewrite (proj2 (lit_matches _ _ _) eq_refl).
    pose proof (proj2 (test_times is_digit 4 four) (conj Hlen4 Hall4)) as Hfour.
    unfold test in Hfour. unfold digit.
    now destruct (times 4 (char_class is_digit) four) as [[|]|].
Qed.

End DateFacts.

Lemma date_range_exact_witness :
  Validators.validateDateRange "[2024/01/01 , 2023/12/31]" = true.
Proof.
  apply (proj2 (date_range_exact "[2024/01/01 , 2023/12/31]")).
  exists "2024/01/01", " ", " ", "2023/12/31".
  split; [reflexivity|]. split; [|split; [|split; reflexivity]].
  - exists "2024", "01", "01". repeat split; reflexivity.
  - exists "2023", "12", "31". repeat split; reflexivity.
Defined.

Lemma zip_code_exact_witness : Validators.validateZipCode "20500-0003" = true.
Proof.
  apply (proj2 (zip_code_exact "20500-0003")).
  exists "20500", "-0003". repeat split; try reflexivity.
  right. exists "0003". repeat split; reflexivity.
Defined.
